(** * Photo frame generator: resizer, compositor, classifier and handler

    A shallow embedding of [backend/main.py] (the HTTP handler) and of
    [backend/test_local.py] (the local harness), with the properties the
    specification states about them.

    Layout:
    - [Py], [PyFloat], [PyStr]: the fragment of Python the code runs on:
      exceptions, binary64 floats with the correctly rounded [int / int] and
      [int * float], [min], [int()], and the [str] methods the code calls;
    - [PIL]: the Pillow operations the code calls, on images that carry
      their size, their mode and a symbolic description of their pixels;
    - [Web]: requests, responses, the bucket and the code that runs on them;
    - [Main], [TestLocal]: the functions of the two source files;
    - [Sem], [Spec], [HandlerWords], [Samples]: the vocabulary of the
      statements, the specification's own formulas, and sample inputs;
    - the properties: rounding ([FloatFacts]), the size the resizer asks for
      ([ResizeFacts]), then one module per component;
    - further properties of the code, one module per component again
      ([ClassifierMore], [ResizerMore], [CompositorMore], [Publisher],
      [HandlerMore], [HarnessMore]), and the compositor's fallback followed
      up to the answer of the request ([Fallback]). *)

From Stdlib Require Import ZArith List String Ascii Bool Lia.
From Stdlib Require Import QArith Qround Qminmax.
From Stdlib Require Import Reals Lra Psatz.
From Stdlib Require Import Floats.SpecFloat.
Import ListNotations.

Open Scope string_scope.
Open Scope Z_scope.

(* ================================================================== *)
(** ** Python: exceptions and results *)

Module Py.

(** An exception is identified by the name of its class. *)
Inductive exn : Type :=
| ZeroDivisionError
| OverflowError
| ValueError
| OSError
| FileNotFoundError
| UnidentifiedImageError
| OtherError (cls : string).

Definition exn_class (e : exn) : string :=
  match e with
  | ZeroDivisionError => "ZeroDivisionError"
  | OverflowError => "OverflowError"
  | ValueError => "ValueError"
  | OSError => "OSError"
  | FileNotFoundError => "FileNotFoundError"
  | UnidentifiedImageError => "UnidentifiedImageError"
  | OtherError cls => cls
  end.

(** A computation either returns a value or raises. *)
Inductive result (A : Type) : Type :=
| Ok (a : A)
| Raise (e : exn).
Arguments Ok {A} a.
Arguments Raise {A} e.

Definition bind {A B : Type} (c : result A) (k : A -> result B) : result B :=
  match c with
  | Ok a => k a
  | Raise e => Raise e
  end.

(** [try: c  except Exception: h] *)
Definition try_except {A : Type} (c : result A) (h : exn -> A) : A :=
  match c with
  | Ok a => a
  | Raise e => h e
  end.

End Py.
Export Py.

Declare Scope py_scope.
Delimit Scope py_scope with py.
Notation "x <- c ;; k" := (bind c (fun x => k))
  (at level 61, c at next level, right associativity) : py_scope.
Notation "' p <- c ;; k" := (bind c (fun p => k))
  (at level 61, p pattern, c at next level, right associativity) : py_scope.
Open Scope py_scope.

(* ================================================================== *)
(** ** Python floats

    A Python [float] is an IEEE 754 binary64 number.  A finite float is
    kept as [m * 2^e] with [|m| < 2^53]; an operation returns the exact
    result rounded to the nearest such number, ties to the even
    significand, which is how IEEE 754 defines it.  Exponents stop at
    [-1074] (gradual underflow) and a result of [2^1024] or more
    overflows.  The sign of a zero is not kept: the code only compares
    floats and truncates them, and neither sees it. *)

Module PyFloat.

Inductive float : Type :=
| Fin (m e : Z)
| Inf (neg : bool)
| NaN.

(** [floor (log2 (n / d))] for [n, d > 0]. *)
Definition ilog2_frac (n d : Z) : Z :=
  let a := Z.log2 n - Z.log2 d in
  if n * 2 ^ Z.max 0 (- a) <? d * 2 ^ Z.max 0 a then a - 1 else a.

(** The integer nearest to [N / D], ties to even ([N >= 0], [D > 0]). *)
Definition rne (N D : Z) : Z :=
  let q := N / D in
  match 2 * (N mod D) ?= D with
  | Lt => q
  | Gt => q + 1
  | Eq => if Z.even q then q else q + 1
  end.

(** The rational [n / d] ([n >= 0], [d > 0]), negated when [neg],
    rounded to binary64. *)
Definition round_frac (neg : bool) (n d : Z) : float :=
  if n =? 0 then Fin 0 0 else
  let e := Z.max (ilog2_frac n d - 52) (-1074) in
  let m := rne (n * 2 ^ Z.max 0 (- e)) (d * 2 ^ Z.max 0 e) in
  let '(m, e) := if m =? 2 ^ 53 then (2 ^ 52, e + 1) else (m, e) in
  if 971 <? e then Inf neg
  else if m =? 0 then Fin 0 0
  else Fin (if neg then - m else m) e.

(** [a / b] on two [int]s: the correctly rounded quotient. *)
Definition int_truediv (a b : Z) : result float :=
  if b =? 0 then Raise ZeroDivisionError
  else
    match round_frac (xorb (a <? 0) (b <? 0)) (Z.abs a) (Z.abs b) with
    | Inf _ => Raise OverflowError
    | q => Ok q
    end.

(** [float(a)] on an [int]. *)
Definition float_of_int (a : Z) : result float :=
  match round_frac (a <? 0) (Z.abs a) 1 with
  | Inf _ => Raise OverflowError
  | x => Ok x
  end.

Definition is_zero (x : float) : bool :=
  match x with Fin 0 _ => true | _ => false end.

Definition is_neg (x : float) : bool :=
  match x with Fin m _ => m <? 0 | Inf s => s | NaN => false end.

(** [x * y] on two floats. *)
Definition float_mul (x y : float) : float :=
  match x, y with
  | NaN, _ | _, NaN => NaN
  | Fin mx ex, Fin my ey =>
      let e := ex + ey in
      round_frac (xorb (mx <? 0) (my <? 0))
                 (Z.abs (mx * my) * 2 ^ Z.max 0 e) (2 ^ Z.max 0 (- e))
  | _, _ =>
      if is_zero x || is_zero y then NaN
      else Inf (xorb (is_neg x) (is_neg y))
  end.

(** [a * x] with [a] an [int] and [x] a [float]: [a] is converted first. *)
Definition int_mul_float (a : Z) (x : float) : result float :=
  fa <- float_of_int a ;;
  Ok (float_mul fa x).

(** [x < y]. *)
Definition float_lt (x y : float) : bool :=
  match x, y with
  | NaN, _ | _, NaN => false
  | Inf sx, Inf sy => sx && negb sy
  | Inf sx, Fin _ _ => sx
  | Fin _ _, Inf sy => negb sy
  | Fin mx ex, Fin my ey =>
      let e := Z.min ex ey in
      mx * 2 ^ (ex - e) <? my * 2 ^ (ey - e)
  end.

(** The builtin [min(x, y)]: the first argument unless the second is
    smaller. *)
Definition py_min (x y : float) : float :=
  if float_lt y x then y else x.

(** [int(x)]: truncation towards zero. *)
Definition int_of_float (x : float) : result Z :=
  match x with
  | Fin m e => Ok (if 0 <=? e then m * 2 ^ e else Z.quot m (2 ^ (- e)))
  | Inf _ => Raise OverflowError
  | NaN => Raise ValueError
  end.

(** The same number in the Standard Library's IEEE 754 format. *)
Definition to_spec (x : float) : spec_float :=
  match x with
  | Fin 0 _ => S754_zero false
  | Fin (Zpos m) e => S754_finite false m e
  | Fin (Zneg m) e => S754_finite true m e
  | Inf s => S754_infinity s
  | NaN => S754_nan
  end.

Definition spec_of_int (a : Z) : spec_float := binary_normalize 53 1024 a 0 false.

(** Equality of IEEE 754 numbers, zeros of either sign taken as one. *)
Definition spec_eqb (x y : spec_float) : bool :=
  match x, y with
  | S754_zero _, S754_zero _ => true
  | S754_infinity s, S754_infinity s' => Bool.eqb s s'
  | S754_nan, S754_nan => true
  | S754_finite s m e, S754_finite s' m' e' =>
      Bool.eqb s s' && Pos.eqb m m' && Z.eqb e e'
  | _, _ => false
  end.

(** [a / b] and [b * (a / b)] computed here and by the Standard Library's
    binary64 operations give the same number. *)
Definition agrees_with_ieee (a b : Z) : bool :=
  match int_truediv a b with
  | Ok q =>
      spec_eqb (SFdiv 53 1024 (spec_of_int a) (spec_of_int b)) (to_spec q) &&
      match int_mul_float b q with
      | Ok p => spec_eqb (SFmul 53 1024 (spec_of_int b) (to_spec q)) (to_spec p)
      | Raise _ => false
      end
  | Raise _ => false
  end.

(** [n] pairs of sides in [1 .. 2^25], drawn by a linear congruential
    generator. *)
Fixpoint lcg_pairs (seed : Z) (n : nat) : list (Z * Z) :=
  match n with
  | O => []
  | S n' =>
      let s1 := (seed * 6364136223846793005 + 1442695040888963407) mod 2 ^ 64 in
      let s2 := (s1 * 6364136223846793005 + 1442695040888963407) mod 2 ^ 64 in
      (s1 / 2 ^ 39 + 1, s2 / 2 ^ 39 + 1) :: lcg_pairs s2 n'
  end.

(** The integers [lo, lo + 1, ..., lo + n - 1]. *)
Fixpoint zrange (lo : Z) (n : nat) : list Z :=
  match n with
  | O => []
  | S n' => lo :: zrange (lo + 1) n'
  end.

End PyFloat.
Export PyFloat.

(* ================================================================== *)
(** ** Python strings

    Text is kept as a string of ASCII characters. *)

Module PyStr.

Definition lower_char (c : ascii) : ascii :=
  let n := nat_of_ascii c in
  if (65 <=? n)%nat && (n <=? 90)%nat then ascii_of_nat (n + 32) else c.

(** [s.lower()] *)
Fixpoint lower (s : string) : string :=
  match s with
  | EmptyString => EmptyString
  | String c s' => String (lower_char c) (lower s')
  end.

(** The characters [str.strip()] removes. *)
Definition is_space (c : ascii) : bool :=
  let n := nat_of_ascii c in
  ((9 <=? n)%nat && (n <=? 13)%nat) ||
  ((28 <=? n)%nat && (n <=? 32)%nat).

Fixpoint lstrip (s : string) : string :=
  match s with
  | EmptyString => EmptyString
  | String c s' => if is_space c then lstrip s' else s
  end.

Fixpoint rstrip (s : string) : string :=
  match s with
  | EmptyString => EmptyString
  | String c s' =>
      match rstrip s' with
      | EmptyString => if is_space c then EmptyString else String c EmptyString
      | t => String c t
      end
  end.

(** [s.strip()] *)
Definition strip (s : string) : string := rstrip (lstrip s).

(** [s.endswith(suffix)] *)
Definition endswith (s suffix : string) : bool :=
  let n := String.length s in
  let k := String.length suffix in
  (k <=? n)%nat && String.eqb (substring (n - k) k s) suffix.

(** [s.endswith((x, y, ...))] *)
Definition endswith_any (s : string) (suffixes : list string) : bool :=
  existsb (endswith s) suffixes.

(** [s[:n]] *)
Definition take (n : nat) (s : string) : string := substring 0 n s.

End PyStr.

(* ================================================================== *)
(** ** Pillow

    An image carries its size and mode, whether its pixel data can be
    decoded ([Image.open] is lazy: a damaged file is only noticed by the
    first operation that loads the pixels), and a description of how its
    pixels were obtained. *)

Module PIL.

Inductive pixels : Type :=
| Decoded (name : string)
| Fill (color : list Z)
| Converted (to : string) (p : pixels)
| Resampled (p : pixels) (w h : Z)
| Pasted (dst src : pixels) (x y : Z)
| PastedMasked (dst src : pixels) (x y : Z) (mask : pixels)
| AlphaOver (dst src : pixels)
| Band (p : pixels) (i : nat).

Record image : Type := mkImage {
  width : Z;
  height : Z;
  mode : string;
  intact : bool;
  pix : pixels
}.

(** [im.size] *)
Definition size (im : image) : Z * Z := (width im, height im).

(** What the library finds outside the program: the files it can open and
    the mode conversions it supports. *)
Record env : Type := mkEnv {
  files : string -> result image;
  convertible : string -> string -> bool
}.

(** [Image.open(path)] *)
Definition open (E : env) (path : string) : result image := files E path.

(** [im.load()]: decoding the pixel data. *)
Definition load (im : image) : result unit :=
  if intact im then Ok tt else Raise OSError.

(** [im.convert(m)] *)
Definition convert (E : env) (im : image) (m : string) : result image :=
  _ <- load im ;;
  if String.eqb (mode im) m then Ok im
  else if convertible E (mode im) m
  then Ok (mkImage (width im) (height im) m true (Converted m (pix im)))
  else Raise ValueError.

(** [Image.new(m, (w, h), color)] *)
Definition new (m : string) (sz : Z * Z) (color : list Z) : result image :=
  let '(w, h) := sz in
  if (w <? 0) || (h <? 0) then Raise ValueError
  else Ok (mkImage w h m true (Fill color)).

(** [im.resize((w, h), Image.Resampling.LANCZOS)]: a request for the
    image's own size returns a copy, and a side below one pixel is
    refused. *)
Definition resize (im : image) (sz : Z * Z) : result image :=
  let '(w, h) := sz in
  _ <- load im ;;
  if (w =? width im) && (h =? height im) then Ok im
  else if (w <? 1) || (h <? 1) then Raise ValueError
  else Ok (mkImage w h (mode im) true (Resampled (pix im) w h)).

(** [dst.paste(src, (x, y), mask)]: the source is converted to the
    destination's mode when the two differ, a mask must have the source's
    size, and what falls outside the destination is clipped.  Python
    updates [dst] in place; here the updated image is returned. *)
Definition paste (E : env) (dst src : image) (at_ : Z * Z) (mask : option image)
  : result image :=
  let '(x, y) := at_ in
  _ <- load src ;;
  src' <- (if String.eqb (mode dst) (mode src) then Ok src
           else if String.eqb (mode dst) "RGB" &&
                   existsb (String.eqb (mode src)) ["LA"; "RGBA"; "RGBa"]
           then Ok src
           else convert E src (mode dst)) ;;
  match mask with
  | None =>
      Ok (mkImage (width dst) (height dst) (mode dst) true
                  (Pasted (pix dst) (pix src') x y))
  | Some mk =>
      _ <- load mk ;;
      if (width mk =? width src) && (height mk =? height src)
      then Ok (mkImage (width dst) (height dst) (mode dst) true
                       (PastedMasked (pix dst) (pix src') x y (pix mk)))
      else Raise ValueError
  end.

(** [Image.alpha_composite(im1, im2)]: both RGBA and of one size. *)
Definition alpha_composite (im1 im2 : image) : result image :=
  _ <- load im1 ;;
  _ <- load im2 ;;
  if String.eqb (mode im1) "RGBA" && String.eqb (mode im2) "RGBA" &&
     (width im1 =? width im2) && (height im1 =? height im2)
  then Ok (mkImage (width im1) (height im1) "RGBA" true
                   (AlphaOver (pix im1) (pix im2)))
  else Raise ValueError.

(** The number of bands of a mode. *)
Definition bands (m : string) : nat :=
  if existsb (String.eqb m) ["RGBA"; "CMYK"; "RGBX"; "RGBa"] then 4
  else if existsb (String.eqb m) ["RGB"; "YCbCr"; "LAB"; "HSV"] then 3
  else if existsb (String.eqb m) ["LA"; "PA"; "La"] then 2
  else 1.

(** [im.split()[-1]]: the last band, as a single-band image. *)
Definition last_band (im : image) : result image :=
  _ <- load im ;;
  Ok (mkImage (width im) (height im) "L" true
              (Band (pix im) (Nat.pred (bands (mode im))))).

(** The largest side the WebP format holds (libwebp's
    [WEBP_MAX_DIMENSION]). *)
Definition WEBP_MAX_DIMENSION : Z := 16383.

(** The sizes the WebP encoder takes: 1 to 16383 pixels a side. *)
Definition webp_fits (im : image) : bool :=
  (1 <=? width im) && (width im <=? WEBP_MAX_DIMENSION) &&
  (1 <=? height im) && (height im <=? WEBP_MAX_DIMENSION).

End PIL.

(* ================================================================== *)
(** ** The handler's surroundings *)

Module Web.

(** A value of a JSON object built by the handler.  [JFormat p e] is the
    f-string [f'{p}{str(e)}']. *)
Inductive jvalue : Type :=
| JBool (b : bool)
| JStr (s : string)
| JFormat (prefix : string) (e : exn).

Inductive body : Type :=
| Empty
| Json (fields : list (string * jvalue)).

(** The triple [(body, status, headers)] a handler returns. *)
Record response : Type := mkResponse {
  resp_body : body;
  status : Z;
  headers : list (string * string)
}.

(** An uploaded file: its client-side name and what [Image.open] makes of
    its content. *)
Record upload : Type := mkUpload {
  filename : string;
  content : result PIL.image
}.

Record request : Type := mkRequest {
  method : string;
  req_files : list (string * upload)
}.

(** [key in d] and [d[key]] on a multi-dict: the first value wins. *)
Fixpoint lookup {A : Type} (key : string) (d : list (string * A)) : option A :=
  match d with
  | [] => None
  | (k, v) :: d' => if String.eqb k key then Some v else lookup key d'
  end.

(** An object of the bucket: how it was encoded and from which image. *)
Record blob : Type := mkBlob {
  blob_format : string;
  blob_quality : Z;
  blob_optimize : bool;
  blob_image : PIL.image;
  blob_public : bool
}.

(** The steps of a publication that the infrastructure can fail. *)
Inductive storage_step : Type :=
| TempFile | Encode | Upload | MakePublic | Unlink.

(** The collaborators of one request: Pillow's surroundings, the remote
    model (the text of its response, or the error of the call), the clock
    reading already formatted, the random UUID in its string form, the
    faults of the storage path, the modes other than RGB and RGBA that the
    installed WebP encoder takes (it converts some), the exception it
    raises for an image it refuses (its class depends on the version of
    Pillow), and the URL the bucket gives a key. *)
Record services : Type := mkServices {
  pil : PIL.env;
  gemini : PIL.image -> result string;
  now : string;
  uuid4 : string;
  storage_fault : storage_step -> option exn;
  encoder_takes : string -> bool;
  encoder_error : PIL.image -> exn;
  public_url : string -> string
}.

(** What a request does that can be observed from outside. *)
Inductive event : Type :=
| Classified (im : PIL.image)
| Composited (im : PIL.image) (frame_path : string)
| Stored (key : string).

Record world : Type := mkWorld {
  bucket : list (string * blob);
  trace : list event
}.

(** Code that runs in a world and may raise. *)
Definition action (A : Type) : Type := world -> result A * world.

Definition ret {A : Type} (a : A) : action A := fun w => (Ok a, w).

Definition raise {A : Type} (e : exn) : action A := fun w => (Raise e, w).

Definition lift {A : Type} (c : result A) : action A := fun w => (c, w).

Definition abind {A B : Type} (c : action A) (k : A -> action B) : action B :=
  fun w =>
    match c w with
    | (Ok a, w') => k a w'
    | (Raise e, w') => (Raise e, w')
    end.

(** [try: c  except Exception as e: h e]; what [c] did before it raised
    stays done. *)
Definition catch {A : Type} (c : action A) (h : exn -> action A) : action A :=
  fun w =>
    match c w with
    | (Ok a, w') => (Ok a, w')
    | (Raise e, w') => h e w'
    end.

Definition log (ev : event) : action unit :=
  fun w => (Ok tt, mkWorld (bucket w) (trace w ++ [ev])).

Definition fault (S : services) (st : storage_step) : action unit :=
  match storage_fault S st with
  | Some e => raise e
  | None => ret tt
  end.

(** What the WebP encoder of [im.save(path, 'WEBP', ...)] encodes: an image
    of 1 to 16383 pixels a side, in mode RGB or RGBA or in a mode the
    installed encoder takes. *)
Definition webp_accepts (S : services) (im : PIL.image) : bool :=
  PIL.webp_fits im &&
  (String.eqb (PIL.mode im) "RGB" || String.eqb (PIL.mode im) "RGBA" ||
   encoder_takes S (PIL.mode im)).

(** Writing an object replaces the one of the same name. *)
Definition put_blob (key : string) (b : blob) : action unit :=
  fun w =>
    (Ok tt,
     mkWorld ((key, b) :: filter (fun kb : string * blob => negb (String.eqb (fst kb) key))
                                 (bucket w))
             (trace w)).

Definition publish_blob (key : string) : action unit :=
  fun w =>
    (Ok tt,
     mkWorld (map (fun kb : string * blob =>
                if String.eqb (fst kb) key
                then (fst kb, mkBlob (blob_format (snd kb)) (blob_quality (snd kb))
                                     (blob_optimize (snd kb)) (blob_image (snd kb)) true)
                else kb) (bucket w))
             (trace w)).

End Web.

Declare Scope action_scope.
Delimit Scope action_scope with action.
Notation "x <~ c ;; k" := (Web.abind c (fun x => k))
  (at level 61, c at next level, right associativity) : action_scope.
Open Scope action_scope.

(* ================================================================== *)
(** ** backend/main.py *)

Module Main.
Import PIL Web.

(** [resize_image_to_fit(image, target_width, target_height)] *)
Definition resize_image_to_fit (image : PIL.image) (target_width target_height : Z)
  : result PIL.image :=
  let '(original_width, original_height) := size image in
  width_ratio <- int_truediv target_width original_width ;;
  height_ratio <- int_truediv target_height original_height ;;
  let scale_ratio := py_min width_ratio height_ratio in
  new_width <- (p <- int_mul_float original_width scale_ratio ;; int_of_float p) ;;
  new_height <- (p <- int_mul_float original_height scale_ratio ;; int_of_float p) ;;
  resized_image <- resize image (new_width, new_height) ;;
  Ok resized_image.

Definition white_rgba : list Z := [255; 255; 255; 255].
Definition white_rgb : list Z := [255; 255; 255].

(** The [try] block of [create_framed_image]. *)
Definition compose (E : env) (user_image : PIL.image) (frame_path : string)
  : result PIL.image :=
  frame <- open E frame_path ;;
  frame <- (if negb (String.eqb (mode frame) "RGBA")
            then convert E frame "RGBA" else Ok frame) ;;
  let '(frame_width, frame_height) := size frame in
  let padding := 50 in
  let target_width := frame_width - 2 * padding in
  let target_height := frame_height - 2 * padding in
  user_image_resized <- resize_image_to_fit user_image target_width target_height ;;
  result <- new "RGBA" (frame_width, frame_height) white_rgba ;;
  let '(user_width, user_height) := size user_image_resized in
  let x_offset := (frame_width - user_width) / 2 in
  let y_offset := (frame_height - user_height) / 2 in
  result <- paste E result user_image_resized (x_offset, y_offset) None ;;
  result <- alpha_composite result frame ;;
  final_result <- new "RGB" (size result) white_rgb ;;
  mask <- (if String.eqb (mode result) "RGBA"
           then (b <- last_band result ;; Ok (Some b)) else Ok None) ;;
  final_result <- paste E final_result result (0, 0) mask ;;
  Ok final_result.

(** [create_framed_image(user_image, frame_path)] *)
Definition create_framed_image (E : env) (user_image : PIL.image) (frame_path : string)
  : PIL.image :=
  try_except (compose E user_image frame_path) (fun _ => user_image).

(** [analyze_image_with_gemini(image)]; [remote] is the call to the model
    followed by the read of [response.text]. *)
Definition analyze_image_with_gemini (remote : PIL.image -> result string)
  (image : PIL.image) : string :=
  try_except
    (text <- remote image ;;
     Ok (PyStr.lower (PyStr.strip text)))
    (fun _ => "no").

(** [upload_to_gcs(image, filename)].  [image.save(path, 'WEBP', ...)]
    decodes the pixels, encodes them, which the encoder refuses for an image
    it does not accept, and writes the bytes; [Encode] is the fault of that
    write. *)
Definition upload_to_gcs (S : services) (image : PIL.image) (filename : string)
  : action string :=
  catch
    (_ <~ fault S TempFile ;;
     _ <~ lift (load image) ;;
     _ <~ (if webp_accepts S image then ret tt else raise (encoder_error S image)) ;;
     _ <~ fault S Encode ;;
     let encoded := mkBlob "WEBP" 85 true image false in
     _ <~ fault S Upload ;;
     _ <~ log (Stored filename) ;;
     _ <~ put_blob filename encoded ;;
     _ <~ fault S MakePublic ;;
     _ <~ publish_blob filename ;;
     _ <~ fault S Unlink ;;
     ret (public_url S filename))
    (fun e => raise e).

Definition cors_preflight_headers : list (string * string) :=
  [("Access-Control-Allow-Origin", "*");
   ("Access-Control-Allow-Methods", "POST");
   ("Access-Control-Allow-Headers", "Content-Type");
   ("Access-Control-Max-Age", "3600")].

Definition json_headers : list (string * string) :=
  [("Access-Control-Allow-Origin", "*");
   ("Content-Type", "application/json")].

Definition error_response (msg : jvalue) (code : Z) : response :=
  mkResponse (Json [("success", JBool false); ("error", msg)]) code json_headers.

(** The choice of the frame in [process_photo]: [(frame_path, frame_type)]. *)
Definition select_frame (analysis_result : string) : string * string :=
  if String.eqb analysis_result "yes" then ("yes.png", "yes") else ("no.png", "no").

(** The storage key built in [process_photo]. *)
Definition storage_key (timestamp unique_id frame_type : string) : string :=
  "framed_photos/" ++ timestamp ++ "_" ++ unique_id ++ "_" ++ frame_type ++ ".webp".

(** [process_photo(request)] *)
Definition process_photo (S : services) (request : Web.request) : action response :=
  if String.eqb (method request) "OPTIONS"
  then ret (mkResponse Empty 204 cors_preflight_headers)
  else
    catch
      (if negb (String.eqb (method request) "POST")
       then ret (error_response (JStr "Only POST method is allowed") 405)
       else
         match lookup "photo" (req_files request) with
         | None => ret (error_response (JStr "No photo file provided") 400)
         | Some photo_file =>
             if negb (PyStr.endswith_any (PyStr.lower (filename photo_file))
                                         [".jpg"; ".jpeg"; ".png"])
             then ret (error_response
                         (JStr "Invalid file type. Only JPG, JPEG, and PNG are allowed") 400)
             else
               image <~ lift (content photo_file) ;;
               image <~ lift (if negb (String.eqb (mode image) "RGB")
                              then convert (pil S) image "RGB" else Ok image) ;;
               _ <~ log (Classified image) ;;
               let analysis_result := analyze_image_with_gemini (gemini S) image in
               let '(frame_path, frame_type) := select_frame analysis_result in
               _ <~ log (Composited image frame_path) ;;
               let framed_image := create_framed_image (pil S) image frame_path in
               let timestamp := now S in
               let unique_id := PyStr.take 8 (uuid4 S) in
               let filename := storage_key timestamp unique_id frame_type in
               image_url <~ upload_to_gcs S framed_image filename ;;
               ret (mkResponse
                      (Json [("success", JBool true);
                             ("imageUrl", JStr image_url);
                             ("frameStyle", JStr frame_type);
                             ("analysisResult", JStr analysis_result);
                             ("message", JStr ("Photo processed successfully with "
                                               ++ frame_type ++ " frame"))])
                      200 json_headers)
         end)
      (fun e => ret (error_response (JFormat "Internal server error: " e) 500)).

End Main.

(* ================================================================== *)
(** ** backend/test_local.py *)

Module TestLocal.
Import PIL.

(** [resize_image_to_fit(image, target_width, target_height)] *)
Definition resize_image_to_fit (image : PIL.image) (target_width target_height : Z)
  : result PIL.image :=
  let '(original_width, original_height) := size image in
  width_ratio <- int_truediv target_width original_width ;;
  height_ratio <- int_truediv target_height original_height ;;
  let scale_ratio := py_min width_ratio height_ratio in
  new_width <- (p <- int_mul_float original_width scale_ratio ;; int_of_float p) ;;
  new_height <- (p <- int_mul_float original_height scale_ratio ;; int_of_float p) ;;
  resized_image <- resize image (new_width, new_height) ;;
  Ok resized_image.

(** [create_framed_image(user_image, frame_path)] *)
Definition create_framed_image (E : env) (user_image : PIL.image) (frame_path : string)
  : PIL.image :=
  try_except
    (frame <- open E frame_path ;;
     frame <- (if negb (String.eqb (mode frame) "RGBA")
               then convert E frame "RGBA" else Ok frame) ;;
     let '(frame_width, frame_height) := size frame in
     let padding := 50 in
     let target_width := frame_width - 2 * padding in
     let target_height := frame_height - 2 * padding in
     user_image_resized <- resize_image_to_fit user_image target_width target_height ;;
     result <- new "RGBA" (frame_width, frame_height) [255; 255; 255; 255] ;;
     let '(user_width, user_height) := size user_image_resized in
     let x_offset := (frame_width - user_width) / 2 in
     let y_offset := (frame_height - user_height) / 2 in
     result <- paste E result user_image_resized (x_offset, y_offset) None ;;
     result <- alpha_composite result frame ;;
     final_result <- new "RGB" (size result) [255; 255; 255] ;;
     mask <- (if String.eqb (mode result) "RGBA"
              then (b <- last_band result ;; Ok (Some b)) else Ok None) ;;
     final_result <- paste E final_result result (0, 0) mask ;;
     Ok final_result)
    (fun _ => user_image).

(** What a run of the harness finds outside: Pillow's surroundings, the
    call to the model followed by the read of [response.text], and the
    faults of writing an image under a name. *)
Record harness : Type := mkHarness {
  h_pil : env;
  h_remote : PIL.image -> result string;
  h_save_fault : string -> PIL.image -> option exn
}.

(** The image files written so far, the latest first. *)
Definition files : Type := list (string * PIL.image).

(** [im.save(name)]: the pixels are decoded and the file of that name is
    replaced. *)
Definition save (H : harness) (im : PIL.image) (name : string) (fs : files)
  : result files :=
  _ <- load im ;;
  match h_save_fault H name im with
  | Some e => Raise e
  | None =>
      Ok ((name, im) ::
          filter (fun f : string * PIL.image => negb (String.eqb (fst f) name)) fs)
  end.

(** The [try] block of [test_gemini_analysis]: the local variable [image]
    as the block leaves it ([None] when it was never assigned), and
    [analyze_result]. *)
Definition analysis (H : harness) (image_path : string)
  : option PIL.image * string :=
  match open (h_pil H) image_path with
  | Raise _ => (None, "no")
  | Ok image =>
      match (if negb (String.eqb (mode image) "RGB")
             then convert (h_pil H) image "RGB" else Ok image) with
      | Raise _ => (Some image, "no")
      | Ok image =>
          match h_remote H image with
          | Raise _ => (Some image, "no")
          | Ok text => (Some image, PyStr.lower (PyStr.strip text))
          end
      end
  end.

(** Reading a local variable that was never assigned. *)
Definition read_local {A : Type} (v : option A) : result A :=
  match v with
  | Some a => Ok a
  | None => Raise (OtherError "UnboundLocalError")
  end.

(** [test_gemini_analysis(image_path)] *)
Definition test_gemini_analysis (H : harness) (image_path : string) (fs : files)
  : result files :=
  let '(image, analyze_result) := analysis H image_path in
  if String.eqb analyze_result "yes"
  then
    image <- read_local image ;;
    let result_image := create_framed_image (h_pil H) image "yes.png" in
    save H result_image "test_yes.png" fs
  else
    image <- read_local image ;;
    let result_image := create_framed_image (h_pil H) image "no.png" in
    save H result_image "test_no.png" fs.

End TestLocal.

(* ================================================================== *)
(** ** The vocabulary of the statements *)

Module Sem.
Import PIL.

(** The real number a float stands for. *)
Definition F2R (x : float) : R :=
  match x with
  | Fin m e => (IZR m * powerRZ 2 e)%R
  | _ => 0%R
  end.

(** A finite float above zero. *)
Definition posfin (x : float) : Prop :=
  exists m e, x = Fin m e /\ 0 < m.

(** Half a unit in the last place, relative to the value. *)
Definition ulp53 : R := powerRZ 2 (-53).

(** Lines 72-83 of [resize_image_to_fit]: the size asked of [resize]. *)
Definition new_size (original_width original_height target_width target_height : Z)
  : result (Z * Z) :=
  width_ratio <- int_truediv target_width original_width ;;
  height_ratio <- int_truediv target_height original_height ;;
  let scale_ratio := py_min width_ratio height_ratio in
  new_width <- (p <- int_mul_float original_width scale_ratio ;; int_of_float p) ;;
  new_height <- (p <- int_mul_float original_height scale_ratio ;; int_of_float p) ;;
  Ok (new_width, new_height).

(** The sides the analysis of the rounding covers: [1 .. 2^25 - 1]. *)
Definition side_ok (z : Z) : Prop := 0 < z < 2 ^ 25.

(** The exact scale [min (tw / ow) (th / oh)], as a real number. *)
Definition exact_scale (ow oh tw th : Z) : R :=
  Rmin (IZR tw / IZR ow) (IZR th / IZR oh).

(** The exactly scaled sides, floored, in integer arithmetic: the scale is
    [tw / ow] when [tw / ow <= th / oh] and [th / oh] otherwise. *)
Definition exact_size (ow oh tw th : Z) : Z * Z :=
  if tw * oh <=? th * ow
  then ((ow * tw) / ow, (oh * tw) / ow)
  else ((ow * th) / oh, (oh * th) / oh).

(** A string of nothing but the characters [str.strip()] removes. *)
Fixpoint all_space (s : string) : bool :=
  match s with
  | EmptyString => true
  | String c s' => PyStr.is_space c && all_space s'
  end.

(** A finite float that is zero or below. *)
Definition nonpositive (x : float) : Prop :=
  exists m e, x = Fin m e /\ m <= 0.

(** No space in front. *)
Definition headed (s : string) : Prop :=
  match s with
  | EmptyString => True
  | String c _ => PyStr.is_space c = false
  end.

(** The upload as [process_photo] classifies and frames it: in RGB. *)
Definition rgb_image (E : env) (image : image) : result PIL.image :=
  if negb (String.eqb (mode image) "RGB") then convert E image "RGB" else Ok image.

(** The frame as [compose] uses it: with an alpha channel. *)
Definition rgba_frame (E : env) (frame : image) : result image :=
  if negb (String.eqb (mode frame) "RGBA") then convert E frame "RGBA" else Ok frame.

End Sem.
Export Sem.

(* ================================================================== *)
(** ** The specification's resizer, in its own words

    Section 4.1: [rw = W / srcWidth], [rh = H / srcHeight],
    [scale = min(rw, rh)], new dimensions [floor(srcWidth * scale)] and
    [floor(srcHeight * scale)], here over the rationals. *)

Module Spec.

Definition spec_scale (srcWidth srcHeight W H : Z) : Q :=
  Qmin (inject_Z W / inject_Z srcWidth) (inject_Z H / inject_Z srcHeight).

Definition spec_size (srcWidth srcHeight W H : Z) : Z * Z :=
  let scale := spec_scale srcWidth srcHeight W H in
  (Qfloor (inject_Z srcWidth * scale), Qfloor (inject_Z srcHeight * scale)).

(** Section 8: the aspect ratio is kept up to the floor applied to each
    side, that is, one scale [t] gives both sides: [outW = floor(srcW * t)]
    and [outH = floor(srcH * t)].  Such a [t] exists when the two ranges of
    scales [[outW / srcW, (outW + 1) / srcW)] and
    [[outH / srcH, (outH + 1) / srcH)] meet. *)
Definition ratio_up_to_floor (srcW srcH outW outH : Z) : Prop :=
  outW * srcH < (outH + 1) * srcW /\ outH * srcW < (outW + 1) * srcH.

(** Section 4.1 on the code: the resizer returns an image of the
    specification's size. *)
Definition resizer_returns_spec_size (im : PIL.image) (W H : Z) : Prop :=
  exists out,
    Main.resize_image_to_fit im W H = Ok out /\
    PIL.size out = spec_size (PIL.width im) (PIL.height im) W H.

(** Section 4.1 on the code: with no cap on the scale, a source smaller
    than the box comes back larger. *)
Definition resizer_enlarges_smaller_source (im : PIL.image) (W H : Z) : Prop :=
  PIL.width im < W -> PIL.height im < H ->
  exists out,
    Main.resize_image_to_fit im W H = Ok out /\
    (PIL.width im < PIL.width out \/ PIL.height im < PIL.height out).

(** Section 8 on the code: what the resizer returns fits the box on one
    side at least and keeps the aspect ratio up to the floors. *)
Definition resizer_keeps_ratio_up_to_floor (im : PIL.image) (W H : Z) : Prop :=
  forall out,
    Main.resize_image_to_fit im W H = Ok out ->
    ((spec_scale (PIL.width im) (PIL.height im) W H <= 1)%Q ->
     PIL.width out <= W \/ PIL.height out <= H) /\
    ratio_up_to_floor (PIL.width im) (PIL.height im) (PIL.width out) (PIL.height out).

(** Sections 3 and 8: the composite has the size of the frame that was
    loaded, whatever the source. *)
Definition composite_has_frame_size (E : PIL.env) (user_image : PIL.image)
  (frame_path : string) : Prop :=
  forall frame,
    PIL.open E frame_path = Ok frame ->
    PIL.size (Main.create_framed_image E user_image frame_path) = PIL.size frame.

(** Section 4.1: a degenerate source fails with an [InvalidImage] error. *)
Definition fails_with_InvalidImage {A : Type} (c : result A) : Prop :=
  exists e, c = Raise e /\ exn_class e = "InvalidImage".

End Spec.

(* ================================================================== *)
(** ** The vocabulary of the handler's statements *)

Module HandlerWords.
Import PIL Web.

(** The file names the handler lets through. *)
Definition extensions : list string := [".jpg"; ".jpeg"; ".png"].

(** The request passes the three checks of [process_photo]: [photo_file]
    is its upload. *)
Definition accepted (request : Web.request) (photo_file : upload) : Prop :=
  method request = "POST" /\
  lookup "photo" (req_files request) = Some photo_file /\
  PyStr.endswith_any (PyStr.lower (filename photo_file)) extensions = true.

(** No step of a publication is failed by the infrastructure. *)
Definition storage_works (S : services) : Prop :=
  forall st, storage_fault S st = None.

(** The body of a 200 response. *)
Definition success_body (image_url frame_type analysis_result : string) : body :=
  Json [("success", JBool true);
        ("imageUrl", JStr image_url);
        ("frameStyle", JStr frame_type);
        ("analysisResult", JStr analysis_result);
        ("message", JStr ("Photo processed successfully with " ++ frame_type ++ " frame"))].

(** The object a publication writes. *)
Definition webp_blob (im : PIL.image) (public : bool) : blob :=
  mkBlob "WEBP" 85 true im public.

(** The world after the object was written, private, and after it was made
    public. *)
Definition written (im : PIL.image) (key : string) (w : world) : world :=
  mkWorld ((key, webp_blob im false)
           :: filter (fun kb : string * blob => negb (String.eqb (fst kb) key)) (bucket w))
          (trace w ++ [Stored key]).

Definition published (im : PIL.image) (key : string) (w : world) : world :=
  mkWorld ((key, webp_blob im true)
           :: filter (fun kb : string * blob => negb (String.eqb (fst kb) key)) (bucket w))
          (trace w ++ [Stored key]).

(** The 500 response that reports [e]. *)
Definition internal_error (e : exn) : response :=
  Main.error_response (JFormat "Internal server error: " e) 500.

(** The world once the upload was classified and framed. *)
Definition processed (image : PIL.image) (frame_path : string) (w : world) : world :=
  mkWorld (bucket w) ((trace w ++ [Classified image]) ++ [Composited image frame_path]).

(** Section 4.2, failure semantics, on the code: when the composition of
    the request's image fails, the request still succeeds. *)
Definition fallback_request_succeeds (S : services) (request : Web.request) (w : world)
  : Prop :=
  forall photo_file image0 image,
    accepted request photo_file ->
    content photo_file = Ok image0 ->
    Sem.rgb_image (pil S) image0 = Ok image ->
    (exists e,
       Main.compose (pil S) image
         (fst (Main.select_frame (Main.analyze_image_with_gemini (gemini S) image)))
       = Raise e) ->
    exists resp w', Main.process_photo S request w = (Ok resp, w') /\ status resp = 200.

End HandlerWords.

(* ================================================================== *)
(** ** Sample runs *)

Module Samples.
Import PIL Web.

Definition photo (w h : Z) : PIL.image := mkImage w h "RGB" true (Decoded "upload").
Definition frame_asset (w h : Z) : PIL.image := mkImage w h "RGBA" true (Decoded "frame").

(** A deployment with two 1080 x 1080 frames. *)
Definition bundle : PIL.env :=
  mkEnv (fun path =>
           if String.eqb path "yes.png" then Ok (frame_asset 1080 1080)
           else if String.eqb path "no.png" then Ok (frame_asset 1080 1080)
           else Raise FileNotFoundError)
        (fun _ _ => true).

(** A run of the handler: a POST of a 2000 x 1000 photo the model calls a
    software issue. *)
Definition sample_services : services :=
  mkServices bundle (fun _ => Ok " Yes ") "20240101_120000"
             "123e4567-e89b-12d3-a456-426614174000" (fun _ => None)
             (fun _ => false) (fun _ => ValueError)
             (fun key => "https://storage.googleapis.com/photo-frame-bucket/" ++ key).

Definition sample_request : request :=
  mkRequest "POST" [("photo", mkUpload "Screenshot.PNG" (Ok (photo 2000 1000)))].

(** An upload cut short: its header reads, its pixels do not decode. *)
Definition truncated_photo : PIL.image :=
  mkImage 2000 1000 "RGB" false (Decoded "upload").

Definition truncated_request : request :=
  mkRequest "POST" [("photo", mkUpload "Screenshot.PNG" (Ok truncated_photo))].

Definition sample_composite : PIL.image :=
  Eval vm_compute in Main.create_framed_image bundle (photo 2000 1000) "yes.png".

Definition sample_response : response :=
  Eval vm_compute in
    match fst (Main.process_photo sample_services sample_request (mkWorld [] [])) with
    | Ok r => r
    | Raise _ => mkResponse Empty 0 []
    end.

Definition sample_world : world :=
  Eval vm_compute in
    snd (Main.process_photo sample_services sample_request (mkWorld [] [])).

(** The same deployment when the bucket refuses to make objects public. *)
Definition failing_services : services :=
  mkServices bundle (fun _ => Ok " Yes ") "20240101_120000"
             "123e4567-e89b-12d3-a456-426614174000"
             (fun st => match st with
                        | MakePublic => Some (OtherError "Forbidden")
                        | _ => None
                        end)
             (fun _ => false) (fun _ => ValueError)
             (fun key => "https://storage.googleapis.com/photo-frame-bucket/" ++ key).

Definition failed_response : response :=
  Eval vm_compute in
    match fst (Main.process_photo failing_services sample_request (mkWorld [] [])) with
    | Ok r => r
    | Raise _ => mkResponse Empty 0 []
    end.

Definition failed_world : world :=
  Eval vm_compute in
    snd (Main.process_photo failing_services sample_request (mkWorld [] [])).

(** A deployment without its frames and without the model. *)
Definition offline_services : services :=
  mkServices (mkEnv (fun _ => Raise FileNotFoundError) (fun _ _ => true))
             (fun _ => Raise (OtherError "DeadlineExceeded")) "20240101_120000"
             "123e4567-e89b-12d3-a456-426614174000" (fun _ => None)
             (fun _ => false) (fun _ => ValueError)
             (fun key => "https://storage.googleapis.com/photo-frame-bucket/" ++ key).

(** A working directory of the harness: the two frames and a photo. *)
Definition desk : PIL.env :=
  mkEnv (fun path =>
           if String.eqb path "photo.jpg" then Ok (photo 2000 1000)
           else open bundle path)
        (fun _ _ => true).

Definition sample_harness : TestLocal.harness :=
  TestLocal.mkHarness desk (fun _ => Ok "yes") (fun _ _ => None).

Definition sample_files : TestLocal.files :=
  Eval vm_compute in
    match TestLocal.test_gemini_analysis sample_harness "photo.jpg" [] with
    | Ok fs => fs
    | Raise _ => []
    end.

(** The handler beside that directory. *)
Definition desk_services : services :=
  mkServices desk (fun _ => Ok " Yes ") "20240101_120000"
             "123e4567-e89b-12d3-a456-426614174000" (fun _ => None)
             (fun _ => false) (fun _ => ValueError)
             (fun key => "https://storage.googleapis.com/photo-frame-bucket/" ++ key).

Definition desk_response : response :=
  Eval vm_compute in
    match fst (Main.process_photo desk_services sample_request (mkWorld [] [])) with
    | Ok r => r
    | Raise _ => mkResponse Empty 0 []
    end.

Definition desk_world : world :=
  Eval vm_compute in
    snd (Main.process_photo desk_services sample_request (mkWorld [] [])).

End Samples.

(* ================================================================== *)
(** * Properties *)

(** ** Rounding to binary64 *)

Module FloatFacts.
Local Open Scope R_scope.

Lemma pow2_pos (e : Z) : 0 < powerRZ 2 e.
Proof. apply powerRZ_lt; lra. Qed.

Lemma pow2_add (a b : Z) : powerRZ 2 (a + b) = powerRZ 2 a * powerRZ 2 b.
Proof. apply powerRZ_add; lra. Qed.

Lemma pow2_neg (a : Z) : powerRZ 2 (- a) = / powerRZ 2 a.
Proof. apply powerRZ_neg'. Qed.

Lemma pow2_succ (a : Z) : powerRZ 2 (a + 1) = 2 * powerRZ 2 a.
Proof. rewrite pow2_add. simpl. lra. Qed.

Lemma pow2_IZR (k : Z) : (0 <= k)%Z -> IZR (2 ^ k) = powerRZ 2 k.
Proof.
  intros Hk. rewrite <- (Z2Nat.id k) by assumption.
  rewrite <- pow_IZR, <- pow_powerRZ. reflexivity.
Qed.

Lemma pow2_le (a b : Z) : (a <= b)%Z -> powerRZ 2 a <= powerRZ 2 b.
Proof.
  intros H. replace b with (a + (b - a))%Z by lia.
  rewrite pow2_add, <- (pow2_IZR (b - a)) by lia.
  assert (1 <= IZR (2 ^ (b - a))).
  { apply IZR_le. assert (0 < 2 ^ (b - a))%Z by (apply Z.pow_pos_nonneg; lia). lia. }
  pose proof (pow2_pos a). nra.
Qed.

Lemma pow2_lt_inv (a b : Z) : powerRZ 2 a < powerRZ 2 b -> (a < b)%Z.
Proof.
  intros H. destruct (Z_lt_le_dec a b) as [|Hle]; [assumption|].
  apply pow2_le in Hle. lra.
Qed.


Lemma frac_shift (n d a : Z) :
  (0 < d)%Z ->
  IZR (n * 2 ^ Z.max 0 (- a)) / IZR (d * 2 ^ Z.max 0 a)
  = IZR n / IZR d * powerRZ 2 (- a).
Proof.
  intros Hd. assert (Hd' : IZR d <> 0) by (apply not_0_IZR; lia).
  pose proof (pow2_pos a) as Ha.
  destruct (Z_le_dec 0 a) as [H|H].
  - rewrite (Z.max_l 0 (- a)), (Z.max_r 0 a) by lia.
    rewrite Z.pow_0_r, Z.mul_1_r, mult_IZR, pow2_IZR, pow2_neg by lia.
    field. split; lra.
  - rewrite (Z.max_r 0 (- a)), (Z.max_l 0 a) by lia.
    rewrite Z.pow_0_r, Z.mul_1_r, mult_IZR, pow2_IZR by lia.
    field. assumption.
Qed.

Lemma log2_bounds (n : Z) :
  (0 < n)%Z -> powerRZ 2 (Z.log2 n) <= IZR n < powerRZ 2 (Z.log2 n + 1).
Proof.
  intros Hn. destruct (Z.log2_spec n Hn) as [Hlo Hhi].
  pose proof (Z.log2_nonneg n).
  rewrite <- !pow2_IZR by lia. split; [apply IZR_le | apply IZR_lt]; lia.
Qed.

Lemma ilog2_frac_spec (n d : Z) :
  (0 < n)%Z -> (0 < d)%Z ->
  powerRZ 2 (ilog2_frac n d) <= IZR n / IZR d < powerRZ 2 (ilog2_frac n d + 1).
Proof.
  intros Hn Hd. unfold ilog2_frac.
  set (a := (Z.log2 n - Z.log2 d)%Z).
  pose proof (log2_bounds n Hn) as [Hn1 Hn2].
  pose proof (log2_bounds d Hd) as [Hd1 Hd2].
  assert (Hdpos : 0 < IZR d) by (apply IZR_lt; lia).
  assert (Hnpos : 0 < IZR n) by (apply IZR_lt; lia).
  pose proof (pow2_pos (Z.log2 d)) as Pd. pose proof (pow2_pos (Z.log2 n)) as Pn.
  pose proof (pow2_pos a) as Pa.
  assert (Ea : powerRZ 2 (Z.log2 n) = powerRZ 2 a * powerRZ 2 (Z.log2 d)).
  { rewrite <- pow2_add. f_equal. unfold a. lia. }
  rewrite !pow2_succ in *.
  assert (Hlo : powerRZ 2 a / 2 < IZR n / IZR d).
  { apply Rmult_lt_reg_r with (IZR d); [assumption|].
    unfold Rdiv at 2. rewrite Rmult_assoc, Rinv_l, Rmult_1_r by lra. nra. }
  assert (Hhi : IZR n / IZR d < 2 * powerRZ 2 a).
  { apply Rmult_lt_reg_r with (IZR d); [assumption|].
    unfold Rdiv. rewrite Rmult_assoc, Rinv_l, Rmult_1_r by lra. nra. }
  destruct (Z.ltb_spec (n * 2 ^ Z.max 0 (- a)) (d * 2 ^ Z.max 0 a)) as [Hc|Hc].
  - assert (Hq : IZR n / IZR d * powerRZ 2 (- a) < 1).
    { rewrite <- frac_shift by assumption.
      apply IZR_lt in Hc.
      assert (0 < IZR (d * 2 ^ Z.max 0 a)).
      { apply IZR_lt. apply Z.mul_pos_pos; [lia|]. apply Z.pow_pos_nonneg; lia. }
      apply Rmult_lt_reg_r with (IZR (d * 2 ^ Z.max 0 a)); [assumption|].
      unfold Rdiv. rewrite Rmult_assoc, Rinv_l, Rmult_1_r, Rmult_1_l by lra. assumption. }
    rewrite pow2_neg in Hq.
    assert (IZR n / IZR d < powerRZ 2 a).
    { apply Rmult_lt_reg_r with (/ powerRZ 2 a).
      - apply Rinv_0_lt_compat; assumption.
      - rewrite Rinv_r by lra. assumption. }
    assert (Ea' : powerRZ 2 a = 2 * powerRZ 2 (a - 1)).
    { rewrite <- pow2_succ. f_equal. lia. }
    lra.
  - assert (Hq : 1 <= IZR n / IZR d * powerRZ 2 (- a)).
    { rewrite <- frac_shift by assumption.
      apply IZR_le in Hc.
      assert (0 < IZR (d * 2 ^ Z.max 0 a)).
      { apply IZR_lt. apply Z.mul_pos_pos; [lia|]. apply Z.pow_pos_nonneg; lia. }
      apply Rmult_le_reg_r with (IZR (d * 2 ^ Z.max 0 a)); [assumption|].
      unfold Rdiv. rewrite Rmult_assoc, Rinv_l, Rmult_1_r, Rmult_1_l by lra. assumption. }
    rewrite pow2_neg in Hq.
    assert (powerRZ 2 a <= IZR n / IZR d).
    { apply Rmult_le_reg_r with (/ powerRZ 2 a).
      - apply Rinv_0_lt_compat; assumption.
      - rewrite Rinv_r by lra. assumption. }
    lra.
Qed.

Lemma rne_spec (N D : Z) :
  (0 <= N)%Z -> (0 < D)%Z ->
  - / 2 <= IZR (rne N D) - IZR N / IZR D <= / 2 /\ (N / D <= rne N D)%Z.
Proof.
  intros HN HD. unfold rne.
  pose proof (Z.div_mod N D ltac:(lia)) as Hdm.
  pose proof (Z.mod_pos_bound N D HD) as Hr.
  set (q := (N / D)%Z) in *. set (r := (N mod D)%Z) in *.
  assert (HDr : 0 < IZR D) by (apply IZR_lt; lia).
  assert (EN : IZR N / IZR D = IZR q + IZR r / IZR D).
  { rewrite Hdm, plus_IZR, mult_IZR. field. lra. }
  assert (Hr0 : 0 <= IZR r / IZR D).
  { apply Rmult_le_pos; [apply IZR_le; lia | left; apply Rinv_0_lt_compat; lra]. }
  assert (Hcases : forall c, (2 * r ?= D)%Z = c ->
            match c with
            | Lt => IZR r / IZR D < / 2
            | Eq => IZR r / IZR D = / 2
            | Gt => / 2 < IZR r / IZR D < 1
            end).
  { intros c Hc. destruct c.
    - apply Z.compare_eq in Hc. rewrite <- Hc, mult_IZR.
      assert (0 < IZR r) by (apply IZR_lt; lia). field. lra.
    - rewrite Z.compare_lt_iff in Hc. apply IZR_lt in Hc. rewrite mult_IZR in Hc.
      apply Rmult_lt_reg_r with (IZR D); [assumption|].
      unfold Rdiv. rewrite Rmult_assoc, Rinv_l, Rmult_1_r by lra. lra.
    - rewrite Z.compare_gt_iff in Hc. apply IZR_lt in Hc. rewrite mult_IZR in Hc.
      assert (IZR r < IZR D) by (apply IZR_lt; lia).
      split; apply Rmult_lt_reg_r with (IZR D); try assumption;
        unfold Rdiv; rewrite ?Rmult_assoc, ?Rinv_l, ?Rmult_1_r, ?Rmult_1_l by lra; lra. }
  specialize (Hcases _ eq_refl).
  destruct (2 * r ?= D)%Z; [destruct (Z.even q)|..];
    rewrite ?plus_IZR, EN; (split; [lra | lia]).
Qed.


Lemma IZR_round_frac_parts (n d e : Z) :
  (0 < n)%Z -> (0 < d)%Z ->
  (0 <= n * 2 ^ Z.max 0 (- e))%Z /\ (0 < d * 2 ^ Z.max 0 e)%Z.
Proof.
  intros Hn Hd.
  assert (0 < 2 ^ Z.max 0 (- e))%Z by (apply Z.pow_pos_nonneg; lia).
  assert (0 < 2 ^ Z.max 0 e)%Z by (apply Z.pow_pos_nonneg; lia).
  split; [apply Z.mul_nonneg_nonneg | apply Z.mul_pos_pos]; lia.
Qed.

(** [rne] is monotone against integers. *)
Lemma rne_int_bounds (N D K : Z) :
  (0 <= N)%Z -> (0 < D)%Z ->
  ((K * D <= N)%Z -> (K <= rne N D)%Z) /\ ((N <= K * D)%Z -> (rne N D <= K)%Z).
Proof.
  intros HN HD. unfold rne.
  pose proof (Z.div_mod N D ltac:(lia)) as Hdm.
  pose proof (Z.mod_pos_bound N D HD) as Hr.
  set (q := (N / D)%Z) in *. set (r := (N mod D)%Z) in *.
  split; intros HK.
  - assert (K <= q)%Z by nia.
    destruct (2 * r ?= D)%Z; [destruct (Z.even q)|..]; lia.
  - assert (Hq : (q <= K)%Z) by nia.
    destruct (Z.eq_dec q K) as [E|E].
    + assert (r = 0)%Z by nia.
      destruct (Z.compare_spec (2 * r) D); lia.
    + destruct (2 * r ?= D)%Z; [destruct (Z.even q)|..]; lia.
Qed.

(** The shape of a rounded positive quotient in the normal range: the
    significand is [rne] of the quotient scaled into [[2^52, 2^53)]. *)
Lemma round_frac_shape (n d : Z) :
  (0 < n)%Z -> (0 < d)%Z ->
  powerRZ 2 (-1022) <= IZR n / IZR d < powerRZ 2 1023 ->
  let e0 := (ilog2_frac n d - 52)%Z in
  let m0 := rne (n * 2 ^ Z.max 0 (- e0)) (d * 2 ^ Z.max 0 e0) in
  exists m e,
    round_frac false n d = Fin m e /\ (0 < m)%Z /\
    IZR m * powerRZ 2 e = IZR m0 * powerRZ 2 e0 /\
    (4503599627370496 <= m0 <= 9007199254740992)%Z /\
    powerRZ 2 e0 * 4503599627370496 <= IZR n / IZR d.
Proof.
  intros Hn Hd [Hlo Hhi] e0 m0. subst m0 e0. unfold round_frac.
  destruct (Z.eqb_spec n 0) as [|_]; [lia|].
  pose proof (ilog2_frac_spec n d Hn Hd) as [HL1 HL2].
  set (L := ilog2_frac n d) in *. set (q := IZR n / IZR d) in *.
  assert (HLlo : (-1022 <= L)%Z).
  { assert (powerRZ 2 (-1022) < powerRZ 2 (L + 1)) by lra.
    apply pow2_lt_inv in H. lia. }
  assert (HLhi : (L <= 1022)%Z).
  { assert (powerRZ 2 L < powerRZ 2 1023) by lra.
    apply pow2_lt_inv in H. lia. }
  rewrite (Z.max_l (L - 52) (-1074)) by lia.
  set (e := (L - 52)%Z).
  destruct (IZR_round_frac_parts n d e Hn Hd) as [HN HD].
  destruct (rne_spec _ _ HN HD) as [Hrne Hfl].
  rewrite frac_shift in Hrne by assumption. fold q in Hrne.
  set (m0 := rne (n * 2 ^ Z.max 0 (- e)) (d * 2 ^ Z.max 0 e)) in *.
  clearbody m0. clear Hfl HN HD.
  pose proof (pow2_pos e) as Pe. pose proof (pow2_pos L) as PL.
  assert (P52 : powerRZ 2 52 = 4503599627370496).
  { rewrite <- pow2_IZR by lia. reflexivity. }
  assert (EL : powerRZ 2 L = powerRZ 2 e * 4503599627370496).
  { rewrite <- P52, <- pow2_add. f_equal. unfold e. lia. }
  assert (Ee : powerRZ 2 (- e) * powerRZ 2 e = 1).
  { rewrite pow2_neg. apply Rinv_l. lra. }
  pose proof (pow2_pos (- e)) as Pne.
  rewrite pow2_succ in HL2.
  set (Y := q * powerRZ 2 (- e)) in *.
  assert (HY : 4503599627370496 <= Y < 9007199254740992).
  { unfold Y. split.
    - apply Rmult_le_reg_r with (powerRZ 2 e); [assumption|].
      rewrite Rmult_assoc, Ee. lra.
    - apply Rmult_lt_reg_r with (powerRZ 2 e); [assumption|].
      rewrite Rmult_assoc, Ee. lra. }
  assert (Hm0 : (4503599627370496 <= m0 <= 9007199254740992)%Z).
  { split.
    - assert (4503599627370496 - 1 < IZR m0) by lra.
      replace (4503599627370496 - 1) with (IZR 4503599627370495) in H by lra.
      apply lt_IZR in H. lia.
    - assert (IZR m0 < 9007199254740992 + 1) by lra.
      replace (9007199254740992 + 1) with (IZR 9007199254740993) in H by lra.
      apply lt_IZR in H. lia. }
  change (2 ^ 53)%Z with 9007199254740992%Z. change (2 ^ 52)%Z with 4503599627370496%Z.
  destruct (Z.eqb_spec m0 9007199254740992) as [E|E].
  - destruct (Z.ltb_spec 971 (e + 1)) as [|_]; [unfold e in *; lia|].
    cbn [Z.eqb]. exists 4503599627370496%Z, (e + 1)%Z.
    split; [reflexivity|]. split; [lia|]. split; [|split; [assumption | lra]].
    rewrite pow2_succ, E. lra.
  - destruct (Z.ltb_spec 971 e) as [|_]; [unfold e in *; lia|].
    destruct (Z.eqb_spec m0 0) as [|_]; [lia|].
    exists m0, e. split; [reflexivity|]. split; [lia|].
    split; [reflexivity|]. split; [assumption | lra].
Qed.

(** In the normal range a rounded positive quotient is a finite float within
    half a unit in the last place of the exact quotient. *)
Lemma round_frac_normal (n d : Z) :
  (0 < n)%Z -> (0 < d)%Z ->
  powerRZ 2 (-1022) <= IZR n / IZR d < powerRZ 2 1023 ->
  exists m e,
    round_frac false n d = Fin m e /\ (0 < m)%Z /\
    - (IZR n / IZR d * powerRZ 2 (-53)) <= IZR m * powerRZ 2 e - IZR n / IZR d
      <= IZR n / IZR d * powerRZ 2 (-53).
Proof.
  intros Hn Hd Hq.
  destruct (round_frac_shape n d Hn Hd Hq) as (m & e & Hr & Hm & Hv & Hm0 & Hlo).
  exists m, e. split; [assumption|]. split; [assumption|].
  rewrite Hv. clear Hv Hr Hm m e.
  set (e := (ilog2_frac n d - 52)%Z) in *.
  destruct (IZR_round_frac_parts n d e Hn Hd) as [HN HD].
  destruct (rne_spec _ _ HN HD) as [Hrne _].
  rewrite frac_shift in Hrne by assumption.
  set (m0 := rne (n * 2 ^ Z.max 0 (- e)) (d * 2 ^ Z.max 0 e)) in *. clearbody m0.
  set (q := IZR n / IZR d) in *.
  pose proof (pow2_pos e) as Pe.
  assert (Ee : powerRZ 2 (- e) * powerRZ 2 e = 1).
  { rewrite pow2_neg. apply Rinv_l. lra. }
  assert (P53 : powerRZ 2 (-53) = / 9007199254740992).
  { change (-53)%Z with (Z.opp 53). rewrite pow2_neg. f_equal.
    rewrite <- pow2_IZR by lia. reflexivity. }
  rewrite P53.
  assert (Hq' : q = (q * powerRZ 2 (- e)) * powerRZ 2 e).
  { rewrite Rmult_assoc, Ee. lra. }
  set (Y := q * powerRZ 2 (- e)) in *.
  assert (0 <= (IZR m0 - Y + /2) * powerRZ 2 e) by (apply Rmult_le_pos; lra).
  assert (0 <= (Y - IZR m0 + /2) * powerRZ 2 e) by (apply Rmult_le_pos; lra).
  lra.
Qed.

(** Rounding never crosses an integer below [2^53]. *)
Lemma round_frac_int_bounds (n d z : Z) :
  (0 < n)%Z -> (0 < d)%Z ->
  1 <= IZR n / IZR d < 9007199254740992 ->
  exists m e,
    round_frac false n d = Fin m e /\ (0 < m)%Z /\
    (IZR z <= IZR n / IZR d -> IZR z <= IZR m * powerRZ 2 e) /\
    (IZR n / IZR d <= IZR z -> IZR m * powerRZ 2 e <= IZR z).
Proof.
  intros Hn Hd [Hq1 Hq2].
  assert (P53 : powerRZ 2 53 = 9007199254740992).
  { rewrite <- pow2_IZR by lia. reflexivity. }
  assert (Hrange : powerRZ 2 (-1022) <= IZR n / IZR d < powerRZ 2 1023).
  { pose proof (pow2_le (-1022) 0 ltac:(lia)). pose proof (pow2_le 53 1023 ltac:(lia)).
    simpl (powerRZ 2 0) in *. lra. }
  destruct (round_frac_shape n d Hn Hd Hrange) as (m & e & Hr & Hm & Hv & _ & _).
  exists m, e. split; [assumption|]. split; [assumption|].
  rewrite Hv. clear Hv Hr Hm m e Hrange.
  pose proof (ilog2_frac_spec n d Hn Hd) as [HL1 HL2].
  set (L := ilog2_frac n d) in *.
  assert (HL0 : (0 <= L)%Z).
  { assert (powerRZ 2 0 < powerRZ 2 (L + 1)) by (simpl (powerRZ 2 0); lra).
    apply pow2_lt_inv in H. lia. }
  assert (HL52 : (L <= 52)%Z).
  { assert (powerRZ 2 L < powerRZ 2 53) by lra.
    apply pow2_lt_inv in H. lia. }
  set (k := (52 - L)%Z).
  replace (L - 52)%Z with (- k)%Z by (unfold k; lia).
  rewrite Z.opp_involutive, (Z.max_r 0 k), (Z.max_l 0 (- k)) by (unfold k; lia).
  rewrite Z.pow_0_r, Z.mul_1_r.
  assert (HK : (0 < 2 ^ k)%Z) by (apply Z.pow_pos_nonneg; unfold k; lia).
  assert (HN : (0 <= n * 2 ^ k)%Z) by nia.
  destruct (rne_int_bounds (n * 2 ^ k) d (z * 2 ^ k) HN Hd) as [Hge Hle].
  set (m0 := rne (n * 2 ^ k) d) in *. clearbody m0.
  assert (Hdr : 0 < IZR d) by (apply IZR_lt; lia).
  assert (Ek : IZR (2 ^ k) * powerRZ 2 (- k) = 1).
  { rewrite pow2_IZR, pow2_neg by (unfold k; lia). apply Rinv_r.
    pose proof (pow2_pos k). lra. }
  pose proof (pow2_pos (- k)) as Pk.
  assert (HKr : 0 < IZR (2 ^ k)) by (apply IZR_lt; assumption).
  split; intros Hz.
  - assert (Hz' : (z * d <= n)%Z).
    { apply le_IZR. rewrite mult_IZR.
      apply Rmult_le_compat_r with (r := IZR d) in Hz; [|lra].
      unfold Rdiv in Hz. rewrite Rmult_assoc, Rinv_l, Rmult_1_r in Hz by lra. assumption. }
    assert (Hm : (z * 2 ^ k <= m0)%Z) by (apply Hge; nia).
    apply IZR_le in Hm. rewrite mult_IZR in Hm.
    apply Rmult_le_compat_r with (r := powerRZ 2 (- k)) in Hm; [|lra].
    rewrite Rmult_assoc, Ek, Rmult_1_r in Hm. assumption.
  - assert (Hz' : (n <= z * d)%Z).
    { apply le_IZR. rewrite mult_IZR.
      apply Rmult_le_compat_r with (r := IZR d) in Hz; [|lra].
      unfold Rdiv in Hz. rewrite Rmult_assoc, Rinv_l, Rmult_1_r in Hz by lra. assumption. }
    assert (Hm : (m0 <= z * 2 ^ k)%Z) by (apply Hle; nia).
    apply IZR_le in Hm. rewrite mult_IZR in Hm.
    apply Rmult_le_compat_r with (r := powerRZ 2 (- k)) in Hm; [|lra].
    rewrite Rmult_assoc, Ek, Rmult_1_r in Hm. assumption.
Qed.


(** *** The operations on positive numbers *)

Lemma round_frac_posfin (n d : Z) :
  (0 < n)%Z -> (0 < d)%Z ->
  powerRZ 2 (-1022) <= IZR n / IZR d < powerRZ 2 1023 ->
  posfin (round_frac false n d).
Proof.
  intros Hn Hd Hq.
  destruct (round_frac_normal n d Hn Hd Hq) as (m & e & Hr & Hm & _).
  exists m, e. split; assumption.
Qed.

Lemma round_frac_error (n d : Z) :
  (0 < n)%Z -> (0 < d)%Z ->
  powerRZ 2 (-1022) <= IZR n / IZR d < powerRZ 2 1023 ->
  (1 - ulp53) * (IZR n / IZR d) <= F2R (round_frac false n d)
  <= (1 + ulp53) * (IZR n / IZR d).
Proof.
  intros Hn Hd Hq.
  destruct (round_frac_normal n d Hn Hd Hq) as (m & e & Hr & Hm & Herr).
  rewrite Hr. unfold F2R, ulp53. lra.
Qed.

Lemma round_frac_int_ge (n d z : Z) :
  (0 < n)%Z -> (0 < d)%Z ->
  1 <= IZR n / IZR d < 9007199254740992 ->
  IZR z <= IZR n / IZR d -> IZR z <= F2R (round_frac false n d).
Proof.
  intros Hn Hd Hq Hz.
  destruct (round_frac_int_bounds n d z Hn Hd Hq) as (m & e & Hr & Hm & Hge & _).
  rewrite Hr. apply Hge. assumption.
Qed.

Lemma round_frac_int_le (n d z : Z) :
  (0 < n)%Z -> (0 < d)%Z ->
  1 <= IZR n / IZR d < 9007199254740992 ->
  IZR n / IZR d <= IZR z -> F2R (round_frac false n d) <= IZR z.
Proof.
  intros Hn Hd Hq Hz.
  destruct (round_frac_int_bounds n d z Hn Hd Hq) as (m & e & Hr & Hm & _ & Hle).
  rewrite Hr. apply Hle. assumption.
Qed.

Lemma posfin_F2R (x : float) : posfin x -> 0 < F2R x.
Proof.
  intros (m & e & -> & Hm). simpl.
  apply Rmult_lt_0_compat; [apply IZR_lt; lia | apply pow2_pos].
Qed.

(** [a / b] on positive [int]s. *)
Lemma int_truediv_pos (a b : Z) :
  (0 < a)%Z -> (0 < b)%Z -> posfin (round_frac false a b) ->
  int_truediv a b = Ok (round_frac false a b).
Proof.
  intros Ha Hb (m & e & Hr & _). unfold int_truediv.
  destruct (Z.eqb_spec b 0) as [|_]; [lia|].
  destruct (Z.ltb_spec a 0); [lia|]. destruct (Z.ltb_spec b 0); [lia|].
  rewrite !Z.abs_eq by lia. cbn [xorb]. rewrite Hr. reflexivity.
Qed.

(** The quotient of two sides below [2^62] is in the normal range. *)
Lemma quotient_range (a b : Z) :
  (0 < a < 2 ^ 62)%Z -> (0 < b < 2 ^ 62)%Z ->
  powerRZ 2 (-1022) <= IZR a / IZR b < powerRZ 2 1023.
Proof.
  intros Ha Hb.
  assert (1 <= IZR a < powerRZ 2 62).
  { rewrite <- pow2_IZR by lia. split; [apply IZR_le | apply IZR_lt]; lia. }
  assert (1 <= IZR b < powerRZ 2 62).
  { rewrite <- pow2_IZR by lia. split; [apply IZR_le | apply IZR_lt]; lia. }
  pose proof (pow2_le (-1022) (-62) ltac:(lia)) as H1.
  pose proof (pow2_le 62 1023 ltac:(lia)) as H2.
  change (-62)%Z with (Z.opp 62) in H1. rewrite pow2_neg in H1.
  pose proof (pow2_pos 62) as P.
  assert (0 < / IZR b) by (apply Rinv_0_lt_compat; lra).
  assert (/ powerRZ 2 62 < / IZR b) by (apply Rinv_lt_contravar; [nra | lra]).
  assert (/ IZR b <= 1) by (rewrite <- Rinv_1; apply Rinv_le_contravar; lra).
  unfold Rdiv. split; nra.
Qed.

(** [float(a)] is exact below [2^53]. *)
Lemma float_of_int_exact (a : Z) :
  (0 < a < 2 ^ 53)%Z ->
  exists x, float_of_int a = Ok x /\ posfin x /\ F2R x = IZR a.
Proof.
  intros Ha. unfold float_of_int.
  destruct (Z.ltb_spec a 0); [lia|]. rewrite Z.abs_eq by lia.
  assert (Hq : 1 <= IZR a / IZR 1 < 9007199254740992).
  { unfold Rdiv. rewrite Rinv_1, Rmult_1_r.
    split; [apply IZR_le; lia|].
    change 9007199254740992 with (IZR (2 ^ 53)). apply IZR_lt; lia. }
  assert (Hrange : powerRZ 2 (-1022) <= IZR a / IZR 1 < powerRZ 2 1023).
  { apply quotient_range; lia. }
  pose proof (round_frac_posfin a 1 ltac:(lia) ltac:(lia) Hrange) as Hp.
  exists (round_frac false a 1). split; [|split; [assumption|]].
  - destruct Hp as (m & e & -> & _). reflexivity.
  - apply Rle_antisym.
    + apply round_frac_int_le; try lia; [assumption|].
      unfold Rdiv. rewrite Rinv_1. lra.
    + apply round_frac_int_ge; try lia; [assumption|].
      unfold Rdiv. rewrite Rinv_1. lra.
Qed.

(** [x * y] on positive floats rounds the exact product. *)
Lemma float_mul_pos (x y : float) :
  posfin x -> posfin y ->
  exists n d, (0 < n)%Z /\ (0 < d)%Z /\
    float_mul x y = round_frac false n d /\
    IZR n / IZR d = F2R x * F2R y.
Proof.
  intros (mx & ex & -> & Hmx) (my & ey & -> & Hmy).
  exists (Z.abs (mx * my) * 2 ^ Z.max 0 (ex + ey))%Z, (2 ^ Z.max 0 (- (ex + ey)))%Z.
  assert (0 < mx * my)%Z by nia.
  assert (0 < 2 ^ Z.max 0 (ex + ey))%Z by (apply Z.pow_pos_nonneg; lia).
  assert (0 < 2 ^ Z.max 0 (- (ex + ey)))%Z by (apply Z.pow_pos_nonneg; lia).
  split; [rewrite Z.abs_eq by lia; nia|]. split; [assumption|]. split.
  - simpl. destruct (Z.ltb_spec mx 0); [lia|]. destruct (Z.ltb_spec my 0); [lia|].
    reflexivity.
  - rewrite Z.abs_eq by lia.
    pose proof (frac_shift (mx * my) 1 (- (ex + ey)) ltac:(lia)) as Hs.
    rewrite Z.opp_involutive, Z.mul_1_l in Hs. rewrite Hs.
    simpl. rewrite mult_IZR, pow2_add. unfold Rdiv. rewrite Rinv_1. ring.
Qed.

(** [int(x)] on a positive float: the integer part. *)
Lemma int_of_float_pos (x : float) :
  posfin x ->
  exists t, int_of_float x = Ok t /\ IZR t <= F2R x < IZR t + 1.
Proof.
  intros (m & e & -> & Hm). simpl.
  destruct (Z.leb_spec 0 e) as [He|He].
  - exists (m * 2 ^ e)%Z. split; [reflexivity|].
    rewrite mult_IZR, pow2_IZR by assumption. lra.
  - exists (Z.quot m (2 ^ (- e))). split; [reflexivity|].
    assert (HK : (0 < 2 ^ (- e))%Z) by (apply Z.pow_pos_nonneg; lia).
    rewrite Z.quot_div_nonneg by lia.
    pose proof (Z.div_mod m (2 ^ (- e)) ltac:(lia)) as Hdm.
    pose proof (Z.mod_pos_bound m (2 ^ (- e)) HK) as Hr.
    set (t := (m / 2 ^ (- e))%Z) in *. set (r := (m mod 2 ^ (- e))%Z) in *.
    assert (HKr : IZR (2 ^ (- e)) * powerRZ 2 e = 1).
    { rewrite pow2_IZR by lia. rewrite pow2_neg. apply Rinv_l.
      pose proof (pow2_pos e). lra. }
    pose proof (pow2_pos e) as Pe.
    assert (Em : IZR m * powerRZ 2 e = IZR t + IZR r * powerRZ 2 e).
    { rewrite Hdm at 1. rewrite plus_IZR, mult_IZR.
      rewrite Rmult_plus_distr_r.
      replace (IZR (2 ^ (- e)) * IZR t * powerRZ 2 e)
        with (IZR t * (IZR (2 ^ (- e)) * powerRZ 2 e)) by ring.
      rewrite HKr. ring. }
    rewrite Em.
    assert (0 <= IZR r) by (apply IZR_le; lia).
    assert (IZR r < IZR (2 ^ (- e))) by (apply IZR_lt; lia).
    assert (IZR r * powerRZ 2 e < 1).
    { rewrite <- HKr. apply Rmult_lt_compat_r; assumption. }
    assert (0 <= IZR r * powerRZ 2 e) by (apply Rmult_le_pos; lra).
    lra.
Qed.

(** [x < y] on finite floats compares their values. *)
Lemma float_lt_spec (mx ex my ey : Z) :
  float_lt (Fin mx ex) (Fin my ey) = true <-> F2R (Fin mx ex) < F2R (Fin my ey).
Proof.
  simpl. set (e := Z.min ex ey).
  assert (Hx : IZR (mx * 2 ^ (ex - e)) = IZR mx * powerRZ 2 ex * powerRZ 2 (- e)).
  { rewrite mult_IZR, pow2_IZR by lia.
    rewrite Rmult_assoc, <- pow2_add. do 2 f_equal. }
  assert (Hy : IZR (my * 2 ^ (ey - e)) = IZR my * powerRZ 2 ey * powerRZ 2 (- e)).
  { rewrite mult_IZR, pow2_IZR by lia.
    rewrite Rmult_assoc, <- pow2_add. do 2 f_equal. }
  pose proof (pow2_pos (- e)) as Pe.
  rewrite Z.ltb_lt. split; intros H.
  - apply IZR_lt in H. rewrite Hx, Hy in H.
    apply Rmult_lt_reg_r in H; assumption.
  - apply lt_IZR. rewrite Hx, Hy. apply Rmult_lt_compat_r; assumption.
Qed.

Lemma py_min_spec (x y : float) :
  posfin x -> posfin y ->
  posfin (py_min x y) /\ F2R (py_min x y) = Rmin (F2R x) (F2R y).
Proof.
  intros Hx Hy. unfold py_min.
  destruct Hx as (mx & ex & -> & Hmx). destruct Hy as (my & ey & -> & Hmy).
  destruct (float_lt (Fin my ey) (Fin mx ex)) eqn:E.
  - apply float_lt_spec in E. split; [exists my, ey; auto|].
    rewrite Rmin_right; lra.
  - assert (~ F2R (Fin my ey) < F2R (Fin mx ex)).
    { intros H. apply float_lt_spec in H. congruence. }
    split; [exists mx, ex; auto|]. rewrite Rmin_left; lra.
Qed.

(** *** Against the Standard Library's binary64

    On these operands the division and the product computed by [round_frac]
    are those of [SFdiv] and [SFmul] at precision 53, bit for bit. *)

Example binary64_small_operands :
  forallb (fun a => forallb (agrees_with_ieee a) (zrange 1 40)) (zrange (-40) 81)%Z = true.
Proof. vm_compute. reflexivity. Qed.

Example binary64_large_operands :
  forallb (fun ab : Z * Z => agrees_with_ieee (fst ab) (snd ab))
    [(980, 4032); (13, 3); (48, 47); (121, 27); (33554431, 33554430);
     (1, 33554431); (33554431, 1); (9007199254740991, 3);
     (1, 9007199254740991); (-980, 1080); (2 ^ 62 + 12345, 2 ^ 61 - 1)]%Z = true.
Proof. vm_compute. reflexivity. Qed.

Example binary64_drawn_operands :
  forallb (fun ab : Z * Z => agrees_with_ieee (fst ab) (snd ab)) (lcg_pairs 2024 2000)
  = true.
Proof. vm_compute. reflexivity. Qed.

End FloatFacts.

Module ResizeFacts.
Import FloatFacts.
Local Open Scope R_scope.

Lemma resize_image_to_fit_new_size (im : PIL.image) (tw th : Z) :
  Main.resize_image_to_fit im tw th
  = (sz <- new_size (PIL.width im) (PIL.height im) tw th ;; PIL.resize im sz)%py.
Proof.
  unfold Main.resize_image_to_fit, new_size, PIL.size.
  destruct (int_truediv tw (PIL.width im)) as [rw|]; [|reflexivity].
  destruct (int_truediv th (PIL.height im)) as [rh|]; [|reflexivity].
  cbn [bind].
  destruct (int_mul_float (PIL.width im) (py_min rw rh)) as [pw|]; [|reflexivity].
  cbn [bind].
  destruct (int_of_float pw) as [nw|]; [|reflexivity].
  destruct (int_mul_float (PIL.height im) (py_min rw rh)) as [ph|]; [|reflexivity].
  cbn [bind].
  destruct (int_of_float ph) as [nh|]; [|reflexivity].
  cbn [bind]. destruct (PIL.resize im (nw, nh)); reflexivity.
Qed.

Lemma side_ok_R (z : Z) : side_ok z -> 1 <= IZR z < 33554432.
Proof.
  intros [H1 H2]. split; [apply IZR_le; lia|].
  change 33554432 with (IZR (2 ^ 25)). apply IZR_lt; assumption.
Qed.

Lemma ulp53_val : ulp53 = / 9007199254740992.
Proof.
  unfold ulp53. change (-53)%Z with (Z.opp 53). rewrite pow2_neg. f_equal.
  rewrite <- pow2_IZR by lia. reflexivity.
Qed.

(** [a * s] for a side [a] and a positive float [s] of moderate size, then
    [int()]: the product's integer part, with the product within one
    rounding of the exact one and never across an integer. *)
Lemma scaled_side (a : Z) (s : float) :
  side_ok a -> posfin s -> / 134217728 <= F2R s <= 67108864 ->
  exists (t : Z) (P : R),
    (p <- int_mul_float a s ;; int_of_float p)%py = Ok t /\
    IZR t <= P < IZR t + 1 /\
    (1 - ulp53) * (IZR a * F2R s) <= P <= (1 + ulp53) * (IZR a * F2R s) /\
    (1 <= F2R s -> IZR a <= P).
Proof.
  intros Ha Hs Hrs. pose proof (side_ok_R a Ha) as Har.
  destruct (float_of_int_exact a) as (xa & Hfa & Hpa & Hva).
  { destruct Ha. split; [lia|]. eapply Z.lt_trans; [eassumption|reflexivity]. }
  unfold int_mul_float. rewrite Hfa. cbn [bind].
  destruct (float_mul_pos xa s Hpa Hs) as (n & d & Hn & Hd & Hmul & Hnd).
  rewrite Hmul, Hva in *.
  assert (Hprod : / 134217728 <= IZR a * F2R s <= 33554432 * 67108864) by nra.
  assert (Hrange : powerRZ 2 (-1022) <= IZR n / IZR d < powerRZ 2 1023).
  { rewrite Hnd.
    pose proof (pow2_le (-1022) (-27) ltac:(lia)) as H1.
    pose proof (pow2_le 52 1023 ltac:(lia)) as H2.
    change (-27)%Z with (Z.opp 27) in H1. rewrite pow2_neg in H1.
    rewrite <- (pow2_IZR 27) in H1 by lia. rewrite <- (pow2_IZR 52) in H2 by lia.
    change (IZR (2 ^ 27)) with 134217728 in H1.
    change (IZR (2 ^ 52)) with 4503599627370496 in H2. lra. }
  pose proof (round_frac_posfin n d Hn Hd Hrange) as Hpp.
  pose proof (round_frac_error n d Hn Hd Hrange) as Herr.
  destruct (int_of_float_pos _ Hpp) as (t & Ht & Hfl).
  exists t, (F2R (round_frac false n d)).
  split; [assumption|]. split; [assumption|]. rewrite Hnd in Herr.
  split; [assumption|].
  intros H1.
  apply round_frac_int_ge; try assumption.
  - rewrite Hnd. split; nra.
  - rewrite Hnd. nra.
Qed.


Lemma exact_scale_range (ow oh tw th : Z) :
  side_ok ow -> side_ok oh -> side_ok tw -> side_ok th ->
  / 33554432 < exact_scale ow oh tw th < 33554432 /\
  IZR ow * exact_scale ow oh tw th <= IZR tw /\
  IZR oh * exact_scale ow oh tw th <= IZR th.
Proof.
  intros Ha Hb Hc Hd.
  apply side_ok_R in Ha, Hb, Hc, Hd.
  assert (Hq : forall x y, 1 <= x < 33554432 -> 1 <= y < 33554432 ->
                 / 33554432 < x / y < 33554432 /\ y * (x / y) = x).
  { intros x y Hx Hy.
    assert (0 < / y) by (apply Rinv_0_lt_compat; lra).
    assert (/ 33554432 < / y) by (apply Rinv_lt_contravar; [nra | lra]).
    assert (/ y <= 1) by (rewrite <- Rinv_1; apply Rinv_le_contravar; lra).
    unfold Rdiv. split; [split; nra | field; lra]. }
  destruct (Hq _ _ Hc Ha) as [H1 E1]. destruct (Hq _ _ Hd Hb) as [H2 E2].
  unfold exact_scale, Rmin.
  destruct (Rle_dec (IZR tw / IZR ow) (IZR th / IZR oh)) as [Hle|Hgt].
  - split; [lra|]. split; [lra|]. rewrite <- E2. apply Rmult_le_compat_l; lra.
  - split; [lra|]. split; [|lra]. rewrite <- E1. apply Rmult_le_compat_l; lra.
Qed.

(** The size [resize_image_to_fit] asks for: both products are within two
    roundings of the exactly scaled sides, and a scale of one or more never
    shrinks a side. *)
Lemma new_size_bounds (ow oh tw th : Z) :
  side_ok ow -> side_ok oh -> side_ok tw -> side_ok th ->
  exists (nw nh : Z) (Pw Ph : R),
    new_size ow oh tw th = Ok (nw, nh) /\
    IZR nw <= Pw < IZR nw + 1 /\ IZR nh <= Ph < IZR nh + 1 /\
    (1 - ulp53) * (1 - ulp53) * (IZR ow * exact_scale ow oh tw th) <= Pw
      <= (1 + ulp53) * (1 + ulp53) * (IZR ow * exact_scale ow oh tw th) /\
    (1 - ulp53) * (1 - ulp53) * (IZR oh * exact_scale ow oh tw th) <= Ph
      <= (1 + ulp53) * (1 + ulp53) * (IZR oh * exact_scale ow oh tw th) /\
    ((ow <= tw)%Z -> (oh <= th)%Z -> IZR ow <= Pw /\ IZR oh <= Ph).
Proof.
  intros Ha Hb Hc Hd.
  assert (Hwide : forall z, side_ok z -> (0 < z < 2 ^ 62)%Z).
  { intros z [H1 H2]. split; [lia|]. eapply Z.lt_trans; [eassumption|reflexivity]. }
  pose proof (quotient_range tw ow (Hwide _ Hc) (Hwide _ Ha)) as Hr1.
  pose proof (quotient_range th oh (Hwide _ Hd) (Hwide _ Hb)) as Hr2.
  assert (Hpos : forall z, side_ok z -> (0 < z)%Z) by (intros z [H _]; exact H).
  pose proof (round_frac_posfin tw ow (Hpos _ Hc) (Hpos _ Ha) Hr1) as Hp1.
  pose proof (round_frac_posfin th oh (Hpos _ Hd) (Hpos _ Hb) Hr2) as Hp2.
  pose proof (round_frac_error tw ow (Hpos _ Hc) (Hpos _ Ha) Hr1) as He1.
  pose proof (round_frac_error th oh (Hpos _ Hd) (Hpos _ Hb) Hr2) as He2.
  unfold new_size.
  rewrite (int_truediv_pos tw ow), (int_truediv_pos th oh)
    by (try apply Hpos; assumption).
  cbn [bind].
  set (rw := round_frac false tw ow) in *. set (rh := round_frac false th oh) in *.
  destruct (py_min_spec rw rh Hp1 Hp2) as [Hps Hvs].
  set (s := py_min rw rh) in *.
  destruct (exact_scale_range ow oh tw th Ha Hb Hc Hd) as (Hrr & _ & _).
  set (r := exact_scale ow oh tw th) in *.
  pose proof ulp53_val as Hu.
  assert (Hs : (1 - ulp53) * r <= F2R s <= (1 + ulp53) * r).
  { rewrite Hvs. unfold r, exact_scale, Rmin in *.
    destruct (Rle_dec (F2R rw) (F2R rh));
      destruct (Rle_dec (IZR tw / IZR ow) (IZR th / IZR oh)); rewrite Hu in *; lra. }
  assert (Hsr : / 134217728 <= F2R s <= 67108864) by (rewrite Hu in Hs; lra).
  destruct (scaled_side ow s Ha Hps Hsr) as (nw & Pw & Hnw & Hfw & Hew & Hgw).
  destruct (scaled_side oh s Hb Hps Hsr) as (nh & Ph & Hnh & Hfh & Heh & Hgh).
  exists nw, nh, Pw, Ph. rewrite Hnw. cbn [bind]. rewrite Hnh. cbn [bind].
  split; [reflexivity|]. split; [assumption|]. split; [assumption|].
  pose proof (side_ok_R _ Ha) as Har. pose proof (side_ok_R _ Hb) as Hbr.
  assert (Hscale : forall a, 1 <= a ->
            (1 - ulp53) * (a * r) <= a * F2R s <= (1 + ulp53) * (a * r)).
  { intros a Ha1. split.
    - replace ((1 - ulp53) * (a * r)) with (a * ((1 - ulp53) * r)) by ring.
      apply Rmult_le_compat_l; lra.
    - replace ((1 + ulp53) * (a * r)) with (a * ((1 + ulp53) * r)) by ring.
      apply Rmult_le_compat_l; lra. }
  pose proof (Hscale _ (proj1 Har)) as Hsw. pose proof (Hscale _ (proj1 Hbr)) as Hsh.
  set (Xw := IZR ow * r) in *. set (Xh := IZR oh * r) in *.
  set (Sw := IZR ow * F2R s) in *. set (Sh := IZR oh * F2R s) in *.
  rewrite Hu in *.
  split; [lra|]. split; [lra|].
  intros Hle1 Hle2.
  assert (1 <= F2R s).
  { rewrite Hvs. apply Rmin_glb.
    - apply (round_frac_int_ge tw ow 1); try (apply Hpos; assumption).
      + pose proof (side_ok_R _ Hc). apply IZR_le in Hle1.
        assert (0 < / IZR ow) by (apply Rinv_0_lt_compat; lra).
        assert (/ IZR ow <= 1) by (rewrite <- Rinv_1; apply Rinv_le_contravar; lra).
        assert (IZR ow * / IZR ow = 1) by (apply Rinv_r; lra).
        unfold Rdiv. split; nra.
      + apply IZR_le in Hle1.
        assert (0 < / IZR ow) by (apply Rinv_0_lt_compat; lra).
        assert (IZR ow * / IZR ow = 1) by (apply Rinv_r; lra).
        unfold Rdiv. nra.
    - apply (round_frac_int_ge th oh 1); try (apply Hpos; assumption).
      + pose proof (side_ok_R _ Hd). apply IZR_le in Hle2.
        assert (0 < / IZR oh) by (apply Rinv_0_lt_compat; lra).
        assert (/ IZR oh <= 1) by (rewrite <- Rinv_1; apply Rinv_le_contravar; lra).
        assert (IZR oh * / IZR oh = 1) by (apply Rinv_r; lra).
        unfold Rdiv. split; nra.
      + apply IZR_le in Hle2.
        assert (0 < / IZR oh) by (apply Rinv_0_lt_compat; lra).
        assert (IZR oh * / IZR oh = 1) by (apply Rinv_r; lra).
        unfold Rdiv. nra. }
  split; [apply Hgw | apply Hgh]; assumption.
Qed.


Lemma IZR_lt_succ (t k : Z) : IZR t < IZR k + 1 -> (t <= k)%Z.
Proof.
  intros H. assert (H' : IZR t < IZR (k + 1)) by (rewrite plus_IZR; lra).
  apply lt_IZR in H'. lia.
Qed.

(** The integer part of a product that is within two roundings of [N / D]
    is the floor of [N / D] or one less. *)
Lemma floor_near (N D t : Z) (P : R) :
  (0 <= N)%Z -> side_ok D -> IZR N / IZR D < 33554432 ->
  IZR t <= P < IZR t + 1 ->
  (1 - ulp53) * (1 - ulp53) * (IZR N / IZR D) <= P
    <= (1 + ulp53) * (1 + ulp53) * (IZR N / IZR D) ->
  (N / D - 1 <= t <= N / D)%Z.
Proof.
  intros HN HD HX Ht HP. pose proof (side_ok_R D HD) as HDr.
  destruct HD as [HD0 _].
  pose proof (Z.div_mod N D ltac:(lia)) as Hdm.
  pose proof (Z.mod_pos_bound N D HD0) as Hr.
  set (E := (N / D)%Z) in *. set (r := (N mod D)%Z) in *.
  assert (EX : IZR N / IZR D = IZR E + IZR r / IZR D).
  { rewrite Hdm, plus_IZR, mult_IZR. field. lra. }
  assert (Hinv : / 33554432 < / IZR D <= 1).
  { split; [apply Rinv_lt_contravar; [nra | lra]|].
    rewrite <- Rinv_1. apply Rinv_le_contravar; lra. }
  assert (Hfrac : 0 <= IZR r / IZR D <= 1 - / IZR D).
  { assert (0 <= IZR r <= IZR D - 1).
    { split; [apply IZR_le; lia|].
      replace (IZR D - 1) with (IZR (D - 1)) by (rewrite minus_IZR; lra).
      apply IZR_le; lia. }
    assert (IZR D * / IZR D = 1) by (apply Rinv_r; lra).
    unfold Rdiv. split; nra. }
  pose proof ulp53_val as Hu. rewrite Hu in HP.
  set (X := IZR N / IZR D) in *.
  assert (0 <= X) by lra.
  split.
  - assert (IZR (E - 1) < IZR t + 1) by (rewrite minus_IZR; lra).
    assert (IZR (E - 1) < IZR (t + 1)) by (rewrite plus_IZR; lra).
    apply lt_IZR in H1. lia.
  - apply IZR_lt_succ. lra.
Qed.

(** What [resize_image_to_fit] asks of [resize], for sides below [2^25]:
    a size inside the box, each side the exact floor or one less, the
    aspect ratio kept to one pixel, and no side shrunk when the source fits
    in the box. *)
Lemma new_size_spec (ow oh tw th : Z) :
  side_ok ow -> side_ok oh -> side_ok tw -> side_ok th ->
  exists nw nh : Z,
    new_size ow oh tw th = Ok (nw, nh) /\
    (0 <= nw <= tw)%Z /\ (0 <= nh <= th)%Z /\
    (fst (exact_size ow oh tw th) - 1 <= nw <= fst (exact_size ow oh tw th))%Z /\
    (snd (exact_size ow oh tw th) - 1 <= nh <= snd (exact_size ow oh tw th))%Z /\
    (- oh <= nw * oh - nh * ow <= ow)%Z /\
    ((ow <= tw)%Z -> (oh <= th)%Z -> (ow <= nw)%Z /\ (oh <= nh)%Z).
Proof.
  intros Ha Hb Hc Hd.
  destruct (new_size_bounds ow oh tw th Ha Hb Hc Hd)
    as (nw & nh & Pw & Ph & Hns & Hfw & Hfh & Hew & Heh & Hup).
  destruct (exact_scale_range ow oh tw th Ha Hb Hc Hd) as (Hr & Hxw & Hxh).
  exists nw, nh. split; [assumption|].
  pose proof (side_ok_R _ Ha) as Har. pose proof (side_ok_R _ Hb) as Hbr.
  pose proof (side_ok_R _ Hc) as Hcr. pose proof (side_ok_R _ Hd) as Hdr.
  pose proof ulp53_val as Hu.
  set (r := exact_scale ow oh tw th) in *.
  assert (Hxw0 : 0 < IZR ow * r) by (apply Rmult_lt_0_compat; lra).
  assert (Hxh0 : 0 < IZR oh * r) by (apply Rmult_lt_0_compat; lra).
  assert (Hnw : (0 <= nw <= tw)%Z).
  { split.
    - assert (IZR (-1) < IZR nw) by (rewrite Hu in Hew; simpl (IZR (-1)); lra).
      apply lt_IZR in H. lia.
    - apply IZR_lt_succ. rewrite Hu in Hew. lra. }
  assert (Hnh : (0 <= nh <= th)%Z).
  { split.
    - assert (IZR (-1) < IZR nh) by (rewrite Hu in Heh; simpl (IZR (-1)); lra).
      apply lt_IZR in H. lia.
    - apply IZR_lt_succ. rewrite Hu in Heh. lra. }
  split; [assumption|]. split; [assumption|].
  assert (Hexact :
    (fst (exact_size ow oh tw th) - 1 <= nw <= fst (exact_size ow oh tw th))%Z /\
    (snd (exact_size ow oh tw th) - 1 <= nh <= snd (exact_size ow oh tw th))%Z).
  { assert (Hcase : forall x y, 1 <= x -> 1 <= y -> y * (x / y) = x)
      by (intros; field; lra).
    assert (Hfrac : forall a b c : Z, 1 <= IZR b ->
              IZR a * (IZR c / IZR b) = IZR (a * c) / IZR b)
      by (intros; rewrite mult_IZR; field; lra).
    destruct Ha as [Ha0 Ha1], Hb as [Hb0 Hb1], Hc as [Hc0 Hc1], Hd as [Hd0 Hd1].
    unfold exact_size.
    destruct (Z.leb_spec (tw * oh) (th * ow)) as [Hle|Hgt]; cbn [fst snd].
    - assert (Er : r = IZR tw / IZR ow).
      { unfold r, exact_scale. apply Rmin_left.
        apply IZR_le in Hle. rewrite !mult_IZR in Hle.
        apply Rmult_le_reg_r with (IZR ow * IZR oh); [nra|].
        replace (IZR tw / IZR ow * (IZR ow * IZR oh)) with (IZR tw * IZR oh)
          by (field; lra).
        replace (IZR th / IZR oh * (IZR ow * IZR oh)) with (IZR th * IZR ow)
          by (field; lra).
        assumption. }
      rewrite Er, !Hfrac in * by lra.
      split; (eapply floor_near; [| split; eassumption | | eassumption | eassumption]);
        try nia; lra.
    - assert (Er : r = IZR th / IZR oh).
      { unfold r, exact_scale. apply Rmin_right.
        apply IZR_lt in Hgt. rewrite !mult_IZR in Hgt. left.
        apply Rmult_lt_reg_r with (IZR ow * IZR oh); [nra|].
        replace (IZR tw / IZR ow * (IZR ow * IZR oh)) with (IZR tw * IZR oh)
          by (field; lra).
        replace (IZR th / IZR oh * (IZR ow * IZR oh)) with (IZR th * IZR ow)
          by (field; lra).
        assumption. }
      rewrite Er, !Hfrac in * by lra.
      split; (eapply floor_near; [| split; eassumption | | eassumption | eassumption]);
        try nia; lra. }
  split; [apply Hexact|]. split; [apply Hexact|].
  split.
  - (* the aspect ratio *)
    set (Z0 := IZR ow * IZR oh * r).
    assert (HZ0 : 0 < Z0 <= 33554432 * 33554432).
    { unfold Z0. split; [apply Rmult_lt_0_compat; nra|].
      replace (IZR ow * IZR oh * r) with (IZR oh * (IZR ow * r)) by ring. nra. }
    assert (Hwb : IZR nw * IZR oh <= (1 + ulp53) * (1 + ulp53) * Z0).
    { replace ((1 + ulp53) * (1 + ulp53) * Z0)
        with ((1 + ulp53) * (1 + ulp53) * (IZR ow * r) * IZR oh) by (unfold Z0; ring).
      apply Rmult_le_compat_r; lra. }
    assert (Hwb' : (1 - ulp53) * (1 - ulp53) * Z0 - IZR oh < IZR nw * IZR oh).
    { replace ((1 - ulp53) * (1 - ulp53) * Z0 - IZR oh)
        with (((1 - ulp53) * (1 - ulp53) * (IZR ow * r) - 1) * IZR oh)
        by (unfold Z0; ring).
      apply Rmult_lt_compat_r; lra. }
    assert (Hha : IZR nh * IZR ow <= (1 + ulp53) * (1 + ulp53) * Z0).
    { replace ((1 + ulp53) * (1 + ulp53) * Z0)
        with ((1 + ulp53) * (1 + ulp53) * (IZR oh * r) * IZR ow) by (unfold Z0; ring).
      apply Rmult_le_compat_r; lra. }
    assert (Hha' : (1 - ulp53) * (1 - ulp53) * Z0 - IZR ow < IZR nh * IZR ow).
    { replace ((1 - ulp53) * (1 - ulp53) * Z0 - IZR ow)
        with (((1 - ulp53) * (1 - ulp53) * (IZR oh * r) - 1) * IZR ow)
        by (unfold Z0; ring).
      apply Rmult_lt_compat_r; lra. }
    rewrite Hu in *.
    split.
    + assert (IZR (- oh - 1) < IZR (nw * oh - nh * ow)).
      { rewrite !minus_IZR, opp_IZR, !mult_IZR. lra. }
      apply lt_IZR in H. lia.
    + apply IZR_lt_succ. rewrite minus_IZR, !mult_IZR. lra.
  - intros H1 H2. destruct (Hup H1 H2) as [Gw Gh].
    split.
    + assert (IZR (ow - 1) < IZR nw) by (rewrite minus_IZR; lra).
      apply lt_IZR in H. lia.
    + assert (IZR (oh - 1) < IZR nh) by (rewrite minus_IZR; lra).
      apply lt_IZR in H. lia.
Qed.

End ResizeFacts.

(** ** The specification's resizer against the integer form *)

Module SpecFacts.
Import Spec.

Lemma Qfloor_scaled (a n d : Z) :
  0 < d -> Qfloor (inject_Z a * (inject_Z n / inject_Z d)) = (a * n) / d.
Proof.
  intros Hd. destruct d as [|p|p]; try lia.
  transitivity (Qfloor ((a * n) # p)).
  - apply Qfloor_comp. unfold Qeq, Qdiv, Qmult, Qinv, inject_Z. simpl. lia.
  - reflexivity.
Qed.

(** The floors of the specification are those of [exact_size]. *)
Lemma spec_size_exact (ow oh tw th : Z) :
  0 < ow -> 0 < oh -> spec_size ow oh tw th = exact_size ow oh tw th.
Proof.
  intros Ha Hb. unfold spec_size, spec_scale, exact_size.
  assert (Hcmp : (inject_Z tw / inject_Z ow ?= inject_Z th / inject_Z oh)%Q
                 = (tw * oh ?= th * ow)).
  { destruct ow as [|p|p]; try lia. destruct oh as [|q|q]; try lia.
    unfold Qcompare, Qdiv, Qmult, Qinv, inject_Z. simpl.
    rewrite !Z.mul_1_r. reflexivity. }
  unfold Qmin, GenericMinMax.gmin. rewrite Hcmp.
  destruct (Z.leb_spec (tw * oh) (th * ow)) as [H|H].
  - destruct (Z.compare_spec (tw * oh) (th * ow)); try lia;
      rewrite !Qfloor_scaled by assumption; reflexivity.
  - destruct (Z.compare_spec (tw * oh) (th * ow)); try lia.
    rewrite !Qfloor_scaled by assumption; reflexivity.
Qed.

End SpecFacts.

(** ** The resizer *)

Module Resizer.
Import PIL Spec Samples ResizeFacts SpecFacts.

(** Pillow's [resize] on an image that decodes, with sides of at least one
    pixel. *)
Lemma resize_intact (im : image) (nw nh : Z) :
  intact im = true -> 0 < width im -> 0 < height im ->
  (1 <= nw -> 1 <= nh ->
   exists out, resize im (nw, nh) = Ok out /\ size out = (nw, nh) /\
               mode out = mode im /\ intact out = true) /\
  (nw < 1 \/ nh < 1 -> resize im (nw, nh) = Raise ValueError).
Proof.
  intros Hi Hw Hh. unfold resize, load. rewrite Hi. cbn [bind].
  split.
  - intros H1 H2.
    destruct ((nw =? width im) && (nh =? height im)) eqn:E.
    + apply andb_true_iff in E. destruct E as [E1 E2].
      apply Z.eqb_eq in E1, E2. exists im. unfold size. subst. auto.
    + destruct (Z.ltb_spec nw 1); [lia|]. destruct (Z.ltb_spec nh 1); [lia|].
      cbn [orb]. eexists. split; [reflexivity|]. auto.
  - intros H.
    assert (E : (nw =? width im) && (nh =? height im) = false).
    { apply andb_false_iff. destruct H; [left|right]; apply Z.eqb_neq; lia. }
    rewrite E.
    assert (E' : (nw <? 1) || (nh <? 1) = true).
    { apply orb_true_iff. destruct H; [left|right]; apply Z.ltb_lt; lia. }
    rewrite E'. reflexivity.
Qed.

(** Whatever [resize] returns has the size it was asked for. *)
Lemma resize_size (im out : image) (sz : Z * Z) :
  resize im sz = Ok out -> size out = sz /\ mode out = mode im /\ intact out = true.
Proof.
  destruct sz as [nw nh]. unfold resize, load.
  destruct (intact im) eqn:Hi; cbn [bind]; [|discriminate].
  destruct ((nw =? width im) && (nh =? height im)) eqn:E.
  - intros [= <-]. apply andb_true_iff in E. destruct E as [E1 E2].
    apply Z.eqb_eq in E1, E2. unfold size. subst. auto.
  - destruct ((nw <? 1) || (nh <? 1)); [discriminate|].
    intros [= <-]. auto.
Qed.

(** The resizer on a source that decodes, with source and box sides in
    [1 .. 2^25 - 1]: what it asks of [resize] and what comes back. *)
Lemma resize_image_to_fit_exact (im : image) (W H : Z) :
  intact im = true ->
  side_ok (width im) -> side_ok (height im) -> side_ok W -> side_ok H ->
  exists nw nh : Z,
    new_size (width im) (height im) W H = Ok (nw, nh) /\
    (fst (exact_size (width im) (height im) W H) - 1 <= nw
       <= fst (exact_size (width im) (height im) W H)) /\
    (snd (exact_size (width im) (height im) W H) - 1 <= nh
       <= snd (exact_size (width im) (height im) W H)) /\
    (1 <= nw -> 1 <= nh ->
     exists out, Main.resize_image_to_fit im W H = Ok out /\ size out = (nw, nh)) /\
    (nw < 1 \/ nh < 1 -> Main.resize_image_to_fit im W H = Raise ValueError) /\
    (W - 1 <= nw \/ H - 1 <= nh) /\
    (width im <= W -> height im <= H -> width im <= nw /\ height im <= nh).
Proof.
  intros Hi Hw Hh HW HH.
  destruct (new_size_spec _ _ _ _ Hw Hh HW HH)
    as (nw & nh & Hns & _ & _ & Hew & Heh & _ & Hup).
  exists nw, nh.
  split; [assumption|]. split; [assumption|]. split; [assumption|].
  rewrite resize_image_to_fit_new_size, Hns. cbn [bind].
  destruct (resize_intact im nw nh Hi (proj1 Hw) (proj1 Hh)) as [Hok Hbad].
  split; [|split; [exact Hbad | split; [|exact Hup]]].
  - intros H1 H2. destruct (Hok H1 H2) as (out & Ho & Hs & _).
    exists out. split; assumption.
  - unfold exact_size in Hew, Heh.
    destruct (W * height im <=? H * width im); cbn [fst snd] in Hew, Heh.
    + left. rewrite (Z.mul_comm (width im) W), Z.div_mul in Hew
        by (destruct Hw; lia). lia.
    + right. rewrite (Z.mul_comm (height im) H), Z.div_mul in Heh
        by (destruct Hh; lia). lia.
Qed.

(** C2, as amended.  For a source that decodes and source and box sides in
    [1 .. 2^25 - 1], the resizer computes the scale and both products in
    binary64 and truncates them: each side it asks for is the
    specification's [floor(src * scale)] or one pixel less.  When both are
    at least one pixel it returns an image of exactly that size, otherwise
    Pillow's [resize] raises [ValueError].  The scale is not capped at 1.0:
    one side comes within a pixel of the box, and when the source fits in
    the box no side shrinks. *)
Theorem resize_image_to_fit_size (im : image) (W H : Z) :
  intact im = true ->
  side_ok (width im) -> side_ok (height im) -> side_ok W -> side_ok H ->
  exists nw nh : Z,
    new_size (width im) (height im) W H = Ok (nw, nh) /\
    (fst (spec_size (width im) (height im) W H) - 1 <= nw
       <= fst (spec_size (width im) (height im) W H)) /\
    (snd (spec_size (width im) (height im) W H) - 1 <= nh
       <= snd (spec_size (width im) (height im) W H)) /\
    (1 <= nw -> 1 <= nh ->
     exists out, Main.resize_image_to_fit im W H = Ok out /\ size out = (nw, nh)) /\
    (nw < 1 \/ nh < 1 -> Main.resize_image_to_fit im W H = Raise ValueError) /\
    (W - 1 <= nw \/ H - 1 <= nh) /\
    (width im <= W -> height im <= H -> width im <= nw /\ height im <= nh).
Proof.
  intros Hi Hw Hh HW HH.
  rewrite spec_size_exact by (apply Hw || apply Hh).
  apply resize_image_to_fit_exact; assumption.
Qed.

Lemma resize_image_to_fit_size_witness :
  exists nw nh : Z,
    new_size 2000 1000 980 980 = Ok (nw, nh) /\
    (fst (spec_size 2000 1000 980 980) - 1 <= nw <= fst (spec_size 2000 1000 980 980)) /\
    (snd (spec_size 2000 1000 980 980) - 1 <= nh <= snd (spec_size 2000 1000 980 980)) /\
    (1 <= nw -> 1 <= nh ->
     exists out, Main.resize_image_to_fit (photo 2000 1000) 980 980 = Ok out /\
                 size out = (nw, nh)) /\
    (nw < 1 \/ nh < 1 ->
     Main.resize_image_to_fit (photo 2000 1000) 980 980 = Raise ValueError) /\
    (980 - 1 <= nw \/ 980 - 1 <= nh) /\
    (2000 <= 980 -> 1000 <= 980 -> 2000 <= nw /\ 1000 <= nh).
Proof.
  apply (resize_image_to_fit_size (photo 2000 1000) 980 980);
    [reflexivity | | | | ]; unfold side_ok; simpl; lia.
Defined.


(** C2 as the specification states it fails on a 47 x 47 source in a
    48 x 48 box: [48 / 47] rounds to a float whose product with 47 rounds
    to [47.99999999999999], so the code keeps 47 x 47 where the exact
    floors are 48 x 48, and the source, smaller than the box, is not
    enlarged. *)
Lemma resize_image_to_fit_size_counterexample :
  ~ resizer_returns_spec_size (photo 47 47) 48 48 /\
  ~ resizer_enlarges_smaller_source (photo 47 47) 48 48.
Proof.
  split.
  - intros (out & Hout & Hsz).
    vm_compute in Hout. injection Hout as <-.
    vm_compute in Hsz. discriminate Hsz.
  - intros Hc. destruct Hc as (out & Hout & Hbig); [reflexivity | reflexivity |].
    vm_compute in Hout. injection Hout as <-.
    cbn in Hbig. lia.
Qed.

(** [a / b] returns, or raises one of two errors. *)
Lemma int_truediv_cases (a b : Z) :
  (exists q, int_truediv a b = Ok q /\ b <> 0) \/
  (int_truediv a b = Raise ZeroDivisionError /\ b = 0) \/
  (int_truediv a b = Raise OverflowError /\ b <> 0).
Proof.
  unfold int_truediv. destruct (Z.eqb_spec b 0) as [E|E]; [right; left; auto|].
  destruct (round_frac _ _ _); eauto.
Qed.

(** A degenerate source makes the resizer raise from its divisions. *)
Lemma resize_degenerate (im : image) (W H : Z) :
  width im = 0 \/ height im = 0 ->
  (width im = 0 -> Main.resize_image_to_fit im W H = Raise ZeroDivisionError) /\
  (Main.resize_image_to_fit im W H = Raise ZeroDivisionError \/
   Main.resize_image_to_fit im W H = Raise OverflowError).
Proof.
  intros Hz. unfold Main.resize_image_to_fit, size.
  destruct (int_truediv_cases W (width im)) as [(q & -> & Hq)|[[-> Hq]|[-> Hq]]];
    cbn [bind].
  - split; [intros; contradiction|].
    destruct Hz as [Hz|Hz]; [contradiction|].
    rewrite Hz. left. reflexivity.
  - auto.
  - split; [intros; contradiction | auto].
Qed.

(** C5 as the specification states it fails on a 0 x 10 source: the error
    is Python's [ZeroDivisionError]. *)
Lemma resize_zero_side_counterexample :
  ~ fails_with_InvalidImage (Main.resize_image_to_fit (photo 0 10) 100 100).
Proof.
  intros (e & He & Hc). vm_compute in He. injection He as <-.
  discriminate Hc.
Qed.

(** C5, as amended.  A source of width or height 0 makes
    [resize_image_to_fit] raise from the division of the ratios:
    [ZeroDivisionError] (always so for width 0; for height 0 the width
    ratio is computed first and an [OverflowError] of that division would
    come first).  It never returns and there is no [InvalidImage] error;
    inside [create_framed_image] the error is caught and the source comes
    back unframed. *)
Theorem resize_zero_side (im : image) (W H : Z) :
  width im = 0 \/ height im = 0 ->
  (width im = 0 -> Main.resize_image_to_fit im W H = Raise ZeroDivisionError) /\
  (Main.resize_image_to_fit im W H = Raise ZeroDivisionError \/
   Main.resize_image_to_fit im W H = Raise OverflowError) /\
  ~ fails_with_InvalidImage (Main.resize_image_to_fit im W H) /\
  (forall E frame_path, Main.create_framed_image E im frame_path = im).
Proof.
  intros Hz. destruct (resize_degenerate im W H Hz) as [H0 Hr].
  split; [exact H0|]. split; [exact Hr|]. split.
  - intros (e & He & Hc). destruct Hr as [Hr|Hr]; rewrite Hr in He;
      injection He as <-; discriminate Hc.
  - intros E frame_path. unfold Main.create_framed_image, Main.compose.
    destruct (open E frame_path) as [f|]; [|reflexivity]. cbn [bind].
    destruct (if negb (mode f =? "RGBA")%string then convert E f "RGBA" else Ok f)
      as [f'|]; [|reflexivity].
    cbn [bind]. unfold size.
    destruct (resize_degenerate im (width f' - 2 * 50)
                (height f' - 2 * 50) Hz) as [_ [Hr'|Hr']];
      rewrite Hr'; reflexivity.
Qed.

Lemma resize_zero_side_witness :
  (width (photo 0 10) = 0 ->
   Main.resize_image_to_fit (photo 0 10) 100 100 = Raise ZeroDivisionError) /\
  (Main.resize_image_to_fit (photo 0 10) 100 100 = Raise ZeroDivisionError \/
   Main.resize_image_to_fit (photo 0 10) 100 100 = Raise OverflowError) /\
  ~ fails_with_InvalidImage (Main.resize_image_to_fit (photo 0 10) 100 100) /\
  (forall E frame_path, Main.create_framed_image E (photo 0 10) frame_path = photo 0 10).
Proof.
  apply (resize_zero_side (photo 0 10) 100 100). left. reflexivity.
Defined.

(** C7 as the specification states it fails on a 3 x 27 source in a
    13 x 121 box: the code returns 13 x 116, and no scale gives 13 from 3
    and 116 from 27 by a floor ([27 * 13 / 3] is 117, which the float
    product misses from below). *)
Lemma resize_ratio_counterexample :
  ~ resizer_keeps_ratio_up_to_floor (photo 3 27) 13 121.
Proof.
  intros Hc.
  assert (Hout : Main.resize_image_to_fit (photo 3 27) 13 121
                 = Ok (mkImage 13 116 "RGB" true (Resampled (Decoded "upload") 13 116)))
    by (vm_compute; reflexivity).
  destruct (Hc _ Hout) as [_ [H1 H2]]. simpl in H1, H2. lia.
Qed.

(** C7, as amended.  For source and box sides in [1 .. 2^25 - 1], an image
    the resizer returns fits the box in both directions (whatever the
    scale), and keeps the source's aspect ratio to within one pixel on each
    side: [- srcH <= outW * srcH - outH * srcW <= srcW].  The bounds are
    reached: the rounding of the binary64 products can take a side one
    pixel below the floor of the exact product. *)
Theorem resize_fits_and_keeps_ratio (im out : image) (W H : Z) :
  side_ok (width im) -> side_ok (height im) -> side_ok W -> side_ok H ->
  Main.resize_image_to_fit im W H = Ok out ->
  (width out <= W /\ height out <= H) /\
  - height im <= width out * height im - height out * width im <= width im.
Proof.
  intros Hw Hh HW HH Hout.
  destruct (new_size_spec _ _ _ _ Hw Hh HW HH)
    as (nw & nh & Hns & Hfw & Hfh & _ & _ & Hratio & _).
  rewrite resize_image_to_fit_new_size, Hns in Hout. cbn [bind] in Hout.
  destruct (resize (im) (nw, nh)) as [o|] eqn:Hr; [|discriminate].
  injection Hout as <-.
  apply resize_size in Hr. destruct Hr as [Hs _].
  unfold size in Hs. injection Hs as -> ->. lia.
Qed.

Lemma resize_fits_and_keeps_ratio_witness :
  (13 <= 13 /\ 116 <= 121) /\ - 27 <= 13 * 27 - 116 * 3 <= 3.
Proof.
  apply (resize_fits_and_keeps_ratio (photo 3 27)
           (mkImage 13 116 "RGB" true (Resampled (Decoded "upload") 13 116)) 13 121);
    try (unfold side_ok; simpl; lia).
  vm_compute. reflexivity.
Defined.

End Resizer.

(** ** The compositor *)

Module Compositor.
Import PIL Spec Samples ResizeFacts SpecFacts Resizer.

Lemma convert_inv (E : env) (im out : image) (m : string) :
  convert E im m = Ok out ->
  width out = width im /\ height out = height im /\ mode out = m /\
  intact out = true /\ intact im = true.
Proof.
  unfold convert, load. destruct (intact im) eqn:Hi; cbn [bind]; [|discriminate].
  destruct (String.eqb_spec (mode im) m) as [Em|Em].
  - intros [= <-]. auto.
  - destruct (convertible E (mode im) m); [|discriminate].
    intros [= <-]. auto.
Qed.

Lemma rgba_frame_inv (E : env) (f f' : image) :
  rgba_frame E f = Ok f' ->
  width f' = width f /\ height f' = height f /\ mode f' = "RGBA".
Proof.
  unfold rgba_frame. destruct (String.eqb_spec (mode f) "RGBA") as [Em|Em]; cbn [negb].
  - intros [= <-]. auto.
  - intros Hc. apply convert_inv in Hc. tauto.
Qed.

Lemma paste_inv (E : env) (dst src out : image) (x y : Z) (mask : option image) :
  paste E dst src (x, y) mask = Ok out ->
  width out = width dst /\ height out = height dst /\ mode out = mode dst /\
  intact out = true /\
  exists src_px,
    (src_px = pix src \/ src_px = Converted (mode dst) (pix src)) /\
    pix out = match mask with
              | None => Pasted (pix dst) src_px x y
              | Some mk => PastedMasked (pix dst) src_px x y (pix mk)
              end.
Proof.
  unfold paste. destruct (load src); cbn [bind]; [|discriminate].
  assert (Hsrc : forall src',
            (if (mode dst =? mode src)%string then Ok src
             else if (mode dst =? "RGB")%string &&
                     existsb (String.eqb (mode src)) ["LA"; "RGBA"; "RGBa"]
                  then Ok src else convert E src (mode dst)) = Ok src' ->
            pix src' = pix src \/ pix src' = Converted (mode dst) (pix src)).
  { intros src' Hs.
    destruct ((mode dst =? mode src)%string); [injection Hs as <-; auto|].
    destruct ((mode dst =? "RGB")%string &&
              existsb (String.eqb (mode src)) ["LA"; "RGBA"; "RGBa"]);
      [injection Hs as <-; auto|].
    unfold convert in Hs. destruct (load src); cbn [bind] in Hs; [|discriminate].
    destruct ((mode src =? mode dst)%string); [injection Hs as <-; auto|].
    destruct (convertible E (mode src) (mode dst)); [|discriminate].
    injection Hs as <-. auto. }
  match goal with |- context [bind ?c _] => destruct c as [src'|] eqn:Hc end;
    cbn [bind]; [|discriminate].
  specialize (Hsrc _ eq_refl).
  destruct mask as [mk|].
  - destruct (load mk); cbn [bind]; [|discriminate].
    destruct ((width mk =? width src) && (height mk =? height src)); [|discriminate].
    intros [= <-]. cbn. eauto 10.
  - intros [= <-]. cbn. eauto 10.
Qed.

(** Pasting an RGBA image into an RGB one takes its pixels as they are. *)
Lemma paste_rgba_into_rgb (E : env) (dst src out mk : image) (x y : Z) :
  mode dst = "RGB" -> mode src = "RGBA" ->
  paste E dst src (x, y) (Some mk) = Ok out ->
  pix out = PastedMasked (pix dst) (pix src) x y (pix mk).
Proof.
  intros Hd Hs. unfold paste. rewrite Hd, Hs. cbn [String.eqb Ascii.eqb Bool.eqb existsb andb orb].
  destruct (load src); cbn [bind]; [|discriminate].
  destruct (load mk); cbn [bind]; [|discriminate].
  destruct ((width mk =? width src) && (height mk =? height src)); [|discriminate].
  intros [= <-]. reflexivity.
Qed.

Lemma alpha_composite_inv (im1 im2 out : image) :
  alpha_composite im1 im2 = Ok out ->
  width out = width im1 /\ height out = height im1 /\ mode out = "RGBA" /\
  intact out = true /\ pix out = AlphaOver (pix im1) (pix im2).
Proof.
  unfold alpha_composite.
  destruct (load im1); cbn [bind]; [|discriminate].
  destruct (load im2); cbn [bind]; [|discriminate].
  match goal with |- context [if ?c then _ else _] => destruct c end; [|discriminate].
  intros [= <-]. cbn. auto.
Qed.

Lemma new_inv (m : string) (w h : Z) (color : list Z) (out : image) :
  new m (w, h) color = Ok out ->
  out = mkImage w h m true (Fill color).
Proof.
  unfold new. destruct ((w <? 0) || (h <? 0)); [discriminate|]. intros [= <-]. reflexivity.
Qed.

(** What a completed composition is made of. *)
Lemma compose_inv (E : env) (user_image : image) (frame_path : string) (r : image) :
  Main.compose E user_image frame_path = Ok r ->
  exists frame frame' resized src_px,
    (src_px = pix resized \/ src_px = Converted "RGBA" (pix resized)) /\
    open E frame_path = Ok frame /\
    rgba_frame E frame = Ok frame' /\
    intact frame = true /\
    Main.resize_image_to_fit user_image (width frame - 100) (height frame - 100)
      = Ok resized /\
    width r = width frame /\ height r = height frame /\ mode r = "RGB" /\
    let x_offset := (width frame - width resized) / 2 in
    let y_offset := (height frame - height resized) / 2 in
    let under := AlphaOver (Pasted (Fill Main.white_rgba) src_px x_offset y_offset)
                           (pix frame') in
    pix r = PastedMasked (Fill Main.white_rgb) under 0 0 (Band under 3).
Proof.
  unfold Main.compose. intros H.
  destruct (open E frame_path) as [frame|] eqn:Hopen; cbn [bind] in H; [|discriminate].
  fold (rgba_frame E frame) in H.
  destruct (rgba_frame E frame) as [frame'|] eqn:Hf; cbn [bind] in H; [|discriminate].
  destruct (rgba_frame_inv _ _ _ Hf) as (Hfw & Hfh & Hfm).
  unfold size in H. rewrite Hfw, Hfh in H.
  cbv zeta in H. change (2 * 50) with 100 in H.
  destruct (Main.resize_image_to_fit user_image (width frame - 100) (height frame - 100))
    as [resized|] eqn:Hres; cbn [bind] in H; [|discriminate].
  destruct (new "RGBA" (width frame, height frame) Main.white_rgba)
    as [canvas|] eqn:Hnew; cbn [bind] in H; [|discriminate].
  apply new_inv in Hnew. subst canvas.
  match type of H with bind ?c _ = _ => destruct c as [pasted|] eqn:Hp end;
    cbn [bind] in H; [|discriminate].
  apply paste_inv in Hp. cbn [width height mode pix] in Hp.
  destruct Hp as (Hpw & Hph & Hpm & Hpi & src_px & Hsrc & Hpp).
  destruct (alpha_composite pasted frame') as [blended|] eqn:Hac;
    cbn [bind] in H; [|discriminate].
  assert (Hfi : intact frame = true).
  { assert (Hi' : intact frame' = true).
    { unfold alpha_composite, load in Hac.
      destruct (intact pasted); cbn [bind] in Hac; [|discriminate].
      destruct (intact frame'); [reflexivity | discriminate]. }
    unfold rgba_frame in Hf. destruct (negb (mode frame =? "RGBA")%string).
    - apply convert_inv in Hf. tauto.
    - injection Hf as ->. assumption. }
  apply alpha_composite_inv in Hac. destruct Hac as (Haw & Hah & Ham & Hai & Hap).
  rewrite Ham, Haw, Hah, Hpw, Hph in H.
  destruct (new "RGB" (width frame, height frame) Main.white_rgb)
    as [final|] eqn:Hnew2; cbn [bind] in H; [|discriminate].
  apply new_inv in Hnew2. subst final.
  change (("RGBA" =? "RGBA")%string) with true in H. cbv iota in H.
  destruct (last_band blended) as [band|] eqn:Hb; cbn [bind] in H; [|discriminate].
  unfold last_band in Hb. destruct (load blended); cbn [bind] in Hb; [|discriminate].
  injection Hb as <-.
  match type of H with bind ?c _ = _ => destruct c as [out|] eqn:Hp2 end;
    cbn [bind] in H; [|discriminate].
  injection H as <-.
  assert (Hpix2 := Hp2).
  apply paste_rgba_into_rgb in Hpix2; [|reflexivity|exact Ham].
  apply paste_inv in Hp2. cbn [width height mode pix] in Hp2.
  destruct Hp2 as (Hw2 & Hh2 & Hm2 & _).
  exists frame, frame', resized, src_px.
  repeat (split; [assumption || reflexivity|]).
  cbv zeta. rewrite Hpix2. cbn [pix]. rewrite Ham, Hap, Hpp. reflexivity.
Qed.


Lemma rgba_frame_ok (E : env) (f : image) :
  intact f = true ->
  mode f = "RGBA" \/ convertible E (mode f) "RGBA" = true ->
  exists f', rgba_frame E f = Ok f' /\ width f' = width f /\ height f' = height f /\
             mode f' = "RGBA" /\ intact f' = true.
Proof.
  intros Hi Hm. unfold rgba_frame.
  destruct (String.eqb_spec (mode f) "RGBA") as [Em|Em]; cbn [negb].
  - exists f. auto.
  - destruct Hm as [Hm|Hm]; [contradiction|].
    unfold convert, load. rewrite Hi. cbn [bind].
    destruct (String.eqb_spec (mode f) "RGBA") as [|_]; [contradiction|].
    rewrite Hm. eexists. split; [reflexivity|]. auto.
Qed.

Lemma paste_ok (E : env) (dst src : image) (x y : Z) (mask : option image) :
  intact src = true ->
  mode dst = mode src \/ (mode dst = "RGB" /\ mode src = "RGBA") \/
  convertible E (mode src) (mode dst) = true ->
  (forall mk, mask = Some mk ->
     intact mk = true /\ width mk = width src /\ height mk = height src) ->
  exists out, paste E dst src (x, y) mask = Ok out.
Proof.
  intros Hi Hm Hmask. unfold paste, load. rewrite Hi. cbn [bind].
  assert (Hsrc : exists src',
            (if (mode dst =? mode src)%string then Ok src
             else if (mode dst =? "RGB")%string &&
                     existsb (String.eqb (mode src)) ["LA"; "RGBA"; "RGBa"]
                  then Ok src else convert E src (mode dst)) = Ok src').
  { destruct (String.eqb_spec (mode dst) (mode src)) as [Em|Em]; [eauto|].
    destruct Hm as [Hm|[[Hd Hs]|Hm]]; [contradiction| |].
    - rewrite Hd, Hs. cbn. eauto.
    - destruct ((mode dst =? "RGB")%string &&
                existsb (String.eqb (mode src)) ["LA"; "RGBA"; "RGBa"]); [eauto|].
      unfold convert, load. rewrite Hi. cbn [bind].
      destruct (String.eqb_spec (mode src) (mode dst)) as [Em'|_]; [eauto|].
      rewrite Hm. eauto. }
  destruct Hsrc as (src' & ->). cbn [bind].
  destruct mask as [mk|]; [|eauto].
  destruct (Hmask mk eq_refl) as (Hmi & Hmw & Hmh).
  rewrite Hmi. cbn [bind]. rewrite Hmw, Hmh, !Z.eqb_refl. cbn [andb]. eauto.
Qed.

(** When the frame loads and decodes and the resizer returns, every later
    step succeeds. *)
Lemma compose_ok (E : env) (user_image : image) (frame_path : string)
  (frame resized : image) :
  open E frame_path = Ok frame ->
  intact frame = true ->
  mode frame = "RGBA" \/ convertible E (mode frame) "RGBA" = true ->
  0 <= width frame -> 0 <= height frame ->
  Main.resize_image_to_fit user_image (width frame - 100) (height frame - 100)
    = Ok resized ->
  mode user_image = "RGBA" \/ convertible E (mode user_image) "RGBA" = true ->
  exists r, Main.compose E user_image frame_path = Ok r.
Proof.
  intros Hopen Hi Hm Hw Hh Hres Hum.
  destruct (rgba_frame_ok E frame Hi Hm) as (frame' & Hf & Hfw & Hfh & Hfm & Hfi).
  assert (Hr : mode resized = mode user_image /\ intact resized = true).
  { rewrite resize_image_to_fit_new_size in Hres.
    destruct (new_size _ _ _ _); cbn [bind] in Hres; [|discriminate].
    apply resize_size in Hres. tauto. }
  destruct Hr as [Hrm Hri].
  unfold Main.compose. rewrite Hopen. cbn [bind].
  fold (rgba_frame E frame). rewrite Hf. cbn [bind].
  unfold size. rewrite Hfw, Hfh. cbv zeta. change (2 * 50) with 100.
  rewrite Hres. cbn [bind].
  unfold new at 1.
  destruct (Z.ltb_spec (width frame) 0); [lia|].
  destruct (Z.ltb_spec (height frame) 0); [lia|]. cbn [orb bind].
  match goal with |- context [paste E ?d resized ?xy None] =>
    destruct (paste_ok E d resized (fst xy) (snd xy) None Hri) as (pasted & Hp)
  end.
  { cbn [mode]. rewrite Hrm. destruct Hum as [->|Hc]; auto. }
  { intros mk [=]. }
  cbn [fst snd] in Hp. rewrite Hp. cbn [bind].
  apply paste_inv in Hp. cbn [width height mode pix] in Hp.
  destruct Hp as (Hpw & Hph & Hpm & Hpi & _).
  assert (Hac : exists blended, alpha_composite pasted frame' = Ok blended).
  { unfold alpha_composite, load. rewrite Hpi, Hfi. cbn [bind].
    rewrite Hpm, Hfm, Hpw, Hph, Hfw, Hfh, !Z.eqb_refl. cbn. eauto. }
  destruct Hac as (blended & Hac). rewrite Hac. cbn [bind].
  apply alpha_composite_inv in Hac. destruct Hac as (Haw & Hah & Ham & Hai & _).
  rewrite Ham, Haw, Hah, Hpw, Hph.
  unfold new.
  destruct (Z.ltb_spec (width frame) 0); [lia|].
  destruct (Z.ltb_spec (height frame) 0); [lia|]. cbn [orb bind].
  change (("RGBA" =? "RGBA")%string) with true. cbv iota.
  unfold last_band, load. rewrite Hai. cbn [bind].
  match goal with |- context [paste E ?d blended (0, 0) (Some ?mk)] =>
    destruct (paste_ok E d blended 0 0 (Some mk) Hai) as (out & Hout)
  end.
  { cbn [mode]. right. left. auto. }
  { intros mk [= <-]. cbn. auto. }
  rewrite Hout. cbn [bind]. eauto.
Qed.

(** [create_framed_image] never raises: it returns the composition when
    every step succeeds and the unmodified source image as soon as one
    fails, be it a frame that cannot be opened, a frame whose pixels do not
    decode, a frame whose mode cannot be converted, or a resize that
    raises. *)
Lemma create_framed_image_cases (E : env) (user_image : image)
  (frame_path : string) :
  (forall e, Main.compose E user_image frame_path = Raise e ->
             Main.create_framed_image E user_image frame_path = user_image) /\
  (forall e, open E frame_path = Raise e ->
             Main.create_framed_image E user_image frame_path = user_image) /\
  (forall frame, open E frame_path = Ok frame -> intact frame = false ->
             Main.create_framed_image E user_image frame_path = user_image) /\
  (forall frame, open E frame_path = Ok frame ->
             mode frame <> "RGBA" -> convertible E (mode frame) "RGBA" = false ->
             Main.create_framed_image E user_image frame_path = user_image) /\
  (forall frame e, open E frame_path = Ok frame ->
             Main.resize_image_to_fit user_image (width frame - 100) (height frame - 100)
               = Raise e ->
             Main.create_framed_image E user_image frame_path = user_image) /\
  (Main.create_framed_image E user_image frame_path = user_image \/
   exists r, Main.compose E user_image frame_path = Ok r /\
             Main.create_framed_image E user_image frame_path = r).
Proof.
  assert (Hraise : forall e, Main.compose E user_image frame_path = Raise e ->
            Main.create_framed_image E user_image frame_path = user_image).
  { intros e He. unfold Main.create_framed_image. rewrite He. reflexivity. }
  assert (Hnot : (forall r, Main.compose E user_image frame_path <> Ok r) ->
            Main.create_framed_image E user_image frame_path = user_image).
  { intros Hn. destruct (Main.compose E user_image frame_path) as [r|e] eqn:Hc.
    - exfalso. apply (Hn r). reflexivity.
    - apply (Hraise e). reflexivity. }
  split; [exact Hraise|]. split; [|split; [|split; [|split]]].
  - intros e He. apply Hnot. intros r Hr.
    destruct (compose_inv _ _ _ _ Hr) as (f & _ & _ & _ & _ & Ho & _). congruence.
  - intros frame Ho Hi. apply Hnot. intros r Hr.
    destruct (compose_inv _ _ _ _ Hr) as (f & _ & _ & _ & _ & Ho' & _ & Hi' & _).
    congruence.
  - intros frame Ho Hm Hc. apply Hnot. intros r Hr.
    destruct (compose_inv _ _ _ _ Hr) as (f & f' & _ & _ & _ & Ho' & Hf & _).
    assert (f = frame) by congruence. subst f.
    unfold rgba_frame in Hf.
    destruct (String.eqb_spec (mode frame) "RGBA") as [|_]; [contradiction|].
    cbn [negb] in Hf. unfold convert in Hf.
    destruct (load frame); cbn [bind] in Hf; [|discriminate].
    destruct (String.eqb_spec (mode frame) "RGBA") as [|_]; [contradiction|].
    rewrite Hc in Hf. discriminate.
  - intros frame e Ho Hres. apply Hnot. intros r Hr.
    destruct (compose_inv _ _ _ _ Hr) as (f & _ & rs & _ & _ & Ho' & _ & _ & Hres' & _).
    assert (f = frame) by congruence. subst f. congruence.
  - unfold Main.create_framed_image.
    destruct (Main.compose E user_image frame_path) as [r|e]; cbn; eauto.
Qed.


(** C4 as the specification states it fails on a 3000 x 2 source and a
    1080 x 1080 frame that loads: the scaled height truncates to 0,
    [resize] refuses it, and the result is the source, 3000 x 2. *)
Lemma composite_size_counterexample :
  ~ composite_has_frame_size bundle (photo 3000 2) "yes.png".
Proof.
  intros Hc. specialize (Hc (frame_asset 1080 1080) eq_refl).
  vm_compute in Hc. discriminate Hc.
Qed.

(** C4, as amended.  For a frame that loads, whenever the composition
    completes [create_framed_image] returns an RGB image of exactly the
    frame's size, whatever the size of the source.  It completes when the
    frame decodes, has an alpha channel or converts to one and has an
    interior (the frame less 100 pixels each way) of sides in
    [1 .. 2^25 - 1], and the source decodes, is RGBA or converts to it, and
    has sides in [1 .. 2^25 - 1] whose exactly scaled sides are both of two
    pixels or more. *)
Theorem composite_size (E : env) (user_image : image) (frame_path : string)
  (frame : image) :
  open E frame_path = Ok frame ->
  (forall r,
     Main.compose E user_image frame_path = Ok r ->
     Main.create_framed_image E user_image frame_path = r /\
     size r = size frame /\ mode r = "RGB") /\
  (intact frame = true ->
   mode frame = "RGBA" \/ convertible E (mode frame) "RGBA" = true ->
   side_ok (width frame - 100) -> side_ok (height frame - 100) ->
   intact user_image = true ->
   mode user_image = "RGBA" \/ convertible E (mode user_image) "RGBA" = true ->
   side_ok (width user_image) -> side_ok (height user_image) ->
   2 <= fst (spec_size (width user_image) (height user_image)
                       (width frame - 100) (height frame - 100)) ->
   2 <= snd (spec_size (width user_image) (height user_image)
                       (width frame - 100) (height frame - 100)) ->
   exists r, Main.compose E user_image frame_path = Ok r).
Proof.
  intros Hopen. split.
  - intros r Hr. split.
    + unfold Main.create_framed_image. rewrite Hr. reflexivity.
    + destruct (compose_inv _ _ _ _ Hr)
        as (f & _ & _ & _ & _ & Ho & _ & _ & _ & Hw & Hh & Hm & _).
      assert (f = frame) by congruence. subst f.
      unfold size. rewrite Hw, Hh. auto.
  - intros Hfi Hfm Hfw Hfh Hui Hum Huw Huh H2w H2h.
    rewrite spec_size_exact in H2w, H2h by (apply Huw || apply Huh).
    destruct (resize_image_to_fit_exact user_image _ _ Hui Huw Huh Hfw Hfh)
      as (nw & nh & _ & Hew & Heh & Hok & _).
    destruct Hok as (resized & Hres & _); [lia | lia |].
    apply (compose_ok E user_image frame_path frame resized Hopen Hfi Hfm);
      try assumption; unfold side_ok in *; lia.
Qed.

Lemma composite_size_witness :
  exists r,
    Main.compose bundle (photo 2000 1000) "yes.png" = Ok r /\
    Main.create_framed_image bundle (photo 2000 1000) "yes.png" = r /\
    size r = (1080, 1080) /\ mode r = "RGB".
Proof.
  destruct (composite_size bundle (photo 2000 1000) "yes.png" (frame_asset 1080 1080)
              eq_refl) as [Hsize Hdone].
  destruct Hdone as (r & Hr).
  - reflexivity.
  - left. reflexivity.
  - unfold side_ok. simpl. lia.
  - unfold side_ok. simpl. lia.
  - reflexivity.
  - right. reflexivity.
  - unfold side_ok. simpl. lia.
  - unfold side_ok. simpl. lia.
  - vm_compute. discriminate.
  - vm_compute. discriminate.
  - exists r. split; [exact Hr | exact (Hsize r Hr)].
Defined.

(** C6.  In a composition that completes, the resized source is pasted on
    the white canvas at [((frame_width - user_width) // 2,
    (frame_height - user_height) // 2)], below the frame; the margin left
    on the right (bottom) exceeds the one on the left (top) by 0 or 1
    pixel. *)
Theorem composite_centered (E : env) (user_image : image) (frame_path : string)
  (r : image) :
  Main.compose E user_image frame_path = Ok r ->
  exists frame frame' resized src_px,
    open E frame_path = Ok frame /\
    rgba_frame E frame = Ok frame' /\
    Main.resize_image_to_fit user_image (width frame - 100) (height frame - 100)
      = Ok resized /\
    (src_px = pix resized \/ src_px = Converted "RGBA" (pix resized)) /\
    let x_offset := (width frame - width resized) / 2 in
    let y_offset := (height frame - height resized) / 2 in
    let under := AlphaOver (Pasted (Fill Main.white_rgba) src_px x_offset y_offset)
                           (pix frame') in
    pix r = PastedMasked (Fill Main.white_rgb) under 0 0 (Band under 3) /\
    0 <= (width frame - width resized - x_offset) - x_offset <= 1 /\
    0 <= (height frame - height resized - y_offset) - y_offset <= 1.
Proof.
  intros Hr.
  destruct (compose_inv _ _ _ _ Hr)
    as (f & f' & rs & px & Hpx & Ho & Hf & _ & Hres & _ & _ & _ & Hpix).
  exists f, f', rs, px.
  split; [exact Ho|]. split; [exact Hf|]. split; [exact Hres|]. split; [exact Hpx|].
  cbv zeta in *. split; [exact Hpix|].
  pose proof (Z.div_mod (width f - width rs) 2 ltac:(lia)).
  pose proof (Z.mod_pos_bound (width f - width rs) 2 ltac:(lia)).
  pose proof (Z.div_mod (height f - height rs) 2 ltac:(lia)).
  pose proof (Z.mod_pos_bound (height f - height rs) 2 ltac:(lia)).
  lia.
Qed.

Lemma composite_centered_witness :
  exists frame frame' resized src_px,
    open bundle "yes.png" = Ok frame /\
    rgba_frame bundle frame = Ok frame' /\
    Main.resize_image_to_fit (photo 2000 1000) (width frame - 100) (height frame - 100)
      = Ok resized /\
    (src_px = pix resized \/ src_px = Converted "RGBA" (pix resized)) /\
    let x_offset := (width frame - width resized) / 2 in
    let y_offset := (height frame - height resized) / 2 in
    let under := AlphaOver (Pasted (Fill Main.white_rgba) src_px x_offset y_offset)
                           (pix frame') in
    pix sample_composite
      = PastedMasked (Fill Main.white_rgb) under 0 0 (Band under 3) /\
    0 <= (width frame - width resized - x_offset) - x_offset <= 1 /\
    0 <= (height frame - height resized - y_offset) - y_offset <= 1.
Proof.
  apply (composite_centered bundle (photo 2000 1000) "yes.png" sample_composite).
  vm_compute. reflexivity.
Defined.

End Compositor.

(** ** The classifier *)

Module Classifier.
Import PIL.

(** The frame chosen is one of the two. *)
Lemma select_frame_cases (analysis_result : string) :
  (analysis_result = "yes" /\ Main.select_frame analysis_result = ("yes.png", "yes")) \/
  (analysis_result <> "yes" /\ Main.select_frame analysis_result = ("no.png", "no")).
Proof.
  unfold Main.select_frame.
  destruct (String.eqb_spec analysis_result "yes"); [left | right]; auto.
Qed.


End Classifier.

(** ** The harness *)

Module Harness.
Import PIL.

(** C9.  The harness's [create_framed_image] and [resize_image_to_fit]
    return what the handler's return, on every input. *)
Theorem harness_agrees :
  (forall (E : env) (user_image : image) (frame_path : string),
     TestLocal.create_framed_image E user_image frame_path
     = Main.create_framed_image E user_image frame_path) /\
  (forall (im : image) (target_width target_height : Z),
     TestLocal.resize_image_to_fit im target_width target_height
     = Main.resize_image_to_fit im target_width target_height).
Proof.
  split; intros; reflexivity.
Qed.

End Harness.

(** ** The handler *)

Module Handler.
Import PIL Web.

Lemma substring_all (t : string) : substring 0 (String.length t) t = t.
Proof. induction t as [|c t IH]; cbn; [reflexivity | rewrite IH; reflexivity]. Qed.

Lemma substring_app_skip (s t : string) (i k : nat) :
  substring (String.length s + i) k (s ++ t) = substring i k t.
Proof. induction s as [|c s IH]; cbn; [reflexivity | exact IH]. Qed.

Lemma length_app (s t : string) :
  String.length (s ++ t) = (String.length s + String.length t)%nat.
Proof. induction s as [|c s IH]; cbn; [reflexivity | rewrite IH; reflexivity]. Qed.

Lemma endswith_app (s t suffix : string) :
  PyStr.endswith t suffix = true -> PyStr.endswith (s ++ t) suffix = true.
Proof.
  unfold PyStr.endswith. intros H. apply andb_true_iff in H. destruct H as [Hk Hs].
  apply Nat.leb_le in Hk. apply andb_true_iff. rewrite length_app. split.
  - apply Nat.leb_le. lia.
  - replace (String.length s + String.length t - String.length suffix)%nat
      with (String.length s + (String.length t - String.length suffix))%nat by lia.
    rewrite substring_app_skip. exact Hs.
Qed.

Lemma endswith_self (t : string) : PyStr.endswith t t = true.
Proof.
  unfold PyStr.endswith. rewrite Nat.leb_refl, Nat.sub_diag, substring_all.
  cbn. apply String.eqb_refl.
Qed.

(** Every storage key ends in ".webp". *)
Lemma storage_key_webp (timestamp unique_id frame_type : string) :
  PyStr.endswith (Main.storage_key timestamp unique_id frame_type) ".webp" = true.
Proof.
  unfold Main.storage_key. repeat apply endswith_app. apply endswith_self.
Qed.

(** A publication that returns has written the object, encoded as WebP at
    quality 85, and made it public. *)
Lemma upload_to_gcs_inv (S : services) (im : image) (key url : string) (w w' : world) :
  Main.upload_to_gcs S im key w = (Ok url, w') ->
  lookup key (bucket w') = Some (mkBlob "WEBP" 85 true im true) /\
  trace w' = (trace w ++ [Stored key])%list /\
  url = public_url S key.
Proof.
  unfold Main.upload_to_gcs, catch, abind, fault, lift, log, put_blob, publish_blob,
    ret, raise.
  destruct (storage_fault S TempFile); [discriminate|].
  destruct (load im); [|discriminate].
  destruct (webp_accepts S im); [|discriminate].
  destruct (storage_fault S Encode); [discriminate|].
  destruct (storage_fault S Upload); [discriminate|].
  destruct (storage_fault S MakePublic); [discriminate|].
  destruct (storage_fault S Unlink); [discriminate|].
  intros [= <- <-]. cbn. rewrite String.eqb_refl. cbn. rewrite String.eqb_refl. auto.
Qed.

(** The handler answers every request: whatever is raised on the way, it
    returns a response. *)
Lemma process_photo_returns (S : services) (request : Web.request) (w : world) :
  exists resp w', Main.process_photo S request w = (Ok resp, w').
Proof.
  unfold Main.process_photo.
  destruct (String.eqb (method request) "OPTIONS"); [unfold ret; eauto|].
  unfold catch.
  match goal with |- context [match ?c w with _ => _ end] =>
    destruct (c w) as [[resp|e] w']
  end; unfold ret; eauto.
Qed.

(** C8.  A request whose method is neither POST nor OPTIONS is answered
    with status 405 and the error "Only POST method is allowed", a message
    no other rejection uses, and leaves the world as it was: no
    classification, no composition, no object stored. *)
Theorem non_post_rejected (S : services) (request : Web.request) (w : world) :
  method request <> "POST" -> method request <> "OPTIONS" ->
  exists resp,
    Main.process_photo S request w = (Ok resp, w) /\
    status resp = 405 /\
    resp_body resp = Json [("success", JBool false);
                           ("error", JStr "Only POST method is allowed")] /\
    "Only POST method is allowed" <> "No photo file provided" /\
    "Only POST method is allowed"
      <> "Invalid file type. Only JPG, JPEG, and PNG are allowed".
Proof.
  intros Hpost Hopt. unfold Main.process_photo.
  destruct (String.eqb_spec (method request) "OPTIONS") as [|_]; [contradiction|].
  unfold catch.
  destruct (String.eqb_spec (method request) "POST") as [|_]; [contradiction|].
  cbn [negb]. unfold ret. eexists. split; [reflexivity|].
  cbn. repeat split; discriminate.
Qed.

Lemma non_post_rejected_witness :
  exists resp,
    Main.process_photo (mkServices Samples.bundle (fun _ => Ok "yes") "20240101_120000"
                          "123e4567-e89b-12d3-a456-426614174000" (fun _ => None)
                          (fun _ => false) (fun _ => ValueError) (fun key => key))
      (mkRequest "GET" []) (mkWorld [] []) = (Ok resp, mkWorld [] []) /\
    status resp = 405 /\
    resp_body resp = Json [("success", JBool false);
                           ("error", JStr "Only POST method is allowed")] /\
    "Only POST method is allowed" <> "No photo file provided" /\
    "Only POST method is allowed"
      <> "Invalid file type. Only JPG, JPEG, and PNG are allowed".
Proof.
  apply (non_post_rejected _ (mkRequest "GET" []) (mkWorld [] [])); discriminate.
Defined.


(** C10.  A request answered with status 200 has stored one object: the
    framed image encoded as WebP at quality 85 (optimized) and made public,
    under the key made of [framed_photos/], the timestamp, the first 8
    characters of the UUID and the verdict, joined by underscores, and
    [.webp].  The key is built from the clock, the UUID and
    the verdict alone and ends in ".webp" whatever the name of the upload,
    which had to end in .jpg, .jpeg or .png for the request to get there. *)
Theorem stored_object_is_webp (S : services) (request : Web.request)
  (w w' : world) (resp : response) :
  Main.process_photo S request w = (Ok resp, w') ->
  status resp = 200 ->
  exists (photo_file : upload) (verdict : string) (framed : image),
    lookup "photo" (req_files request) = Some photo_file /\
    PyStr.endswith_any (PyStr.lower (filename photo_file)) [".jpg"; ".jpeg"; ".png"]
      = true /\
    (verdict = "yes" \/ verdict = "no") /\
    let key := Main.storage_key (now S) (PyStr.take 8 (uuid4 S)) verdict in
    lookup key (bucket w') = Some (mkBlob "WEBP" 85 true framed true) /\
    In (Stored key) (trace w') /\
    PyStr.endswith key ".webp" = true /\
    key = "framed_photos/" ++ now S ++ "_" ++ PyStr.take 8 (uuid4 S) ++ "_"
          ++ verdict ++ ".webp".
Proof.
  unfold Main.process_photo. intros Hrun H200.
  destruct (String.eqb (method request) "OPTIONS").
  { injection Hrun as <- <-. discriminate H200. }
  unfold catch in Hrun.
  destruct (negb (String.eqb (method request) "POST")).
  { injection Hrun as <- <-. discriminate H200. }
  destruct (lookup "photo" (req_files request)) as [photo_file|].
  2: { injection Hrun as <- <-. discriminate H200. }
  destruct (PyStr.endswith_any (PyStr.lower (filename photo_file))
              [".jpg"; ".jpeg"; ".png"]) eqn:Hext; cbn [negb] in Hrun.
  2: { injection Hrun as <- <-. discriminate H200. }
  unfold abind, lift, log, ret in Hrun.
  destruct (content photo_file) as [image0|].
  2: { injection Hrun as <- <-. discriminate H200. }
  destruct (if negb (String.eqb (mode image0) "RGB")
            then convert (pil S) image0 "RGB" else Ok image0) as [image|].
  2: { injection Hrun as <- <-. discriminate H200. }
  assert (Hyn : snd (Main.select_frame (Main.analyze_image_with_gemini (gemini S) image))
                = "yes" \/
                snd (Main.select_frame (Main.analyze_image_with_gemini (gemini S) image))
                = "no").
  { destruct (Classifier.select_frame_cases
                (Main.analyze_image_with_gemini (gemini S) image)) as [[_ ->]|[_ ->]];
      [left | right]; reflexivity. }
  destruct (Main.select_frame (Main.analyze_image_with_gemini (gemini S) image))
    as [frame_path frame_type] eqn:Hsel.
  cbn [snd] in Hyn.
  match type of Hrun with
  | context [Main.upload_to_gcs S ?im ?key ?w0] =>
      destruct (Main.upload_to_gcs S im key w0) as [[url|e] w1] eqn:Hup
  end.
  2: { injection Hrun as <- <-. discriminate H200. }
  injection Hrun as <- <-.
  apply upload_to_gcs_inv in Hup. destruct Hup as (Hb & Ht & _).
  eexists photo_file, frame_type, _.
  split; [reflexivity|]. split; [exact Hext|]. split; [exact Hyn|].
  cbv zeta. split; [exact Hb|]. split.
  - rewrite Ht. apply in_or_app. right. left. reflexivity.
  - split; [apply storage_key_webp | reflexivity].
Qed.

Lemma stored_object_is_webp_witness :
  exists (photo_file : upload) (verdict : string) (framed : image),
    lookup "photo" (req_files Samples.sample_request) = Some photo_file /\
    PyStr.endswith_any (PyStr.lower (filename photo_file)) [".jpg"; ".jpeg"; ".png"]
      = true /\
    (verdict = "yes" \/ verdict = "no") /\
    let key := Main.storage_key (now Samples.sample_services)
                 (PyStr.take 8 (uuid4 Samples.sample_services)) verdict in
    lookup key (bucket Samples.sample_world) = Some (mkBlob "WEBP" 85 true framed true) /\
    In (Stored key) (trace Samples.sample_world) /\
    PyStr.endswith key ".webp" = true /\
    key = "framed_photos/" ++ now Samples.sample_services ++ "_"
          ++ PyStr.take 8 (uuid4 Samples.sample_services) ++ "_" ++ verdict ++ ".webp".
Proof.
  apply (stored_object_is_webp Samples.sample_services Samples.sample_request
           (mkWorld [] []) Samples.sample_world Samples.sample_response).
  - vm_compute. reflexivity.
  - reflexivity.
Defined.

End Handler.

(* ================================================================== *)
(** * Further properties of the code

    What the functions of the two files do beyond the statements above:
    the normal form of the classifier's result, the resizer at the edges
    of its domain, the margins of the composition, the publication and its
    failures, the handler's answers, and the harness.  The numbered
    properties are [X1] to [X19]; the compositor's fallback is followed up
    to the answer of the request in [Fallback], on the handler's lemmas. *)

(** ** Strings *)

Module StrFacts.
Import PyStr.

Lemma lower_char_idem (c : ascii) : lower_char (lower_char c) = lower_char c.
Proof. destruct c as [[] [] [] [] [] [] [] []]; reflexivity. Qed.

Lemma is_space_lower_char (c : ascii) : is_space (lower_char c) = is_space c.
Proof. destruct c as [[] [] [] [] [] [] [] []]; reflexivity. Qed.

Lemma lower_idem (s : string) : lower (lower s) = lower s.
Proof.
  induction s as [|c s IH]; cbn; [reflexivity|].
  rewrite lower_char_idem, IH. reflexivity.
Qed.

Lemma lower_app (s t : string) : lower (s ++ t) = lower s ++ lower t.
Proof. induction s as [|c s IH]; cbn; [reflexivity | rewrite IH; reflexivity]. Qed.

Lemma lstrip_lower (s : string) : lstrip (lower s) = lower (lstrip s).
Proof.
  induction s as [|c s IH]; cbn; [reflexivity|].
  rewrite is_space_lower_char. destruct (is_space c); [exact IH | reflexivity].
Qed.

Lemma rstrip_lower (s : string) : rstrip (lower s) = lower (rstrip s).
Proof.
  induction s as [|c s IH]; cbn; [reflexivity|].
  rewrite IH, is_space_lower_char.
  destruct (rstrip s); cbn; [destruct (is_space c)|]; reflexivity.
Qed.

(** Trimming and lower-casing commute. *)
Lemma strip_lower (s : string) : strip (lower s) = lower (strip s).
Proof. unfold strip. rewrite lstrip_lower, rstrip_lower. reflexivity. Qed.

Lemma rstrip_idem (s : string) : rstrip (rstrip s) = rstrip s.
Proof.
  induction s as [|c s IH]; cbn; [reflexivity|].
  destruct (rstrip s) as [|d t] eqn:E.
  - destruct (is_space c) eqn:Ec; cbn; [reflexivity|]. rewrite Ec. reflexivity.
  - cbn [rstrip]. cbn [rstrip] in IH. rewrite IH. reflexivity.
Qed.

Lemma lstrip_headed (s : string) : headed (lstrip s).
Proof.
  induction s as [|c s IH]; cbn; [exact I|].
  destruct (is_space c) eqn:E; [exact IH | exact E].
Qed.

Lemma headed_lstrip (s : string) : headed s -> lstrip s = s.
Proof. destruct s as [|c s]; cbn; [reflexivity|]. intros ->. reflexivity. Qed.

Lemma rstrip_headed (s : string) : headed s -> headed (rstrip s).
Proof.
  destruct s as [|c s]; cbn; [trivial|]. intros Hc.
  destruct (rstrip s); [rewrite Hc|]; exact Hc.
Qed.

(** Trimming twice is trimming once. *)
Lemma strip_idem (s : string) : strip (strip s) = strip s.
Proof.
  unfold strip.
  rewrite (headed_lstrip (rstrip (lstrip s)))
    by (apply rstrip_headed, lstrip_headed).
  apply rstrip_idem.
Qed.

Lemma lstrip_spaces (ws s : string) :
  all_space ws = true -> lstrip (ws ++ s) = lstrip s.
Proof.
  induction ws as [|c ws IH]; cbn; [reflexivity|].
  intros H. apply andb_true_iff in H. destruct H as [Hc Hws].
  rewrite Hc. exact (IH Hws).
Qed.

Lemma rstrip_all_space (ws : string) : all_space ws = true -> rstrip ws = "".
Proof.
  induction ws as [|c ws IH]; cbn; [reflexivity|].
  intros H. apply andb_true_iff in H. destruct H as [Hc Hws].
  rewrite (IH Hws), Hc. reflexivity.
Qed.

Lemma rstrip_spaces (s ws : string) :
  all_space ws = true -> rstrip (s ++ ws) = rstrip s.
Proof.
  intros Hws. induction s as [|c s IH]; cbn.
  - apply rstrip_all_space. exact Hws.
  - rewrite IH. reflexivity.
Qed.

Lemma lstrip_all_space (ws : string) : all_space ws = true -> lstrip ws = "".
Proof.
  induction ws as [|c ws IH]; cbn; [reflexivity|].
  intros H. apply andb_true_iff in H. destruct H as [Hc Hws].
  rewrite Hc. exact (IH Hws).
Qed.

(** Spaces around a text do not change what trimming leaves. *)
Lemma strip_spaces (ws1 t ws2 : string) :
  all_space ws1 = true -> all_space ws2 = true ->
  strip (ws1 ++ t ++ ws2) = strip t.
Proof.
  intros H1 H2. unfold strip. rewrite lstrip_spaces by assumption.
  induction t as [|c t IH]; cbn.
  - rewrite lstrip_all_space by assumption. reflexivity.
  - destruct (is_space c); [exact IH|].
    change (String c (t ++ ws2)) with (String c t ++ ws2).
    apply rstrip_spaces. assumption.
Qed.

End StrFacts.

(** ** The classifier, further *)

Module ClassifierMore.
Import PIL StrFacts.

(** X1.  What [analyze_image_with_gemini] returns is already normalised:
    lower-casing or trimming it again changes nothing, whatever the remote
    call did. *)
Theorem analysis_result_normalised (remote : image -> result string) (im : image) :
  PyStr.lower (Main.analyze_image_with_gemini remote im)
    = Main.analyze_image_with_gemini remote im /\
  PyStr.strip (Main.analyze_image_with_gemini remote im)
    = Main.analyze_image_with_gemini remote im.
Proof.
  unfold Main.analyze_image_with_gemini.
  destruct (remote im) as [t|e]; cbn [bind try_except]; [|split; reflexivity].
  split; [apply lower_idem|].
  rewrite strip_lower, strip_idem. reflexivity.
Qed.

(** X2.  The result depends on the response text only up to letter case and
    surrounding white space. *)
Theorem analysis_ignores_case_and_spaces
  (remote remote' : image -> result string) (im : image)
  (ws1 t ws2 t' : string) :
  remote im = Ok (ws1 ++ t ++ ws2) -> remote' im = Ok t' ->
  all_space ws1 = true -> all_space ws2 = true ->
  PyStr.lower t = PyStr.lower t' ->
  Main.analyze_image_with_gemini remote im = Main.analyze_image_with_gemini remote' im.
Proof.
  intros Hr Hr' H1 H2 Hl. unfold Main.analyze_image_with_gemini.
  rewrite Hr, Hr'. cbn [bind try_except].
  rewrite strip_spaces by assumption.
  rewrite <- !strip_lower, Hl. reflexivity.
Qed.

Lemma analysis_ignores_case_and_spaces_witness :
  Main.analyze_image_with_gemini
    (fun _ => Ok ("  " ++ "Yes" ++ String (ascii_of_nat 10) "")) (Samples.photo 4 3)
  = Main.analyze_image_with_gemini (fun _ => Ok "YES") (Samples.photo 4 3).
Proof.
  apply (analysis_ignores_case_and_spaces _ _ _ "  " "Yes" (String (ascii_of_nat 10) "")
           "YES"); reflexivity.
Defined.

End ClassifierMore.

(** ** Signs through the float operations *)

Module SignFacts.
Import FloatFacts.

Lemma rne_nonneg (N D : Z) : 0 <= N -> 0 < D -> 0 <= rne N D.
Proof.
  intros HN HD. destruct (rne_int_bounds N D 0 HN HD) as [H _]. apply H. lia.
Qed.

(** A rounded quotient is finite with the sign asked for, or the infinity
    of that sign. *)
Lemma round_frac_sign (neg : bool) (n d : Z) :
  0 <= n -> 0 < d ->
  (exists m e, round_frac neg n d = Fin m e /\ (if neg then m <= 0 else 0 <= m)) \/
  round_frac neg n d = Inf neg.
Proof.
  intros Hn Hd. unfold round_frac.
  destruct (n =? 0); [left; exists 0, 0; split; [reflexivity | destruct neg; lia]|].
  set (e := Z.max (ilog2_frac n d - 52) (-1074)).
  assert (Hm : 0 <= rne (n * 2 ^ Z.max 0 (- e)) (d * 2 ^ Z.max 0 e)).
  { apply rne_nonneg.
    - apply Z.mul_nonneg_nonneg; [lia | apply Z.pow_nonneg; lia].
    - apply Z.mul_pos_pos; [lia | apply Z.pow_pos_nonneg; lia]. }
  set (m := rne (n * 2 ^ Z.max 0 (- e)) (d * 2 ^ Z.max 0 e)) in *.
  destruct (m =? 2 ^ 53).
  - destruct (971 <? e + 1); [right; reflexivity|].
    change (2 ^ 52 =? 0) with false. cbv iota. left. eexists _, _.
    split; [reflexivity|]. destruct neg; cbn; lia.
  - destruct (971 <? e); [right; reflexivity|].
    destruct (m =? 0); left.
    + exists 0, 0. split; [reflexivity | destruct neg; lia].
    + eexists _, _. split; [reflexivity|]. destruct neg; lia.
Qed.

(** A quotient that is returned is a finite float. *)
Lemma int_truediv_fin (a b : Z) (q : float) :
  int_truediv a b = Ok q -> exists m e, q = Fin m e.
Proof.
  unfold int_truediv. destruct (Z.eqb_spec b 0) as [|Hb]; [discriminate|].
  destruct (round_frac_sign (xorb (a <? 0) (b <? 0)) (Z.abs a) (Z.abs b))
    as [(m & e & -> & _)| ->]; try lia; [|discriminate].
  intros [= <-]. eauto.
Qed.

Lemma int_truediv_nonpos (a b : Z) (q : float) :
  a <= 0 -> 0 < b -> int_truediv a b = Ok q -> nonpositive q.
Proof.
  intros Ha Hb. unfold int_truediv.
  destruct (Z.eqb_spec b 0) as [|_]; [lia|].
  destruct (Z.ltb_spec b 0); [lia|].
  destruct (round_frac_sign (xorb (a <? 0) false) (Z.abs a) (Z.abs b))
    as [(m & e & Hr & Hs)| Hr]; try lia; rewrite Hr; [|discriminate].
  intros [= <-]. exists m, e. split; [reflexivity|].
  destruct (Z.ltb_spec a 0); cbn in Hs; [exact Hs|].
  assert (a = 0) by lia. subst a. cbn in Hr. injection Hr as <- <-. lia.
Qed.

Lemma F2R_sign (m e : Z) : (F2R (Fin m e) <= 0)%R <-> m <= 0.
Proof.
  cbn. pose proof (pow2_pos e) as P. split; intros H.
  - destruct (Z_le_gt_dec m 0) as [|Hgt]; [assumption|].
    assert (0 < IZR m)%R by (apply IZR_lt; lia).
    assert (0 < IZR m * powerRZ 2 e)%R by (apply Rmult_lt_0_compat; assumption).
    lra.
  - apply IZR_le in H. nra.
Qed.

(** The smaller of two finite floats is zero or below when one of them
    is. *)
Lemma py_min_nonpos (x y : float) :
  (exists m e, x = Fin m e) -> (exists m e, y = Fin m e) ->
  nonpositive x \/ nonpositive y -> nonpositive (py_min x y).
Proof.
  intros (mx & ex & ->) (my & ey & ->) H. unfold py_min.
  destruct (float_lt (Fin my ey) (Fin mx ex)) eqn:E.
  - apply float_lt_spec in E. destruct H as [H|H]; [|exact H].
    destruct H as (m & e & [= <- <-] & Hm).
    exists my, ey. split; [reflexivity|].
    apply (proj1 (F2R_sign my ey)). apply (proj2 (F2R_sign mx ex)) in Hm. lra.
  - destruct H as [H|H]; [exact H|].
    destruct H as (m & e & [= <- <-] & Hm).
    exists mx, ex. split; [reflexivity|].
    apply (proj1 (F2R_sign mx ex)). apply (proj2 (F2R_sign my ey)) in Hm.
    destruct (Rle_or_lt (F2R (Fin mx ex)) (F2R (Fin my ey))) as [Hle|Hlt]; [lra|].
    apply float_lt_spec in Hlt. congruence.
Qed.

(** A positive side times a float that is zero or below, truncated: zero
    or below, if anything. *)
Lemma scaled_side_nonpos (a : Z) (s : float) (t : Z) :
  0 < a -> nonpositive s ->
  (p <- int_mul_float a s ;; int_of_float p) = Ok t -> t <= 0.
Proof.
  intros Ha (ms & es & -> & Hms). unfold int_mul_float, float_of_int.
  destruct (Z.ltb_spec a 0); [lia|].
  destruct (round_frac_sign false (Z.abs a) 1) as [(ma & ea & -> & Hma)| ->];
    try lia; cbn [bind]; [|discriminate].
  cbn [float_mul].
  destruct (Z.ltb_spec ma 0); [lia|]. cbn [xorb].
  match goal with |- context [round_frac ?neg ?n ?d] =>
    assert (Hcase : (exists m e, round_frac neg n d = Fin m e /\ m <= 0) \/
                    round_frac neg n d = Inf true)
  end.
  { destruct (Z.ltb_spec ms 0).
    - match goal with |- context [round_frac true ?n ?d] =>
        destruct (round_frac_sign true n d) as [(m & e & Hr & Hm)|Hr]
      end; try (apply Z.pow_pos_nonneg; lia);
        try (apply Z.mul_nonneg_nonneg; [lia | apply Z.pow_nonneg; lia]); eauto.
    - assert (ms = 0) by lia. subst ms. rewrite Z.mul_0_r. cbn.
      left. exists 0, 0. split; [reflexivity | lia]. }
  destruct Hcase as [(m & e & -> & Hm)| ->]; cbn; [|discriminate].
  intros [= <-]. destruct (Z.leb_spec 0 e) as [He|He].
  - assert (0 <= 2 ^ e) by (apply Z.pow_nonneg; lia). nia.
  - assert (HK : 0 < 2 ^ (- e)) by (apply Z.pow_pos_nonneg; lia).
    replace m with (- (- m)) by lia. rewrite Z.quot_opp_l by lia.
    pose proof (Z.quot_pos (- m) (2 ^ (- e)) ltac:(lia) HK). lia.
Qed.

End SignFacts.

(** ** The resizer, further *)

Module ResizerMore.
Import PIL Samples FloatFacts ResizeFacts SignFacts Resizer.
Local Open Scope Z_scope.

(** For a box with a side of zero or less, whatever size is computed has
    no positive side. *)
Lemma new_size_nonpos (ow oh W H nw nh : Z) :
  0 < ow -> 0 < oh -> W <= 0 \/ H <= 0 ->
  new_size ow oh W H = Ok (nw, nh) -> nw <= 0 /\ nh <= 0.
Proof.
  intros Hw Hh Hbox. unfold new_size.
  destruct (int_truediv W ow) as [rw|] eqn:Erw; cbn [bind]; [|discriminate].
  destruct (int_truediv H oh) as [rh|] eqn:Erh; cbn [bind]; [|discriminate].
  assert (Hs : nonpositive (py_min rw rh)).
  { apply py_min_nonpos.
    - eapply int_truediv_fin; eassumption.
    - eapply int_truediv_fin; eassumption.
    - destruct Hbox; [left; apply (int_truediv_nonpos W ow)
                     | right; apply (int_truediv_nonpos H oh)]; assumption. }
  destruct (p <- int_mul_float ow (py_min rw rh) ;; int_of_float p) as [tw|] eqn:Etw;
    cbn [bind]; [|discriminate].
  destruct (p <- int_mul_float oh (py_min rw rh) ;; int_of_float p) as [th|] eqn:Eth;
    cbn [bind]; [|discriminate].
  intros [= <- <-].
  split; [apply (scaled_side_nonpos ow (py_min rw rh))
         | apply (scaled_side_nonpos oh (py_min rw rh))]; assumption.
Qed.

Lemma resize_raises_without_box (im : image) (W H : Z) :
  0 <= width im -> 0 <= height im -> W <= 0 \/ H <= 0 ->
  exists e, Main.resize_image_to_fit im W H = Raise e.
Proof.
  intros Hw Hh Hbox.
  destruct (Main.resize_image_to_fit im W H) as [out|e] eqn:Hr; [|eauto].
  exfalso. rewrite resize_image_to_fit_new_size in Hr.
  destruct (new_size (width im) (height im) W H) as [[nw nh]|] eqn:Hns;
    cbn [bind] in Hr; [|discriminate].
  assert (Hpos : 0 < width im /\ 0 < height im).
  { unfold new_size in Hns.
    destruct (int_truediv_cases W (width im)) as [(q & Hq & Hnz)|[[Hq _]|[Hq _]]];
      rewrite Hq in Hns; cbn [bind] in Hns; try discriminate.
    destruct (int_truediv_cases H (height im)) as [(q' & Hq' & Hnz')|[[Hq' _]|[Hq' _]]];
      rewrite Hq' in Hns; cbn [bind] in Hns; try discriminate.
    lia. }
  destruct (new_size_nonpos _ _ _ _ _ _ (proj1 Hpos) (proj2 Hpos) Hbox Hns) as [Hnw Hnh].
  unfold resize in Hr. destruct (load im); cbn [bind] in Hr; [|discriminate].
  destruct (Z.eqb_spec nw (width im)); [lia|]. cbn [andb] in Hr.
  destruct (Z.ltb_spec nw 1); [|lia]. cbn [orb] in Hr. discriminate.
Qed.

(** X3.  A box with a width or a height of zero or less makes
    [resize_image_to_fit] raise, for every image: nothing is returned. *)
Theorem resize_needs_positive_box (im : image) (W H : Z) :
  0 <= width im -> 0 <= height im -> W <= 0 \/ H <= 0 ->
  exists e, Main.resize_image_to_fit im W H = Raise e.
Proof. apply resize_raises_without_box. Qed.

(** What the resizer returns fits the box. *)
Lemma resize_within_box (im out : image) (W H : Z) :
  side_ok (width im) -> side_ok (height im) -> side_ok W -> side_ok H ->
  Main.resize_image_to_fit im W H = Ok out ->
  0 <= width out <= W /\ 0 <= height out <= H.
Proof.
  intros Hw Hh HW HH Hout.
  destruct (new_size_spec _ _ _ _ Hw Hh HW HH) as (nw & nh & Hns & Hfw & Hfh & _).
  rewrite resize_image_to_fit_new_size, Hns in Hout. cbn [bind] in Hout.
  apply resize_size in Hout. destruct Hout as [Hs _].
  unfold size in Hs. injection Hs as -> ->. lia.
Qed.

Lemma resize_needs_positive_box_witness :
  exists e, Main.resize_image_to_fit (photo 640 480) (-20) 300 = Raise e.
Proof.
  apply (resize_needs_positive_box (photo 640 480) (-20) 300); simpl; lia.
Defined.

(** X4.  An image [resize_image_to_fit] returns is never empty: both sides
    are of one pixel or more; it has the mode of the source, whose pixels
    decoded, and it is the source itself or a resampling of it at the
    returned size. *)
Theorem resize_returns_nonempty (im out : image) (W H : Z) :
  0 <= width im -> 0 <= height im ->
  Main.resize_image_to_fit im W H = Ok out ->
  1 <= width out /\ 1 <= height out /\ mode out = mode im /\ intact im = true /\
  (out = im \/ pix out = Resampled (pix im) (width out) (height out)).
Proof.
  intros Hw Hh Hr. rewrite resize_image_to_fit_new_size in Hr.
  destruct (new_size (width im) (height im) W H) as [[nw nh]|] eqn:Hns;
    cbn [bind] in Hr; [|discriminate].
  assert (Hpos : 0 < width im /\ 0 < height im).
  { unfold new_size in Hns.
    destruct (int_truediv_cases W (width im)) as [(q & Hq & Hnz)|[[Hq _]|[Hq _]]];
      rewrite Hq in Hns; cbn [bind] in Hns; try discriminate.
    destruct (int_truediv_cases H (height im)) as [(q' & Hq' & Hnz')|[[Hq' _]|[Hq' _]]];
      rewrite Hq' in Hns; cbn [bind] in Hns; try discriminate.
    lia. }
  unfold resize, load in Hr. destruct (intact im); cbn [bind] in Hr; [|discriminate].
  destruct ((nw =? width im) && (nh =? height im)) eqn:E.
  - injection Hr as <-. repeat split; try lia; auto.
  - destruct (Z.ltb_spec nw 1); [discriminate|].
    destruct (Z.ltb_spec nh 1); [discriminate|]. cbn [orb] in Hr.
    injection Hr as <-. cbn. repeat split; auto.
Qed.

Lemma resize_returns_nonempty_witness :
  1 <= 13 /\ 1 <= 116 /\ "RGB" = "RGB" /\ true = true /\
  (mkImage 13 116 "RGB" true (Resampled (Decoded "upload") 13 116) = photo 3 27 \/
   Resampled (Decoded "upload") 13 116 = Resampled (Decoded "upload") 13 116).
Proof.
  apply (resize_returns_nonempty (photo 3 27)
           (mkImage 13 116 "RGB" true (Resampled (Decoded "upload") 13 116)) 13 121);
    [simpl; lia | simpl; lia | vm_compute; reflexivity].
Defined.


Local Open Scope R_scope.

(** A float worth the integer [k], times a side, truncated: the exact
    product. *)
Lemma scaled_side_exact (a k : Z) (s : float) :
  side_ok a -> posfin s -> (1 <= k)%Z -> (a * k < 2 ^ 25)%Z -> F2R s = IZR k ->
  (p <- int_mul_float a s ;; int_of_float p)%py = Ok (a * k)%Z.
Proof.
  intros Ha Hs Hk Hak Hv. pose proof (side_ok_R a Ha) as Har.
  destruct (float_of_int_exact a) as (xa & Hfa & Hpa & Hva).
  { destruct Ha. split; [lia|]. eapply Z.lt_trans; [eassumption|reflexivity]. }
  unfold int_mul_float. rewrite Hfa. cbn [bind].
  destruct (float_mul_pos xa s Hpa Hs) as (n & d & Hn & Hd & Hmul & Hnd).
  rewrite Hmul, Hva, Hv, <- mult_IZR in *.
  assert (Hprod : 1 <= IZR (a * k) < 33554432).
  { split; [apply IZR_le; destruct Ha; nia|].
    change 33554432 with (IZR (2 ^ 25)). apply IZR_lt. assumption. }
  assert (Hrange : powerRZ 2 (-1022) <= IZR n / IZR d < powerRZ 2 1023).
  { rewrite Hnd.
    pose proof (pow2_le (-1022) 0 ltac:(lia)) as H1.
    pose proof (pow2_le 25 1023 ltac:(lia)) as H2.
    rewrite <- (pow2_IZR 25) in H2 by lia. simpl (powerRZ 2 0) in H1.
    change (IZR (2 ^ 25)) with 33554432 in H2. lra. }
  pose proof (round_frac_posfin n d Hn Hd Hrange) as Hpp.
  assert (Hq : 1 <= IZR n / IZR d < 9007199254740992) by (rewrite Hnd; lra).
  pose proof (round_frac_int_ge n d (a * k) Hn Hd Hq ltac:(rewrite Hnd; lra)) as Hge.
  pose proof (round_frac_int_le n d (a * k) Hn Hd Hq ltac:(rewrite Hnd; lra)) as Hle.
  destruct (int_of_float_pos _ Hpp) as (t & Ht & Hfl).
  rewrite Ht. f_equal.
  assert (IZR t < IZR (a * k + 1)) by (rewrite plus_IZR; lra).
  assert (IZR (a * k) < IZR (t + 1)) by (rewrite plus_IZR; lra).
  apply lt_IZR in H, H0. lia.
Qed.

(** A quotient that is exactly the integer [k] is computed exactly, and one
    that is [k] or more is computed as [k] or more. *)
Lemma ratio_int (a b k : Z) :
  side_ok a -> side_ok b -> (1 <= k)%Z -> (k * b <= a)%Z ->
  posfin (round_frac false a b) /\
  IZR k <= F2R (round_frac false a b) /\
  ((k * b = a)%Z -> F2R (round_frac false a b) = IZR k).
Proof.
  intros Ha Hb Hk Hkb.
  pose proof (side_ok_R a Ha) as Har. pose proof (side_ok_R b Hb) as Hbr.
  assert (Hwide : forall z, side_ok z -> (0 < z < 2 ^ 62)%Z).
  { intros z [H1 H2]. split; [lia|]. eapply Z.lt_trans; [eassumption|reflexivity]. }
  pose proof (quotient_range a b (Hwide _ Ha) (Hwide _ Hb)) as Hrange.
  assert (Hkq : IZR k <= IZR a / IZR b).
  { apply Rmult_le_reg_r with (IZR b); [lra|].
    unfold Rdiv. rewrite Rmult_assoc, Rinv_l, Rmult_1_r by lra.
    rewrite <- mult_IZR. apply IZR_le. assumption. }
  assert (Hq : 1 <= IZR a / IZR b < 9007199254740992).
  { assert (1 <= IZR k) by (apply IZR_le; assumption).
    assert (0 < / IZR b <= 1).
    { split; [apply Rinv_0_lt_compat; lra|].
      rewrite <- Rinv_1. apply Rinv_le_contravar; lra. }
    split; [lra|]. unfold Rdiv. nra. }
  destruct Ha as [Ha0 _], Hb as [Hb0 _].
  split; [apply round_frac_posfin; assumption|].
  split; [apply round_frac_int_ge; assumption|].
  intros E. apply Rle_antisym; [|apply round_frac_int_ge; assumption].
  apply round_frac_int_le; try assumption.
  rewrite <- E, mult_IZR. right. field. lra.
Qed.

Local Close Scope R_scope.

(** X5.  When one side of the box is a whole multiple [k >= 1] of the
    source's side and the other side leaves room for the same multiple,
    the resizer returns exactly [k] times the source's size, with no pixel
    lost to rounding; for [k = 1] it returns the source itself, not a
    resampling. *)
Theorem resize_whole_multiple (im : image) (W H k : Z) :
  intact im = true ->
  side_ok (width im) -> side_ok (height im) -> side_ok W -> side_ok H ->
  1 <= k ->
  (W = k * width im /\ k * height im <= H) \/
  (H = k * height im /\ k * width im <= W) ->
  exists out,
    Main.resize_image_to_fit im W H = Ok out /\
    size out = (k * width im, k * height im) /\
    (k = 1 -> out = im).
Proof.
  intros Hi Hw Hh HW HH Hk Hcase.
  assert (Hposw : 0 < width im) by apply Hw.
  assert (Hposh : 0 < height im) by apply Hh.
  assert (HkW : k * width im <= W) by (destruct Hcase as [[-> _]|[_ ?]]; lia).
  assert (HkH : k * height im <= H) by (destruct Hcase as [[_ ?]|[-> _]]; lia).
  destruct (ratio_int W (width im) k HW Hw Hk HkW) as (Hp1 & Hge1 & Heq1).
  destruct (ratio_int H (height im) k HH Hh Hk HkH) as (Hp2 & Hge2 & Heq2).
  destruct (py_min_spec _ _ Hp1 Hp2) as [Hps Hvs].
  assert (Hs : F2R (py_min (round_frac false W (width im))
                           (round_frac false H (height im))) = IZR k).
  { rewrite Hvs. destruct Hcase as [[E _]|[E _]].
    - rewrite (Heq1 (eq_sym E)). apply Rmin_left. assumption.
    - rewrite (Heq2 (eq_sym E)). apply Rmin_right. assumption. }
  assert (Hns : new_size (width im) (height im) W H
                = Ok (width im * k, height im * k)).
  { unfold new_size.
    rewrite (int_truediv_pos W (width im)), (int_truediv_pos H (height im))
      by (assumption || apply HW || apply HH).
    cbn [bind].
    rewrite (scaled_side_exact (width im) k), (scaled_side_exact (height im) k);
      try assumption; try (destruct HW, HH; lia).
    reflexivity. }
  rewrite resize_image_to_fit_new_size, Hns. cbn [bind].
  destruct (resize_intact im (width im * k) (height im * k) Hi Hposw Hposh) as [Hok _].
  destruct Hok as (out & Ho & Hsz & _); [nia | nia |].
  exists out. split; [exact Ho|]. split.
  - rewrite Hsz. f_equal; lia.
  - intros ->. unfold resize, load in Ho. rewrite Hi in Ho. cbn [bind] in Ho.
    rewrite !Z.mul_1_r, !Z.eqb_refl in Ho. cbn in Ho. congruence.
Qed.

Lemma resize_whole_multiple_witness :
  exists out,
    Main.resize_image_to_fit (photo 47 47) 141 200 = Ok out /\
    size out = (3 * 47, 3 * 47) /\
    (3 = 1 -> out = photo 47 47).
Proof.
  apply (resize_whole_multiple (photo 47 47) 141 200 3).
  - reflexivity.
  - unfold side_ok. simpl. lia.
  - unfold side_ok. simpl. lia.
  - unfold side_ok. simpl. lia.
  - unfold side_ok. simpl. lia.
  - lia.
  - left. simpl. lia.
Defined.

End ResizerMore.

(** ** The compositor, further *)

Module CompositorMore.
Import PIL Samples ResizeFacts Resizer ResizerMore Compositor.

(** A completed composition decodes. *)
Lemma compose_intact (E : env) (user_image : image) (frame_path : string) (r : image) :
  Main.compose E user_image frame_path = Ok r -> intact r = true.
Proof.
  unfold Main.compose. intros H.
  repeat match type of H with
         | bind ?c _ = Ok _ =>
             let x := fresh "x" in
             destruct c as [x|] eqn:?; cbn [bind] in H; [|discriminate]
         | (let '(_, _) := size ?f in _) = Ok _ => unfold size in H
         end.
  injection H as <-.
  match goal with Hp : paste _ _ _ _ _ = Ok ?o |- intact ?o = true =>
    apply paste_inv in Hp; tauto
  end.
Qed.

(** What [create_framed_image] returns decodes whenever the source does. *)
Lemma create_framed_image_intact (E : env) (user_image : image) (frame_path : string) :
  intact user_image = true ->
  intact (Main.create_framed_image E user_image frame_path) = true.
Proof.
  intros Hi. unfold Main.create_framed_image.
  destruct (Main.compose E user_image frame_path) as [r|e] eqn:Hc; cbn.
  - eapply compose_intact. eassumption.
  - exact Hi.
Qed.

(** X6.  In a composition that completes, the photo stays inside the
    frame's interior: it is pasted 50 pixels or more from the left and top
    edges and ends 50 pixels or more before the right and bottom edges. *)
Theorem photo_inside_interior (E : env) (user_image : image) (frame_path : string)
  (frame r : image) :
  open E frame_path = Ok frame ->
  Main.compose E user_image frame_path = Ok r ->
  side_ok (width user_image) -> side_ok (height user_image) ->
  side_ok (width frame - 100) -> side_ok (height frame - 100) ->
  exists frame' resized src_px,
    Main.resize_image_to_fit user_image (width frame - 100) (height frame - 100)
      = Ok resized /\
    let x_offset := (width frame - width resized) / 2 in
    let y_offset := (height frame - height resized) / 2 in
    let under := AlphaOver (Pasted (Fill Main.white_rgba) src_px x_offset y_offset)
                           (pix frame') in
    pix r = PastedMasked (Fill Main.white_rgb) under 0 0 (Band under 3) /\
    50 <= x_offset /\ x_offset + width resized <= width frame - 50 /\
    50 <= y_offset /\ y_offset + height resized <= height frame - 50.
Proof.
  intros Hopen Hr Huw Huh Hfw Hfh.
  destruct (compose_inv _ _ _ _ Hr)
    as (f & f' & rs & px & _ & Ho & _ & _ & Hres & _ & _ & _ & Hpix).
  assert (f = frame) by congruence. subst f.
  exists f', rs, px. split; [exact Hres|]. cbv zeta in *. split; [exact Hpix|].
  destruct (resize_within_box _ _ _ _ Huw Huh Hfw Hfh Hres) as [Hw Hh].
  pose proof (Z.div_mod (width frame - width rs) 2 ltac:(lia)).
  pose proof (Z.mod_pos_bound (width frame - width rs) 2 ltac:(lia)).
  pose proof (Z.div_mod (height frame - height rs) 2 ltac:(lia)).
  pose proof (Z.mod_pos_bound (height frame - height rs) 2 ltac:(lia)).
  lia.
Qed.

Lemma photo_inside_interior_witness :
  exists frame' resized src_px,
    Main.resize_image_to_fit (photo 2000 1000)
      (width (frame_asset 1080 1080) - 100) (height (frame_asset 1080 1080) - 100)
      = Ok resized /\
    let x_offset := (width (frame_asset 1080 1080) - width resized) / 2 in
    let y_offset := (height (frame_asset 1080 1080) - height resized) / 2 in
    let under := AlphaOver (Pasted (Fill Main.white_rgba) src_px x_offset y_offset)
                           (pix frame') in
    pix sample_composite = PastedMasked (Fill Main.white_rgb) under 0 0 (Band under 3) /\
    50 <= x_offset /\
    x_offset + width resized <= width (frame_asset 1080 1080) - 50 /\
    50 <= y_offset /\
    y_offset + height resized <= height (frame_asset 1080 1080) - 50.
Proof.
  apply (photo_inside_interior bundle (photo 2000 1000) "yes.png"
           (frame_asset 1080 1080) sample_composite).
  - reflexivity.
  - vm_compute. reflexivity.
  - unfold side_ok. simpl. lia.
  - unfold side_ok. simpl. lia.
  - unfold side_ok. simpl. lia.
  - unfold side_ok. simpl. lia.
Defined.

(** X7.  A frame that is 100 pixels wide or less, or 100 pixels high or
    less, leaves no interior: [create_framed_image] then returns the source
    image unframed, whatever the source. *)
Theorem narrow_frame_falls_back (E : env) (user_image : image) (frame_path : string)
  (frame : image) :
  open E frame_path = Ok frame ->
  width frame <= 100 \/ height frame <= 100 ->
  0 <= width user_image -> 0 <= height user_image ->
  Main.create_framed_image E user_image frame_path = user_image.
Proof.
  intros Hopen Hsmall Hw Hh. unfold Main.create_framed_image.
  destruct (Main.compose E user_image frame_path) as [r|e] eqn:Hc; [|reflexivity].
  exfalso.
  destruct (compose_inv _ _ _ _ Hc)
    as (f & _ & rs & _ & _ & Ho & _ & _ & Hres & _).
  assert (f = frame) by congruence. subst f.
  destruct (resize_raises_without_box user_image (width frame - 100) (height frame - 100)
              Hw Hh ltac:(lia)) as (e & He).
  congruence.
Qed.

Lemma narrow_frame_falls_back_witness :
  Main.create_framed_image
    (mkEnv (fun _ => Ok (frame_asset 100 400)) (fun _ _ => true))
    (photo 640 480) "yes.png" = photo 640 480.
Proof.
  apply (narrow_frame_falls_back _ (photo 640 480) "yes.png" (frame_asset 100 400)).
  - reflexivity.
  - left. simpl. lia.
  - simpl. lia.
  - simpl. lia.
Defined.

End CompositorMore.

(** ** The publisher *)

Module Publisher.
Import PIL Web HandlerWords Handler.

Lemma lookup_filter_other (key k : string) (l : list (string * blob)) :
  k <> key ->
  lookup k (filter (fun kb : string * blob => negb (String.eqb (fst kb) key)) l)
  = lookup k l.
Proof.
  intros Hk. induction l as [|[k0 b] l IH]; cbn; [reflexivity|].
  destruct (String.eqb_spec k0 key) as [->|Hne]; cbn.
  - destruct (String.eqb_spec key k); [congruence | exact IH].
  - rewrite IH. reflexivity.
Qed.

Lemma lookup_map_other (key k : string) (g : blob -> blob) (l : list (string * blob)) :
  k <> key ->
  lookup k (map (fun kb : string * blob =>
                   if String.eqb (fst kb) key then (fst kb, g (snd kb)) else kb) l)
  = lookup k l.
Proof.
  intros Hk. induction l as [|[k0 b] l IH]; cbn; [reflexivity|].
  destruct (String.eqb_spec k0 key) as [->|Hne]; cbn.
  - destruct (String.eqb_spec key k); [congruence | exact IH].
  - rewrite IH. reflexivity.
Qed.

Lemma filter_map_other (key : string) (g : blob -> blob) (l : list (string * blob)) :
  map (fun kb : string * blob =>
         if String.eqb (fst kb) key then (fst kb, g (snd kb)) else kb)
      (filter (fun kb : string * blob => negb (String.eqb (fst kb) key)) l)
  = filter (fun kb : string * blob => negb (String.eqb (fst kb) key)) l.
Proof.
  induction l as [|[k0 b] l IH]; cbn; [reflexivity|].
  destruct (String.eqb k0 key) eqn:E; cbn; [exact IH|].
  rewrite E, IH. reflexivity.
Qed.

(** A publication, step by step. *)
Lemma upload_to_gcs_run (S : services) (im : image) (key : string) (w : world) :
  Main.upload_to_gcs S im key w =
  match storage_fault S TempFile with
  | Some e => (Raise e, w)
  | None =>
      if intact im then
        if webp_accepts S im then
          match storage_fault S Encode with
          | Some e => (Raise e, w)
          | None =>
              match storage_fault S Upload with
              | Some e => (Raise e, w)
              | None =>
                  match storage_fault S MakePublic with
                  | Some e => (Raise e, written im key w)
                  | None =>
                      match storage_fault S Unlink with
                      | Some e => (Raise e, published im key w)
                      | None => (Ok (public_url S key), published im key w)
                      end
                  end
              end
          end
        else (Raise (encoder_error S im), w)
      else (Raise OSError, w)
  end.
Proof.
  unfold Main.upload_to_gcs, catch, abind, fault, lift, log, put_blob, publish_blob,
    ret, raise, load, written, published, webp_blob.
  destruct (storage_fault S TempFile); [reflexivity|].
  destruct (intact im); [|reflexivity].
  destruct (webp_accepts S im); [|reflexivity].
  destruct (storage_fault S Encode); [reflexivity|].
  destruct (storage_fault S Upload); [reflexivity|].
  destruct (storage_fault S MakePublic); [reflexivity|].
  assert (Hpub : forall rest,
            map (fun kb : string * blob =>
                   if String.eqb (fst kb) key
                   then (fst kb, mkBlob (blob_format (snd kb)) (blob_quality (snd kb))
                                        (blob_optimize (snd kb)) (blob_image (snd kb)) true)
                   else kb)
                ((key, mkBlob "WEBP" 85 true im false)
                 :: filter (fun kb : string * blob => negb (String.eqb (fst kb) key)) rest)
            = (key, mkBlob "WEBP" 85 true im true)
              :: filter (fun kb : string * blob => negb (String.eqb (fst kb) key)) rest).
  { intros rest. cbn [map fst snd]. rewrite String.eqb_refl. cbn. f_equal.
    apply (filter_map_other key
             (fun b => mkBlob (blob_format b) (blob_quality b) (blob_optimize b)
                              (blob_image b) true)). }
  destruct (storage_fault S Unlink); cbn [bucket trace]; rewrite Hpub; reflexivity.
Qed.

Lemma lookup_written (im : image) (key : string) (public : bool) (l : list (string * blob)) :
  lookup key ((key, webp_blob im public)
              :: filter (fun kb : string * blob => negb (String.eqb (fst kb) key)) l)
  = Some (webp_blob im public) /\
  forall k, k <> key ->
    lookup k ((key, webp_blob im public)
              :: filter (fun kb : string * blob => negb (String.eqb (fst kb) key)) l)
    = lookup k l.
Proof.
  split.
  - cbn. rewrite String.eqb_refl. reflexivity.
  - intros k Hk. cbn. destruct (String.eqb_spec key k); [congruence|].
    apply lookup_filter_other. assumption.
Qed.

(** The encoder takes an RGB image whenever its size fits. *)
Lemma webp_accepts_rgb (S : services) (im : image) :
  mode im = "RGB" -> webp_accepts S im = webp_fits im.
Proof.
  intros Hm. unfold webp_accepts. rewrite Hm. cbn. apply andb_true_r.
Qed.

Lemma webp_fits_sides (im : image) :
  webp_fits im = true <-> 1 <= width im <= 16383 /\ 1 <= height im <= 16383.
Proof.
  unfold webp_fits, WEBP_MAX_DIMENSION. rewrite !andb_true_iff, !Z.leb_le. lia.
Qed.

(** X8.  A publication returns exactly when the image decodes, the WebP
    encoder accepts it (1 to 16383 pixels a side, in a mode it takes) and
    no step fails.  It then returns the public URL of the key, the key
    holds the image as public WebP at quality 85, replacing what it held,
    every other key of the bucket holds what it held before, and one write
    is recorded. *)
Theorem upload_to_gcs_success (S : services) (im : image) (key : string) (w : world) :
  ((exists url w', Main.upload_to_gcs S im key w = (Ok url, w'))
   <-> intact im = true /\ webp_accepts S im = true /\ storage_works S) /\
  (forall url w',
     Main.upload_to_gcs S im key w = (Ok url, w') ->
     url = public_url S key /\
     lookup key (bucket w') = Some (webp_blob im true) /\
     (forall k, k <> key -> lookup k (bucket w') = lookup k (bucket w)) /\
     trace w' = (trace w ++ [Stored key])%list).
Proof.
  rewrite upload_to_gcs_run. split; [split|].
  - intros (url & w' & H).
    destruct (storage_fault S TempFile) eqn:E1; [discriminate|].
    destruct (intact im); [|discriminate].
    destruct (webp_accepts S im); [|discriminate].
    destruct (storage_fault S Encode) eqn:E2; [discriminate|].
    destruct (storage_fault S Upload) eqn:E3; [discriminate|].
    destruct (storage_fault S MakePublic) eqn:E4; [discriminate|].
    destruct (storage_fault S Unlink) eqn:E5; [discriminate|].
    split; [reflexivity|]. split; [reflexivity|]. intros []; assumption.
  - intros (Hi & Ha & Hs). rewrite !Hs, Hi, Ha. eauto.
  - intros url w' H.
    destruct (storage_fault S TempFile); [discriminate|].
    destruct (intact im); [|discriminate].
    destruct (webp_accepts S im); [|discriminate].
    destruct (storage_fault S Encode); [discriminate|].
    destruct (storage_fault S Upload); [discriminate|].
    destruct (storage_fault S MakePublic); [discriminate|].
    destruct (storage_fault S Unlink); [discriminate|].
    injection H as <- <-. split; [reflexivity|].
    unfold published. cbn [bucket trace].
    destruct (lookup_written im key true (bucket w)) as [H1 H2]. auto.
Qed.

(** X9.  A publication that raises rolls nothing back.  Up to the upload
    the world is as it was; when making the object public fails, the
    object stays in the bucket, private; when removing the temporary file
    fails, the object stays in the bucket, public.  The error raised is the
    one of the failing step: the fault of the step, the decoding error of
    an image whose pixels do not decode, or the encoder's error for an
    image it does not accept. *)
Theorem upload_to_gcs_failure (S : services) (im : image) (key : string)
  (w w' : world) (e : exn) :
  Main.upload_to_gcs S im key w = (Raise e, w') ->
  (w' = w /\
   (storage_fault S TempFile = Some e \/ (intact im = false /\ e = OSError) \/
    (webp_accepts S im = false /\ e = encoder_error S im) \/
    storage_fault S Encode = Some e \/ storage_fault S Upload = Some e)) \/
  (storage_fault S MakePublic = Some e /\
   lookup key (bucket w') = Some (webp_blob im false) /\
   trace w' = (trace w ++ [Stored key])%list) \/
  (storage_fault S Unlink = Some e /\
   lookup key (bucket w') = Some (webp_blob im true) /\
   trace w' = (trace w ++ [Stored key])%list).
Proof.
  rewrite upload_to_gcs_run.
  destruct (storage_fault S TempFile); [intros [= <- <-]; auto|].
  destruct (intact im); [|intros [= <- <-]; auto 6].
  destruct (webp_accepts S im); [|intros [= <- <-]; auto 7].
  destruct (storage_fault S Encode); [intros [= <- <-]; auto 7|].
  destruct (storage_fault S Upload); [intros [= <- <-]; auto 7|].
  destruct (storage_fault S MakePublic).
  { intros [= <- <-]. right. left. split; [reflexivity|].
    unfold written. cbn [bucket trace].
    destruct (lookup_written im key false (bucket w)) as [H1 _]. auto. }
  destruct (storage_fault S Unlink); [|discriminate].
  intros [= <- <-]. right. right. split; [reflexivity|].
  unfold published. cbn [bucket trace].
  destruct (lookup_written im key true (bucket w)) as [H1 _]. auto.
Qed.

Lemma upload_to_gcs_failure_witness :
  let key := "framed_photos/a.webp" in
  let w := mkWorld [] [] in
  let w' := written (Samples.photo 640 480) key w in
  let e := OtherError "Forbidden" in
  (w' = w /\
   (storage_fault Samples.failing_services TempFile = Some e \/
    (intact (Samples.photo 640 480) = false /\ e = OSError) \/
    (webp_accepts Samples.failing_services (Samples.photo 640 480) = false /\
     e = encoder_error Samples.failing_services (Samples.photo 640 480)) \/
    storage_fault Samples.failing_services Encode = Some e \/
    storage_fault Samples.failing_services Upload = Some e)) \/
  (storage_fault Samples.failing_services MakePublic = Some e /\
   lookup key (bucket w') = Some (webp_blob (Samples.photo 640 480) false) /\
   trace w' = (trace w ++ [Stored key])%list) \/
  (storage_fault Samples.failing_services Unlink = Some e /\
   lookup key (bucket w') = Some (webp_blob (Samples.photo 640 480) true) /\
   trace w' = (trace w ++ [Stored key])%list).
Proof.
  cbv zeta.
  apply (upload_to_gcs_failure Samples.failing_services (Samples.photo 640 480)
           "framed_photos/a.webp" (mkWorld [] [])).
  vm_compute. reflexivity.
Defined.

End Publisher.

(** ** The handler, further *)

Module HandlerMore.
Import PIL Web HandlerWords Handler Publisher StrFacts Compositor CompositorMore.

(** The handler on a request that passes its checks, step by step. *)
Lemma process_photo_accepted (S : services) (request : Web.request)
  (photo_file : upload) (w : world) :
  accepted request photo_file ->
  Main.process_photo S request w =
  match content photo_file with
  | Raise e => (Ok (internal_error e), w)
  | Ok image0 =>
      match rgb_image (pil S) image0 with
      | Raise e => (Ok (internal_error e), w)
      | Ok image =>
          let text := Main.analyze_image_with_gemini (gemini S) image in
          let frame_path := fst (Main.select_frame text) in
          let frame_type := snd (Main.select_frame text) in
          match Main.upload_to_gcs S (Main.create_framed_image (pil S) image frame_path)
                  (Main.storage_key (now S) (PyStr.take 8 (uuid4 S)) frame_type)
                  (processed image frame_path w) with
          | (Ok url, w') =>
              (Ok (mkResponse (success_body url frame_type text) 200 Main.json_headers), w')
          | (Raise e, w') => (Ok (internal_error e), w')
          end
      end
  end.
Proof.
  intros (Hm & Hl & Hx). unfold Main.process_photo. rewrite Hm, Hl.
  change (("POST" =? "OPTIONS")%string) with false.
  change (("POST" =? "POST")%string) with true. cbv iota. cbn [negb].
  unfold extensions in Hx. rewrite Hx. cbn [negb].
  unfold catch, abind, lift, log, ret, rgb_image, internal_error, processed, success_body.
  destruct (content photo_file) as [image0|]; [|reflexivity].
  destruct (if negb (mode image0 =? "RGB")%string
            then convert (pil S) image0 "RGB" else Ok image0) as [image|]; [|reflexivity].
  cbv zeta.
  destruct (Main.select_frame (Main.analyze_image_with_gemini (gemini S) image))
    as [frame_path frame_type]. cbn [fst snd bucket trace].
  match goal with |- context [Main.upload_to_gcs S ?im ?key ?w0] =>
    destruct (Main.upload_to_gcs S im key w0) as [[url|e] w1]
  end; reflexivity.
Qed.


Lemma substring_split (s : string) (i : nat) :
  (i <= String.length s)%nat ->
  s = substring 0 i s ++ substring i (String.length s - i) s.
Proof.
  revert i. induction s as [|c s IH]; intros i Hi.
  - destruct i; [reflexivity | cbn in Hi; lia].
  - destruct i as [|i].
    + cbn [substring append]. rewrite Nat.sub_0_r.
      change (String c s = String c (substring 0 (String.length s) s)).
      rewrite substring_all. reflexivity.
    + cbn in Hi. cbn. f_equal. apply IH. lia.
Qed.

(** [s.endswith(t)] holds exactly when [s] is something followed by [t]. *)
Lemma endswith_iff (s t : string) :
  PyStr.endswith s t = true <-> exists p, s = p ++ t.
Proof.
  split.
  - unfold PyStr.endswith. intros H. apply andb_true_iff in H. destruct H as [Hk He].
    apply Nat.leb_le in Hk. apply String.eqb_eq in He.
    exists (substring 0 (String.length s - String.length t) s).
    pose proof (substring_split s (String.length s - String.length t) ltac:(lia)) as Hs.
    replace (String.length s - (String.length s - String.length t))%nat
      with (String.length t) in Hs by lia.
    rewrite He in Hs. exact Hs.
  - intros (p & ->). apply endswith_app, endswith_self.
Qed.

(** X10.  The check of the file name lets a name through exactly when, once
    lower-cased, it is a stem followed by ".jpg", ".jpeg" or ".png"; so an
    extension passes in any letter case, and nothing else of the name or of
    the content is looked at. *)
Theorem extension_check (name : string) :
  (PyStr.endswith_any (PyStr.lower name) extensions = true <->
   exists stem ext, In ext extensions /\ PyStr.lower name = stem ++ ext) /\
  (forall stem ext,
     name = stem ++ ext -> In (PyStr.lower ext) extensions ->
     PyStr.endswith_any (PyStr.lower name) extensions = true).
Proof.
  assert (Hiff : PyStr.endswith_any (PyStr.lower name) extensions = true <->
                 exists stem ext, In ext extensions /\ PyStr.lower name = stem ++ ext).
  { unfold PyStr.endswith_any. rewrite existsb_exists. split.
    - intros (ext & Hin & He). apply endswith_iff in He. destruct He as (p & Hp). eauto.
    - intros (stem & ext & Hin & Hn). exists ext. split; [assumption|].
      apply endswith_iff. eauto. }
  split; [exact Hiff|].
  intros stem ext -> Hin. apply Hiff.
  exists (PyStr.lower stem), (PyStr.lower ext). split; [assumption | apply lower_app].
Qed.

Ltac break_up :=
  repeat match goal with
         | H : _ /\ _ |- _ => destruct H
         | H : _ \/ _ |- _ => destruct H
         | H : exists _, _ |- _ => destruct H
         end.

(** The five ways a request can go. *)
Lemma process_photo_cases (S : services) (request : Web.request) (w : world) :
  (method request = "OPTIONS" /\
   Main.process_photo S request w
   = (Ok (mkResponse Empty 204 Main.cors_preflight_headers), w)) \/
  (method request <> "OPTIONS" /\ method request <> "POST" /\
   Main.process_photo S request w
   = (Ok (Main.error_response (JStr "Only POST method is allowed") 405), w)) \/
  (method request = "POST" /\ lookup "photo" (req_files request) = None /\
   Main.process_photo S request w
   = (Ok (Main.error_response (JStr "No photo file provided") 400), w)) \/
  (method request = "POST" /\
   (exists f, lookup "photo" (req_files request) = Some f /\
      PyStr.endswith_any (PyStr.lower (filename f)) extensions = false) /\
   Main.process_photo S request w
   = (Ok (Main.error_response
            (JStr "Invalid file type. Only JPG, JPEG, and PNG are allowed") 400), w)) \/
  (exists f, accepted request f).
Proof.
  unfold Main.process_photo, accepted.
  destruct (String.eqb_spec (method request) "OPTIONS") as [Ho|Ho]; [left; auto|].
  right. unfold catch.
  destruct (String.eqb_spec (method request) "POST") as [Hp|Hp]; cbn [negb];
    [|left; auto].
  right.
  destruct (lookup "photo" (req_files request)) as [f|]; [|left; auto].
  right. change [".jpg"; ".jpeg"; ".png"] with extensions.
  destruct (PyStr.endswith_any (PyStr.lower (filename f)) extensions) eqn:Hx; cbn [negb].
  - right. exists f. auto.
  - left. split; [assumption|]. split; [eauto | reflexivity].
Qed.

(** An accepted request is answered 200 or 500. *)
Lemma accepted_status (S : services) (request : Web.request) (f : upload) (w : world) :
  accepted request f ->
  exists resp w',
    Main.process_photo S request w = (Ok resp, w') /\
    (status resp = 200 \/ status resp = 500).
Proof.
  intros Ha. rewrite (process_photo_accepted S request f w Ha).
  destruct (content f) as [image0|]; [|eexists _, _; split; [reflexivity | right; reflexivity]].
  destruct (rgb_image (pil S) image0) as [image|];
    [|eexists _, _; split; [reflexivity | right; reflexivity]].
  cbv zeta.
  match goal with |- context [Main.upload_to_gcs S ?im ?key ?w0] =>
    destruct (Main.upload_to_gcs S im key w0) as [[url|e] w1]
  end; eexists _, _; (split; [reflexivity|]); [left | right]; reflexivity.
Qed.

(** X11.  The handler answers every request, and the status tells how far
    the request got: 204 exactly for OPTIONS; 405 exactly for a method that
    is neither OPTIONS nor POST; 400 exactly for a POST without a [photo]
    upload or with one whose name fails the extension check; 200 or 500
    exactly for a request that passes the three checks.  With 204, 405 and
    400 the world is as it was. *)
Theorem status_by_request (S : services) (request : Web.request) (w : world) :
  exists resp w',
    Main.process_photo S request w = (Ok resp, w') /\
    (status resp = 204 <-> method request = "OPTIONS") /\
    (status resp = 405 <-> method request <> "OPTIONS" /\ method request <> "POST") /\
    (status resp = 400 <->
     method request = "POST" /\
     (lookup "photo" (req_files request) = None \/
      exists f, lookup "photo" (req_files request) = Some f /\
                PyStr.endswith_any (PyStr.lower (filename f)) extensions = false)) /\
    (status resp = 200 \/ status resp = 500 <-> exists f, accepted request f) /\
    (status resp = 204 \/ status resp = 405 \/ status resp = 400 -> w' = w).
Proof.
  destruct (process_photo_cases S request w)
    as [[Hm Hr]|[(Ho & Hp & Hr)|[(Hm & Hl & Hr)|[(Hm & (f & Hl & Hx) & Hr)|(f & Ha)]]]].
  1-4: eexists _, _; (split; [exact Hr|]); cbn [status]; unfold accepted;
       repeat split; intros; break_up; try discriminate; try congruence; eauto 6.
  destruct (accepted_status S request f w Ha) as (resp & w' & Hr & Hs).
  exists resp, w'. split; [exact Hr|].
  assert (Hacc : exists f0, accepted request f0) by eauto.
  destruct Ha as (Hm & Hl & Hx).
  repeat split; intros; break_up; try discriminate; try congruence; eauto 6.
Qed.


Lemma accepted_response (S : services) (request : Web.request) (f : upload) (w : world) :
  accepted request f ->
  exists resp w',
    Main.process_photo S request w = (Ok resp, w') /\
    ((exists url frame_type text,
        resp = mkResponse (success_body url frame_type text) 200 Main.json_headers) \/
     (exists e, resp = internal_error e)).
Proof.
  intros Ha. rewrite (process_photo_accepted S request f w Ha).
  destruct (content f) as [image0|]; [|eexists _, _; split; [reflexivity | right; eauto]].
  destruct (rgb_image (pil S) image0) as [image|];
    [|eexists _, _; split; [reflexivity | right; eauto]].
  cbv zeta.
  match goal with |- context [Main.upload_to_gcs S ?im ?key ?w0] =>
    destruct (Main.upload_to_gcs S im key w0) as [[url|e] w1]
  end; eexists _, _; (split; [reflexivity|]); [left | right]; eauto.
Qed.

(** X12.  The shape of every answer.  Each one allows any origin.  The
    answer to OPTIONS, and no other, has an empty body; every other body
    is a JSON object announced as application/json whose [success] field
    is true exactly when the status is 200, and which has an [error] field
    exactly when it is not. *)
Theorem response_shape (S : services) (request : Web.request) (w : world) :
  exists resp w',
    Main.process_photo S request w = (Ok resp, w') /\
    lookup "Access-Control-Allow-Origin" (headers resp) = Some "*" /\
    (resp_body resp = Empty <-> status resp = 204) /\
    (resp_body resp = Empty \/
     exists fields,
       resp_body resp = Json fields /\
       lookup "Content-Type" (headers resp) = Some "application/json" /\
       lookup "success" fields = Some (JBool (status resp =? 200)) /\
       (lookup "error" fields = None <-> status resp = 200)).
Proof.
  destruct (process_photo_cases S request w)
    as [[Hm Hr]|[(Ho & Hp & Hr)|[(Hm & Hl & Hr)|[(Hm & (f & Hl & Hx) & Hr)|(f & Ha)]]]].
  1: eexists _, _; split; [exact Hr|]; cbn; split; [reflexivity|]; split;
     [split; reflexivity | left; reflexivity].
  1-3: eexists _, _; split; [exact Hr|]; cbn; split; [reflexivity|]; split;
       [split; discriminate|]; right; eexists; split; [reflexivity|];
       repeat split; discriminate.
  destruct (accepted_response S request f w Ha)
    as (resp & w' & Hr & [(url & ft & text & ->)|(e & ->)]);
    eexists _, w'; (split; [exact Hr|]); cbn; (split; [reflexivity|]); (split;
      [split; discriminate|]); right; eexists; (split; [reflexivity|]);
      repeat split; try discriminate; reflexivity.
Qed.

Lemma rgb_image_inv (E : env) (image0 image : PIL.image) :
  rgb_image E image0 = Ok image ->
  mode image = "RGB" /\ width image = width image0 /\ height image = height image0 /\
  (intact image0 = true -> intact image = true).
Proof.
  unfold rgb_image. destruct (String.eqb_spec (mode image0) "RGB") as [Em|Em]; cbn [negb].
  - intros [= <-]. auto.
  - intros Hc. apply convert_inv in Hc. tauto.
Qed.

Lemma rgb_image_ok (E : env) (image0 : PIL.image) :
  intact image0 = true ->
  mode image0 = "RGB" \/ convertible E (mode image0) "RGB" = true ->
  exists image, rgb_image E image0 = Ok image.
Proof.
  intros Hi Hm. unfold rgb_image.
  destruct (String.eqb_spec (mode image0) "RGB") as [Em|Em]; cbn [negb]; [eauto|].
  destruct Hm as [Hm|Hm]; [contradiction|].
  unfold convert, load. rewrite Hi. cbn [bind].
  destruct (String.eqb_spec (mode image0) "RGB") as [|_]; [contradiction|].
  rewrite Hm. eauto.
Qed.

Lemma create_framed_image_unopened (E : env) (image : PIL.image)
  (frame_path : string) (e : exn) :
  open E frame_path = Raise e -> Main.create_framed_image E image frame_path = image.
Proof.
  intros He. unfold Main.create_framed_image.
  destruct (Main.compose E image frame_path) as [r|e'] eqn:Hc; cbn; [|reflexivity].
  destruct (compose_inv _ _ _ _ Hc) as (f & _ & _ & _ & _ & Ho & _). congruence.
Qed.

(** What is framed from an RGB image is RGB, composed or not. *)
Lemma create_framed_image_rgb (E : env) (image : PIL.image) (frame_path : string) :
  mode image = "RGB" -> mode (Main.create_framed_image E image frame_path) = "RGB".
Proof.
  intros Hm. unfold Main.create_framed_image.
  destruct (Main.compose E image frame_path) as [r|e] eqn:Hc; cbn; [|exact Hm].
  destruct (compose_inv _ _ _ _ Hc) as (f & _ & _ & _ & _ & _ & _ & _ & _ & _ & _ & Hr & _).
  exact Hr.
Qed.

(** What [create_framed_image] returns fits the WebP encoder when the
    source does and no frame that opens is larger than the encoder
    takes. *)
Lemma create_framed_image_fits (E : env) (image : PIL.image) (frame_path : string) :
  webp_fits image = true ->
  (forall frame, open E frame_path = Ok frame ->
                 width frame <= 16383 /\ height frame <= 16383) ->
  webp_fits (Main.create_framed_image E image frame_path) = true.
Proof.
  intros Hfit Hframe. unfold Main.create_framed_image.
  destruct (Main.compose E image frame_path) as [r|e] eqn:Hc; cbn; [|exact Hfit].
  destruct (compose_inv _ _ _ _ Hc)
    as (f & _ & resized & _ & _ & Ho & _ & _ & Hres & Hw & Hh & _).
  destruct (Hframe f Ho) as [Hfw Hfh].
  apply webp_fits_sides in Hfit.
  apply webp_fits_sides. rewrite Hw, Hh.
  destruct (Z_le_gt_dec (width f - 100) 0) as [Hle|Hgt].
  { destruct (ResizerMore.resize_raises_without_box image (width f - 100)
                (height f - 100)) as (e & He); [lia | lia | auto |]. congruence. }
  destruct (Z_le_gt_dec (height f - 100) 0) as [Hle|Hgt'].
  { destruct (ResizerMore.resize_raises_without_box image (width f - 100)
                (height f - 100)) as (e & He); [lia | lia | auto |]. congruence. }
  lia.
Qed.

(** X13.  The classifier cannot fail a request, and a frame cannot unless
    it is larger than WebP holds.  When the request passes the checks, its
    upload decodes, is RGB or converts to RGB and has sides of 1 to 16383
    pixels, no frame that opens has a side above 16383, and the storage
    works, the answer is 200 whatever the remote model does and whether or
    not the frames open, decode and compose: an error of the model gives
    the verdict "no", a frame that cannot be opened leaves the photo
    unframed, and what is stored is always an RGB image. *)
Theorem degraded_request_succeeds (S : services) (request : Web.request)
  (photo_file : upload) (image0 : PIL.image) (w : world) :
  accepted request photo_file ->
  content photo_file = Ok image0 ->
  intact image0 = true ->
  mode image0 = "RGB" \/ convertible (pil S) (mode image0) "RGB" = true ->
  webp_fits image0 = true ->
  (forall path frame, open (pil S) path = Ok frame ->
                      width frame <= 16383 /\ height frame <= 16383) ->
  storage_works S ->
  exists image,
    rgb_image (pil S) image0 = Ok image /\
    let text := Main.analyze_image_with_gemini (gemini S) image in
    let frame_path := fst (Main.select_frame text) in
    let frame_type := snd (Main.select_frame text) in
    let key := Main.storage_key (now S) (PyStr.take 8 (uuid4 S)) frame_type in
    let framed := Main.create_framed_image (pil S) image frame_path in
    Main.process_photo S request w
    = (Ok (mkResponse (success_body (public_url S key) frame_type text) 200
                      Main.json_headers),
       published framed key (processed image frame_path w)) /\
    mode framed = "RGB" /\
    (forall e, gemini S image = Raise e -> frame_type = "no") /\
    (forall e, open (pil S) frame_path = Raise e -> framed = image).
Proof.
  intros Ha Hc Hi Hm Hfit Hframes Hs.
  destruct (rgb_image_ok (pil S) image0 Hi Hm) as (image & Himg).
  destruct (rgb_image_inv _ _ _ Himg) as (Hrgb & Hw & Hh & Hint).
  assert (Hfit' : webp_fits image = true).
  { unfold webp_fits in *. rewrite Hw, Hh. exact Hfit. }
  exists image. split; [exact Himg|]. cbv zeta.
  rewrite (process_photo_accepted S request photo_file w Ha), Hc, Himg. cbv zeta.
  rewrite upload_to_gcs_run, !Hs.
  rewrite (create_framed_image_intact (pil S) image _ (Hint Hi)).
  rewrite (webp_accepts_rgb S _ (create_framed_image_rgb (pil S) image _ Hrgb)).
  rewrite (create_framed_image_fits (pil S) image _ Hfit' (Hframes _)).
  split; [reflexivity|]. split; [apply create_framed_image_rgb; exact Hrgb|]. split.
  - intros e He. unfold Main.analyze_image_with_gemini. rewrite He. reflexivity.
  - intros e He. apply (create_framed_image_unopened _ _ _ e He).
Qed.


(** X14.  What a 500 means for a request that passed the checks.  The body
    is "Internal server error: " followed by the exception, which is the
    upload's when it does not decode, the RGB conversion's, or the
    publication's: a fault of one of its steps, the decoding error of the
    framed image, or the encoder's error for a framed image with a side
    outside 1 to 16383 pixels.  The classifier and the compositor never
    raise it.  Nothing is undone: when the failure comes after the object
    was sent (making it public, or deleting the temporary file) the object
    is in the bucket although the answer is 500. *)
Theorem internal_error_cause (S : services) (request : Web.request)
  (photo_file : upload) (w w' : world) (resp : response) :
  accepted request photo_file ->
  Main.process_photo S request w = (Ok resp, w') ->
  status resp = 500 ->
  exists e,
    resp = internal_error e /\
    ((w' = w /\
      (content photo_file = Raise e \/
       exists image0, content photo_file = Ok image0 /\
                      rgb_image (pil S) image0 = Raise e)) \/
     exists image0 image,
       content photo_file = Ok image0 /\ rgb_image (pil S) image0 = Ok image /\
       let text := Main.analyze_image_with_gemini (gemini S) image in
       let frame_path := fst (Main.select_frame text) in
       let frame_type := snd (Main.select_frame text) in
       let key := Main.storage_key (now S) (PyStr.take 8 (uuid4 S)) frame_type in
       let framed := Main.create_framed_image (pil S) image frame_path in
       (w' = processed image frame_path w /\
        (storage_fault S TempFile = Some e \/
         (intact framed = false /\ e = OSError) \/
         (webp_fits framed = false /\ e = encoder_error S framed) \/
         storage_fault S Encode = Some e \/
         storage_fault S Upload = Some e)) \/
       (w' = written framed key (processed image frame_path w) /\
        storage_fault S MakePublic = Some e /\
        lookup key (bucket w') = Some (webp_blob framed false)) \/
       (w' = published framed key (processed image frame_path w) /\
        storage_fault S Unlink = Some e /\
        lookup key (bucket w') = Some (webp_blob framed true))).
Proof.
  intros Ha Hrun H500.
  rewrite (process_photo_accepted S request photo_file w Ha) in Hrun.
  destruct (content photo_file) as [image0|e0].
  2: { injection Hrun as <- <-. exists e0. split; [reflexivity|]. left. auto. }
  destruct (rgb_image (pil S) image0) as [image|e0] eqn:Himg.
  2: { injection Hrun as <- <-. exists e0. split; [reflexivity|]. left. eauto. }
  cbv zeta in Hrun. rewrite upload_to_gcs_run in Hrun.
  rewrite (webp_accepts_rgb S _ (create_framed_image_rgb (pil S) image _
             (proj1 (rgb_image_inv _ _ _ Himg)))) in Hrun.
  set (framed := Main.create_framed_image (pil S) image _) in *.
  set (key := Main.storage_key _ _ _) in *.
  set (w0 := processed image _ w) in *.
  destruct (storage_fault S TempFile) as [e1|] eqn:F1.
  { injection Hrun as <- <-. exists e1. split; [reflexivity|].
    right. exists image0, image. cbv zeta. fold framed key w0. auto 8. }
  destruct (intact framed) eqn:Hint.
  2: { injection Hrun as <- <-. exists OSError. split; [reflexivity|].
       right. exists image0, image. cbv zeta. fold framed key w0. rewrite Hint. auto 8. }
  destruct (webp_fits framed) eqn:Hfit.
  2: { injection Hrun as <- <-. exists (encoder_error S framed). split; [reflexivity|].
       right. exists image0, image. cbv zeta. fold framed key w0. rewrite Hfit.
       auto 9. }
  destruct (storage_fault S Encode) as [e1|] eqn:F2.
  { injection Hrun as <- <-. exists e1. split; [reflexivity|].
    right. exists image0, image. cbv zeta. fold framed key w0. auto 9. }
  destruct (storage_fault S Upload) as [e1|] eqn:F3.
  { injection Hrun as <- <-. exists e1. split; [reflexivity|].
    right. exists image0, image. cbv zeta. fold framed key w0. auto 9. }
  destruct (storage_fault S MakePublic) as [e1|] eqn:F4.
  { injection Hrun as <- <-. exists e1. split; [reflexivity|].
    right. exists image0, image. cbv zeta. fold framed key w0.
    split; [reflexivity|]. split; [exact Himg|]. right. left.
    split; [reflexivity|]. split; [reflexivity|].
    unfold written. cbn [bucket].
    exact (proj1 (lookup_written framed key false (bucket w0))). }
  destruct (storage_fault S Unlink) as [e1|] eqn:F5.
  { injection Hrun as <- <-. exists e1. split; [reflexivity|].
    right. exists image0, image. cbv zeta. fold framed key w0.
    split; [reflexivity|]. split; [exact Himg|]. right. right.
    split; [reflexivity|]. split; [reflexivity|].
    unfold published. cbn [bucket].
    exact (proj1 (lookup_written framed key true (bucket w0))). }
  injection Hrun as <- <-. discriminate H500.
Qed.

Lemma process_photo_ok_inv (S : services) (request : Web.request)
  (w w' : world) (resp : response) :
  Main.process_photo S request w = (Ok resp, w') ->
  status resp = 200 ->
  exists photo_file image0 image,
    accepted request photo_file /\
    content photo_file = Ok image0 /\
    rgb_image (pil S) image0 = Ok image /\
    let text := Main.analyze_image_with_gemini (gemini S) image in
    let frame_path := fst (Main.select_frame text) in
    let frame_type := snd (Main.select_frame text) in
    let key := Main.storage_key (now S) (PyStr.take 8 (uuid4 S)) frame_type in
    let framed := Main.create_framed_image (pil S) image frame_path in
    resp = mkResponse (success_body (public_url S key) frame_type text) 200
                      Main.json_headers /\
    w' = published framed key (processed image frame_path w) /\
    intact framed = true.
Proof.
  intros Hrun H200.
  destruct (process_photo_cases S request w)
    as [[Hm Hr]|[(Ho & Hp & Hr)|[(Hm & Hl & Hr)|[(Hm & (f & Hl & Hx) & Hr)|(f & Ha)]]]].
  1-4: rewrite Hr in Hrun; injection Hrun as <- <-; discriminate H200.
  rewrite (process_photo_accepted S request f w Ha) in Hrun.
  destruct (content f) as [image0|e0] eqn:Hc.
  2: { injection Hrun as <- <-. discriminate H200. }
  destruct (rgb_image (pil S) image0) as [image|e0] eqn:Himg.
  2: { injection Hrun as <- <-. discriminate H200. }
  exists f, image0, image. split; [exact Ha|]. split; [exact Hc|]. split; [exact Himg|].
  cbv zeta in Hrun |- *. rewrite upload_to_gcs_run in Hrun.
  destruct (storage_fault S TempFile); [injection Hrun as <- <-; discriminate H200|].
  destruct (intact (Main.create_framed_image _ _ _));
    [|injection Hrun as <- <-; discriminate H200].
  destruct (webp_accepts S (Main.create_framed_image _ _ _));
    [|injection Hrun as <- <-; discriminate H200].
  destruct (storage_fault S Encode); [injection Hrun as <- <-; discriminate H200|].
  destruct (storage_fault S Upload); [injection Hrun as <- <-; discriminate H200|].
  destruct (storage_fault S MakePublic); [injection Hrun as <- <-; discriminate H200|].
  destruct (storage_fault S Unlink); [injection Hrun as <- <-; discriminate H200|].
  injection Hrun as <- <-. auto.
Qed.

(** X15.  What a 200 carries.  The request passed the checks, the upload
    decoded and is RGB or was converted; [imageUrl] is the public URL of
    the key just written, [analysisResult] is the classifier's normalised
    text, which need not be "yes" or "no", and [frameStyle] is "yes"
    exactly when that text is "yes" and "no" otherwise.  The run classified
    the RGB image, composed it and stored one object, in this order, and
    touched no other key of the bucket. *)
Theorem success_response (S : services) (request : Web.request)
  (w w' : world) (resp : response) :
  Main.process_photo S request w = (Ok resp, w') ->
  status resp = 200 ->
  exists photo_file image0 image,
    accepted request photo_file /\
    content photo_file = Ok image0 /\
    rgb_image (pil S) image0 = Ok image /\
    let text := Main.analyze_image_with_gemini (gemini S) image in
    let frame_path := fst (Main.select_frame text) in
    let frame_type := snd (Main.select_frame text) in
    let key := Main.storage_key (now S) (PyStr.take 8 (uuid4 S)) frame_type in
    resp = mkResponse (success_body (public_url S key) frame_type text) 200
                      Main.json_headers /\
    (frame_type = "yes" <-> text = "yes") /\
    (frame_type = "no" <-> text <> "yes") /\
    trace w' = (trace w ++ [Classified image; Composited image frame_path; Stored key])%list /\
    (forall k, k <> key -> lookup k (bucket w') = lookup k (bucket w)).
Proof.
  intros Hrun H200.
  destruct (process_photo_ok_inv S request w w' resp Hrun H200)
    as (f & image0 & image & Ha & Hc & Himg & Hresp & Hw & _).
  exists f, image0, image. split; [exact Ha|]. split; [exact Hc|]. split; [exact Himg|].
  cbv zeta in Hresp, Hw |- *.
  split; [exact Hresp|].
  unfold Main.select_frame at 1 2.
  destruct (String.eqb_spec (Main.analyze_image_with_gemini (gemini S) image) "yes")
    as [E|E]; cbn [snd].
  1: split; [split; [intros _; exact E | reflexivity]|];
     split; [split; [discriminate | intros; contradiction]|].
  2: split; [split; [discriminate | intros; contradiction]|];
     split; [split; [intros _; exact E | reflexivity]|].
  all: subst w'; unfold published, processed; cbn [bucket trace]; split;
    [rewrite <- !app_assoc; reflexivity
    | intros k Hk; apply (proj2 (lookup_written _ _ true (bucket w)) k Hk)].
Qed.


Lemma degraded_request_succeeds_witness :
  exists image,
    rgb_image (pil Samples.offline_services) (Samples.photo 2000 1000) = Ok image /\
    let text := Main.analyze_image_with_gemini (gemini Samples.offline_services) image in
    let frame_path := fst (Main.select_frame text) in
    let frame_type := snd (Main.select_frame text) in
    let key := Main.storage_key (now Samples.offline_services)
                 (PyStr.take 8 (uuid4 Samples.offline_services)) frame_type in
    let framed := Main.create_framed_image (pil Samples.offline_services) image frame_path in
    Main.process_photo Samples.offline_services Samples.sample_request (mkWorld [] [])
    = (Ok (mkResponse (success_body (public_url Samples.offline_services key)
                                    frame_type text) 200 Main.json_headers),
       published framed key (processed image frame_path (mkWorld [] []))) /\
    mode framed = "RGB" /\
    (forall e, gemini Samples.offline_services image = Raise e -> frame_type = "no") /\
    (forall e, open (pil Samples.offline_services) frame_path = Raise e -> framed = image).
Proof.
  apply (degraded_request_succeeds Samples.offline_services Samples.sample_request
           (mkUpload "Screenshot.PNG" (Ok (Samples.photo 2000 1000)))
           (Samples.photo 2000 1000) (mkWorld [] [])).
  - unfold accepted. split; [reflexivity|]. split; reflexivity.
  - reflexivity.
  - reflexivity.
  - left. reflexivity.
  - reflexivity.
  - intros path frame Ho. discriminate Ho.
  - intros st. reflexivity.
Defined.

Lemma internal_error_cause_witness :
  exists e,
    Samples.failed_response = internal_error e /\
    ((Samples.failed_world = mkWorld [] [] /\
      (Ok (Samples.photo 2000 1000) = Raise e \/
       exists image0, Ok (Samples.photo 2000 1000) = Ok image0 /\
                      rgb_image (pil Samples.failing_services) image0 = Raise e)) \/
     exists image0 image,
       Ok (Samples.photo 2000 1000) = Ok image0 /\
       rgb_image (pil Samples.failing_services) image0 = Ok image /\
       let text := Main.analyze_image_with_gemini (gemini Samples.failing_services) image in
       let frame_path := fst (Main.select_frame text) in
       let frame_type := snd (Main.select_frame text) in
       let key := Main.storage_key (now Samples.failing_services)
                    (PyStr.take 8 (uuid4 Samples.failing_services)) frame_type in
       let framed := Main.create_framed_image (pil Samples.failing_services) image
                       frame_path in
       (Samples.failed_world = processed image frame_path (mkWorld [] []) /\
        (storage_fault Samples.failing_services TempFile = Some e \/
         (intact framed = false /\ e = OSError) \/
         (webp_fits framed = false /\ e = encoder_error Samples.failing_services framed) \/
         storage_fault Samples.failing_services Encode = Some e \/
         storage_fault Samples.failing_services Upload = Some e)) \/
       (Samples.failed_world = written framed key (processed image frame_path (mkWorld [] [])) /\
        storage_fault Samples.failing_services MakePublic = Some e /\
        lookup key (bucket Samples.failed_world) = Some (webp_blob framed false)) \/
       (Samples.failed_world
        = published framed key (processed image frame_path (mkWorld [] [])) /\
        storage_fault Samples.failing_services Unlink = Some e /\
        lookup key (bucket Samples.failed_world) = Some (webp_blob framed true))).
Proof.
  apply (internal_error_cause Samples.failing_services Samples.sample_request
           (mkUpload "Screenshot.PNG" (Ok (Samples.photo 2000 1000)))
           (mkWorld [] []) Samples.failed_world Samples.failed_response).
  - unfold accepted. split; [reflexivity|]. split; reflexivity.
  - vm_compute. reflexivity.
  - reflexivity.
Defined.

Lemma success_response_witness :
  exists photo_file image0 image,
    accepted Samples.sample_request photo_file /\
    content photo_file = Ok image0 /\
    rgb_image (pil Samples.sample_services) image0 = Ok image /\
    let text := Main.analyze_image_with_gemini (gemini Samples.sample_services) image in
    let frame_path := fst (Main.select_frame text) in
    let frame_type := snd (Main.select_frame text) in
    let key := Main.storage_key (now Samples.sample_services)
                 (PyStr.take 8 (uuid4 Samples.sample_services)) frame_type in
    Samples.sample_response
    = mkResponse (success_body (public_url Samples.sample_services key) frame_type text)
                 200 Main.json_headers /\
    (frame_type = "yes" <-> text = "yes") /\
    (frame_type = "no" <-> text <> "yes") /\
    trace Samples.sample_world
    = (trace (mkWorld [] [])
       ++ [Classified image; Composited image frame_path; Stored key])%list /\
    (forall k, k <> key ->
               lookup k (bucket Samples.sample_world) = lookup k (bucket (mkWorld [] []))).
Proof.
  apply (success_response Samples.sample_services Samples.sample_request
           (mkWorld [] []) Samples.sample_world Samples.sample_response).
  - vm_compute. reflexivity.
  - reflexivity.
Defined.


End HandlerMore.

(** ** The compositor's fallback, seen from the request *)

Module Fallback.
Import PIL Web HandlerWords Samples Compositor Publisher HandlerMore.

(** C3.  [create_framed_image] never raises: whenever a step of the
    composition fails (a frame that cannot be opened, a frame whose pixels
    do not decode, a frame whose mode cannot be converted, a resize that
    raises) it returns the unmodified source image.  A request whose
    composition failed is then answered 200 or 500: 200, with the unframed
    image stored under the key of the verdict, exactly when that image can
    be published, that is, its pixels decode, its sides are of 1 to 16383
    pixels and no step of the storage fails. *)
Theorem create_framed_image_fallback (S : services) (request : Web.request)
  (photo_file : upload) (image0 image : PIL.image) (w : world) :
  (forall (E : env) (user_image : PIL.image) (frame_path : string),
     (forall e, Main.compose E user_image frame_path = Raise e ->
                Main.create_framed_image E user_image frame_path = user_image) /\
     (forall e, open E frame_path = Raise e ->
                Main.create_framed_image E user_image frame_path = user_image) /\
     (forall frame, open E frame_path = Ok frame -> intact frame = false ->
                Main.create_framed_image E user_image frame_path = user_image) /\
     (forall frame, open E frame_path = Ok frame ->
                mode frame <> "RGBA" -> convertible E (mode frame) "RGBA" = false ->
                Main.create_framed_image E user_image frame_path = user_image) /\
     (forall frame e, open E frame_path = Ok frame ->
                Main.resize_image_to_fit user_image (width frame - 100)
                  (height frame - 100) = Raise e ->
                Main.create_framed_image E user_image frame_path = user_image) /\
     (Main.create_framed_image E user_image frame_path = user_image \/
      exists r, Main.compose E user_image frame_path = Ok r /\
                Main.create_framed_image E user_image frame_path = r)) /\
  (accepted request photo_file ->
   content photo_file = Ok image0 ->
   rgb_image (pil S) image0 = Ok image ->
   let text := Main.analyze_image_with_gemini (gemini S) image in
   let frame_path := fst (Main.select_frame text) in
   let frame_type := snd (Main.select_frame text) in
   let key := Main.storage_key (now S) (PyStr.take 8 (uuid4 S)) frame_type in
   (exists e, Main.compose (pil S) image frame_path = Raise e) ->
   exists resp w',
     Main.process_photo S request w = (Ok resp, w') /\
     (status resp = 200 \/ status resp = 500) /\
     (status resp = 200 <->
      intact image = true /\ webp_fits image = true /\ storage_works S) /\
     (status resp = 200 ->
      resp = mkResponse (success_body (public_url S key) frame_type text) 200
                        Main.json_headers /\
      lookup key (bucket w') = Some (webp_blob image true))).
Proof.
  split; [intros E user_image frame_path; apply create_framed_image_cases|].
  intros Ha Hc Himg text frame_path frame_type key (e & He).
  rewrite (process_photo_accepted S request photo_file w Ha), Hc, Himg. cbv zeta.
  fold text. fold frame_path. fold frame_type. fold key.
  assert (Hsrc : Main.create_framed_image (pil S) image frame_path = image).
  { unfold Main.create_framed_image. rewrite He. reflexivity. }
  rewrite Hsrc, upload_to_gcs_run.
  rewrite (webp_accepts_rgb S image (proj1 (rgb_image_inv _ _ _ Himg))).
  assert (Hno : forall (e0 : exn) (w0 : world),
            exists resp w',
              (Ok (internal_error e0), w0) = (Ok resp, w') /\
              (status resp = 200 \/ status resp = 500) /\
              (status resp = 200 -> False)).
  { intros e0 w0. eexists _, _. split; [reflexivity|]. split; [right; reflexivity|].
    discriminate. }
  assert (Hfail : forall (e0 : exn) (w0 : world),
            ~ (intact image = true /\ webp_fits image = true /\ storage_works S) ->
            exists resp w',
              (Ok (internal_error e0), w0) = (Ok resp, w') /\
              (status resp = 200 \/ status resp = 500) /\
              (status resp = 200 <->
               intact image = true /\ webp_fits image = true /\ storage_works S) /\
              (status resp = 200 ->
               resp = mkResponse (success_body (public_url S key) frame_type text) 200
                                 Main.json_headers /\
               lookup key (bucket w') = Some (webp_blob image true))).
  { intros e0 w0 Hn. destruct (Hno e0 w0) as (resp & w' & Hr & Hs & H200).
    exists resp, w'. split; [exact Hr|]. split; [exact Hs|]. split.
    - split; [intros H; destruct (H200 H) | intros H; destruct (Hn H)].
    - intros H; destruct (H200 H). }
  destruct (storage_fault S TempFile) as [e1|] eqn:F1.
  { apply Hfail. intros (_ & _ & Hs). rewrite Hs in F1. discriminate F1. }
  destruct (intact image) eqn:Hint.
  2: { apply Hfail. intros (Hi & _). discriminate Hi. }
  destruct (webp_fits image) eqn:Hfit.
  2: { apply Hfail. intros (_ & Hf & _). discriminate Hf. }
  destruct (storage_fault S Encode) as [e1|] eqn:F2.
  { apply Hfail. intros (_ & _ & Hs). rewrite Hs in F2. discriminate F2. }
  destruct (storage_fault S Upload) as [e1|] eqn:F3.
  { apply Hfail. intros (_ & _ & Hs). rewrite Hs in F3. discriminate F3. }
  destruct (storage_fault S MakePublic) as [e1|] eqn:F4.
  { apply Hfail. intros (_ & _ & Hs). rewrite Hs in F4. discriminate F4. }
  destruct (storage_fault S Unlink) as [e1|] eqn:F5.
  { apply Hfail. intros (_ & _ & Hs). rewrite Hs in F5. discriminate F5. }
  eexists _, _. split; [reflexivity|]. cbn [status]. split; [left; reflexivity|]. split.
  - split; [|reflexivity]. intros _. split; [reflexivity|]. split; [reflexivity|].
    intros []; assumption.
  - intros _. split; [reflexivity|]. unfold published. cbn [bucket].
    exact (proj1 (lookup_written image key true _)).
Qed.

Lemma create_framed_image_fallback_witness :
  Main.create_framed_image bundle (photo 640 480) "maybe.png" = photo 640 480 /\
  exists resp w',
    Main.process_photo offline_services sample_request (mkWorld [] []) = (Ok resp, w') /\
    status resp = 200 /\
    lookup (Main.storage_key (now offline_services)
              (PyStr.take 8 (uuid4 offline_services)) "no") (bucket w')
    = Some (webp_blob (photo 2000 1000) true).
Proof.
  destruct (create_framed_image_fallback offline_services sample_request
              (mkUpload "Screenshot.PNG" (Ok (photo 2000 1000)))
              (photo 2000 1000) (photo 2000 1000) (mkWorld [] [])) as [Hf Hr].
  split.
  - exact (proj1 (proj2 (Hf bundle (photo 640 480) "maybe.png"))
             FileNotFoundError eq_refl).
  - destruct Hr as (resp & w' & Hrun & _ & Hiff & Hst).
    + unfold accepted. split; [reflexivity|]. split; reflexivity.
    + reflexivity.
    + reflexivity.
    + exists FileNotFoundError. reflexivity.
    + assert (H200 : status resp = 200).
      { apply (proj2 Hiff). split; [reflexivity|]. split; [reflexivity|].
        intros st. reflexivity. }
      exists resp, w'. split; [exact Hrun|]. split; [exact H200|].
      exact (proj2 (Hst H200)).
Defined.

(** The specification's sentence fails on an upload cut short: its pixels
    do not decode, so the resize raises and the compositor falls back to
    it, and the publication then raises on the same pixels; the answer is
    500. *)
Lemma create_framed_image_fallback_counterexample :
  ~ fallback_request_succeeds sample_services truncated_request (mkWorld [] []).
Proof.
  intros Hc.
  destruct (Hc (mkUpload "Screenshot.PNG" (Ok truncated_photo))
              truncated_photo truncated_photo) as (resp & w' & Hrun & H200).
  - unfold accepted. split; [reflexivity|]. split; reflexivity.
  - reflexivity.
  - reflexivity.
  - exists OSError. vm_compute. reflexivity.
  - vm_compute in Hrun. injection Hrun as <- <-. discriminate H200.
Qed.

End Fallback.

(** ** The harness, further *)

Module HarnessMore.
Import PIL Web Samples StrFacts TestLocal.

Lemma lookup_replaced {A : Type} (key : string) (v : A) (l : list (string * A)) :
  lookup key ((key, v) :: filter (fun f : string * A => negb (String.eqb (fst f) key)) l)
  = Some v /\
  forall k, k <> key ->
    lookup k ((key, v) :: filter (fun f : string * A => negb (String.eqb (fst f) key)) l)
    = lookup k l.
Proof.
  split.
  - cbn. rewrite String.eqb_refl. reflexivity.
  - intros k Hk. cbn. destruct (String.eqb_spec key k) as [E|_]; [congruence|].
    induction l as [|[k0 b] l IH]; cbn; [reflexivity|].
    destruct (String.eqb_spec k0 key) as [->|Hne]; cbn.
    + destruct (String.eqb_spec key k); [congruence | exact IH].
    + rewrite IH. reflexivity.
Qed.

(** X17.  A run of the harness on an image that cannot be opened does not
    end in the "no" branch as its [except] clause intends: [image] was
    never assigned, so the branch taken after the [try] raises
    UnboundLocalError and no file is written. *)
Theorem harness_unopened_image (H : harness) (image_path : string) (e : exn)
  (fs : files) :
  open (h_pil H) image_path = Raise e ->
  test_gemini_analysis H image_path fs = Raise (OtherError "UnboundLocalError").
Proof.
  intros Ho. unfold test_gemini_analysis, analysis. rewrite Ho. reflexivity.
Qed.

(** The run of the harness on an image that opens, step by step. *)
Lemma test_gemini_analysis_run (H : harness) (image_path : string)
  (image0 : PIL.image) (fs : files) :
  open (h_pil H) image_path = Ok image0 ->
  test_gemini_analysis H image_path fs =
  match Sem.rgb_image (h_pil H) image0 with
  | Raise _ => save H (create_framed_image (h_pil H) image0 "no.png") "test_no.png" fs
  | Ok image =>
      match h_remote H image with
      | Raise _ => save H (create_framed_image (h_pil H) image "no.png") "test_no.png" fs
      | Ok text =>
          if String.eqb (PyStr.lower (PyStr.strip text)) "yes"
          then save H (create_framed_image (h_pil H) image "yes.png") "test_yes.png" fs
          else save H (create_framed_image (h_pil H) image "no.png") "test_no.png" fs
      end
  end.
Proof.
  intros Ho. unfold test_gemini_analysis, analysis, Sem.rgb_image. rewrite Ho.
  destruct (if negb (mode image0 =? "RGB")%string
            then convert (h_pil H) image0 "RGB" else Ok image0) as [image|e];
    [|reflexivity].
  destruct (h_remote H image) as [text|e]; [|reflexivity].
  destruct (String.eqb (PyStr.lower (PyStr.strip text)) "yes"); reflexivity.
Qed.

Lemma save_inv (H : harness) (framed : PIL.image) (name : string) (fs fs' : files) :
  save H framed name fs = Ok fs' ->
  intact framed = true /\ lookup name fs' = Some framed /\
  forall other, other <> name -> lookup other fs' = lookup other fs.
Proof.
  unfold save, load.
  destruct (intact framed); cbn [bind]; [|discriminate].
  destruct (h_save_fault H name framed); [discriminate|].
  intros [= <-]. split; [reflexivity|]. apply lookup_replaced.
Qed.


(** X19.  The harness previews the handler.  With the same Pillow
    surroundings, a model that gives an image the same verdict under the
    two prompts, and a file that opens as the upload decodes: when the
    handler answers 200 and the harness returns, the image the harness
    saved under test_yes.png or test_no.png is the one the handler stored,
    for the same verdict. *)
Theorem harness_previews_handler (H : harness) (S : Web.services)
  (image_path : string) (request : Web.request) (w w' : Web.world)
  (resp : Web.response) (fs fs' : files) :
  h_pil H = Web.pil S ->
  (forall im, Main.analyze_image_with_gemini (h_remote H) im = "yes" <->
              Main.analyze_image_with_gemini (Web.gemini S) im = "yes") ->
  (forall photo_file, lookup "photo" (Web.req_files request) = Some photo_file ->
                      open (h_pil H) image_path = Web.content photo_file) ->
  Main.process_photo S request w = (Ok resp, w') ->
  Web.status resp = 200 ->
  test_gemini_analysis H image_path fs = Ok fs' ->
  exists (verdict : string) (framed : PIL.image),
    (verdict = "yes" \/ verdict = "no") /\
    lookup ("test_" ++ verdict ++ ".png") fs' = Some framed /\
    lookup (Main.storage_key (Web.now S) (PyStr.take 8 (Web.uuid4 S)) verdict)
           (Web.bucket w')
    = Some (HandlerWords.webp_blob framed true).
Proof.
  intros Hpil Hsame Hfile Hrun H200 Hh.
  destruct (HandlerMore.process_photo_ok_inv S request w w' resp Hrun H200)
    as (f & image0 & image & (Hm & Hl & Hx) & Hc & Himg & _ & Hw & _).
  cbv zeta in Hw.
  assert (Ho : open (h_pil H) image_path = Ok image0).
  { rewrite (Hfile f Hl). exact Hc. }
  rewrite (test_gemini_analysis_run H image_path image0 fs Ho), Hpil, Himg in Hh.
  assert (Hstored : forall framed key w0,
            lookup key (Web.bucket (HandlerWords.published framed key w0))
            = Some (HandlerWords.webp_blob framed true)).
  { intros framed key w0. unfold HandlerWords.published. cbn [Web.bucket].
    exact (proj1 (Publisher.lookup_written framed key true (Web.bucket w0))). }
  specialize (Hsame image).
  unfold Main.analyze_image_with_gemini at 1 in Hsame.
  unfold Main.select_frame in Hw.
  destruct (String.eqb_spec (Main.analyze_image_with_gemini (Web.gemini S) image) "yes")
    as [E|E]; cbn [fst snd] in Hw.
  - destruct (h_remote H image) as [text|e]; cbn [bind try_except] in Hsame.
    2: { apply proj2 in Hsame. specialize (Hsame E). discriminate Hsame. }
    rewrite (proj2 Hsame E) in Hh.
    change (("yes" =? "yes")%string) with true in Hh. cbv iota in Hh.
    destruct (save_inv _ _ _ _ _ Hh) as (_ & Hf & _).
    exists "yes", (Main.create_framed_image (Web.pil S) image "yes.png").
    split; [auto|]. split; [exact Hf|]. rewrite Hw. apply Hstored.
  - assert (Hno : save H (create_framed_image (Web.pil S) image "no.png") "test_no.png" fs
                  = Ok fs').
    { destruct (h_remote H image) as [text|e]; cbn [bind try_except] in Hsame;
        [|exact Hh].
      destruct (String.eqb_spec (PyStr.lower (PyStr.strip text)) "yes") as [Ey|_];
        [|exact Hh].
      exfalso. apply E. apply (proj1 Hsame). exact Ey. }
    destruct (save_inv _ _ _ _ _ Hno) as (_ & Hf & _).
    exists "no", (Main.create_framed_image (Web.pil S) image "no.png").
    split; [auto|]. split; [exact Hf|]. rewrite Hw. apply Hstored.
Qed.

Lemma harness_unopened_image_witness :
  test_gemini_analysis sample_harness "missing.jpg" []
  = Raise (OtherError "UnboundLocalError").
Proof.
  apply (harness_unopened_image sample_harness "missing.jpg" FileNotFoundError []).
  reflexivity.
Defined.


Lemma harness_previews_handler_witness :
  exists (verdict : string) (framed : PIL.image),
    (verdict = "yes" \/ verdict = "no") /\
    lookup ("test_" ++ verdict ++ ".png") sample_files = Some framed /\
    lookup (Main.storage_key (Web.now desk_services)
              (PyStr.take 8 (Web.uuid4 desk_services)) verdict)
           (Web.bucket desk_world)
    = Some (HandlerWords.webp_blob framed true).
Proof.
  apply (harness_previews_handler sample_harness desk_services "photo.jpg"
           sample_request (mkWorld [] []) desk_world desk_response [] sample_files).
  - reflexivity.
  - intros im. vm_compute. split; intros _; reflexivity.
  - intros photo_file Hl. injection Hl as <-. reflexivity.
  - vm_compute. reflexivity.
  - reflexivity.
  - vm_compute. reflexivity.
Defined.

End HarnessMore.
